(** * Verification of [generate-dotpkg.ts] (package [@contentlayer/core])

    A shallow embedding of

      src/packages/@contentlayer/core/src/generation/generate-dotpkg.ts

    Strings are byte strings (UTF-8): every regular expression of the
    source only tells ASCII characters apart, so a byte above 127 is just
    "some other character". *)

From Stdlib Require Import ZArith Ascii String List Bool Lia.
From stdpp Require Import base option list strings pretty gmap.

Set Warnings "-register-all".

Local Open Scope string_scope.
Local Open Scope list_scope.

(* ===================================================================== *)
(** * 1. JavaScript strings *)
(* ===================================================================== *)

Module Js.

Definition code (c : ascii) : nat := nat_of_ascii c.

(** The character classes [[0-9]], [[a-z]] and [[A-Z]]. *)
Definition is_digit (c : ascii) : bool :=
  (48 <=? code c)%nat && (code c <=? 57)%nat.
Definition is_lower (c : ascii) : bool :=
  (97 <=? code c)%nat && (code c <=? 122)%nat.
Definition is_upper (c : ascii) : bool :=
  (65 <=? code c)%nat && (code c <=? 90)%nat.

(** [String.prototype.toLowerCase] and [toUpperCase], on ASCII letters. *)
Definition to_lower (c : ascii) : ascii :=
  if is_upper c then ascii_of_nat (code c + 32) else c.
Definition to_upper (c : ascii) : ascii :=
  if is_lower c then ascii_of_nat (code c - 32) else c.

Fixpoint map_chars (f : ascii → ascii) (s : string) : string :=
  match s with
  | EmptyString => EmptyString
  | String c s' => String (f c) (map_chars f s')
  end.

Definition toLowerCase : string → string := map_chars to_lower.
Definition toUpperCase : string → string := map_chars to_upper.

(** [arr.join(sep)] on an array of strings. *)
Fixpoint join (sep : string) (l : list string) : string :=
  match l with
  | [] => ""
  | [x] => x
  | x :: l' => x +:+ sep +:+ join sep l'
  end.

(** [str.replace(/c/g, by)] for a one-character pattern. *)
Fixpoint replace_char (c : ascii) (by_ : string) (s : string) : string :=
  match s with
  | EmptyString => EmptyString
  | String d s' =>
      if Ascii.eqb d c then by_ +:+ replace_char c by_ s'
      else String d (replace_char c by_ s')
  end.

(** [/^[0-9]/.test(str)]. *)
Definition starts_with_digit (s : string) : bool :=
  match s with
  | String c _ => is_digit c
  | EmptyString => false
  end.

(** [str.split(sep)] for a one-character separator: always at least one
    piece, empty pieces are kept. *)
Fixpoint split_go (sep : ascii) (cur : string) (s : string) : list string :=
  match s with
  | EmptyString => [String.rev cur]
  | String c s' =>
      if Ascii.eqb c sep then String.rev cur :: split_go sep "" s'
      else split_go sep (String c cur) s'
  end.
Definition split (sep : ascii) (s : string) : list string := split_go sep "" s.

(** Template-literal interpolation of a number: [`${n}`]. *)
Definition of_nat (n : nat) : string := pretty n.

End Js.

(* ===================================================================== *)
(** * 2. JSON values and [JSON.stringify(value, null, 2)] *)
(* ===================================================================== *)

(** Values a document holds. Numbers are the integers that JavaScript
    prints digit by digit, those below 10^21 in absolute value; fractions
    and the numbers printed with an exponent are left out. An object lists
    its own enumerable properties in enumeration order. *)
Inductive JsVal : Type :=
  | JNull
  | JBool (b : bool)
  | JNum (z : Z)
  | JStr (s : string)
  | JArr (items : list JsVal)
  | JObj (props : list (string * JsVal)).

Module Json.

Definition hex_digit (n : nat) : ascii :=
  if (n <? 10)%nat then ascii_of_nat (48 + n) else ascii_of_nat (87 + n).

(** The [QuoteJSONString] escapes. *)
Definition escape_char (c : ascii) : string :=
  let n := Js.code c in
  if (n =? 34)%nat then String (ascii_of_nat 92) (String (ascii_of_nat 34) "")
  else if (n =? 92)%nat then "\\"
  else if (n =? 8)%nat then "\b"
  else if (n =? 12)%nat then "\f"
  else if (n =? 10)%nat then "\n"
  else if (n =? 13)%nat then "\r"
  else if (n =? 9)%nat then "\t"
  else if (n <? 32)%nat then
    "\u00" +:+ String (hex_digit (n / 16)) (String (hex_digit (n mod 16)) "")
  else String c "".

Fixpoint escape (s : string) : string :=
  match s with
  | EmptyString => EmptyString
  | String c s' => escape_char c +:+ escape s'
  end.

Definition dquote : string := String (ascii_of_nat 34) "".
Definition newline : string := String (ascii_of_nat 10) "".

Definition quote (s : string) : string := dquote +:+ escape s +:+ dquote.

Fixpoint spaces (n : nat) : string :=
  match n with
  | O => ""
  | S n' => String " " (spaces n')
  end.

(** [SerializeJSONProperty] with gap ["  "]; [ind] is the current
    indentation in characters. *)
Fixpoint serialize (ind : nat) (v : JsVal) : string :=
  match v with
  | JNull => "null"
  | JBool true => "true"
  | JBool false => "false"
  | JNum z => pretty z
  | JStr s => quote s
  | JArr [] => "[]"
  | JArr items =>
      let stepback := spaces ind in
      let indent := spaces (ind + 2) in
      let sep := "," +:+ newline +:+ indent in
      "[" +:+ newline +:+ indent
        +:+ Js.join sep (List.map (serialize (ind + 2)) items)
        +:+ newline +:+ stepback +:+ "]"
  | JObj [] => "{}"
  | JObj props =>
      let stepback := spaces ind in
      let indent := spaces (ind + 2) in
      let sep := "," +:+ newline +:+ indent in
      "{" +:+ newline +:+ indent
        +:+ Js.join sep
              (List.map (fun kv => quote (fst kv) +:+ ": "
                                   +:+ serialize (ind + 2) (snd kv)) props)
        +:+ newline +:+ stepback +:+ "}"
  end.

(** [JSON.stringify(value, null, 2)]: [None] is the argument [undefined],
    for which the result is [undefined] as well, not a string. *)
Definition stringify (v : option JsVal) : option string :=
  match v with
  | None => None
  | Some v => Some (serialize 0 v)
  end.

(** [obj[key]]: [None] is [undefined]. *)
Fixpoint get (key : string) (props : list (string * JsVal)) : option JsVal :=
  match props with
  | [] => None
  | (k, v) :: props' => if String.eqb k key then Some v else get key props'
  end.

End Json.


(* ===================================================================== *)
(** * 3. The [camelCase] function of the npm package [camel-case] *)
(* ===================================================================== *)

(** [camelCase(input, { stripRegexp })] is [noCase] of the package [no-case]
    with the camel-case transform and the empty delimiter: the two default
    split expressions put a NUL between the characters they separate, the
    strip expression turns every stripped character into a NUL, leading and
    trailing NULs are dropped, the rest is split at NUL, each piece goes
    through the transform and the pieces are joined. *)
Module CamelCase.

Definition nul : ascii := ascii_of_nat 0.

(** [input.replace(/([a-z0-9])([A-Z])/g, "$1\0$2")]. *)
Fixpoint split_lower_upper (s : string) : string :=
  match s with
  | String a s' =>
      match s' with
      | String b _ =>
          if (Js.is_lower a || Js.is_digit a) && Js.is_upper b
          then String a (String nul (split_lower_upper s'))
          else String a (split_lower_upper s')
      | EmptyString => String a EmptyString
      end
  | EmptyString => EmptyString
  end.

(** [input.replace(/([A-Z])([A-Z][a-z])/g, "$1\0$2")]. *)
Fixpoint split_upper_word (s : string) : string :=
  match s with
  | String a s' =>
      match s' with
      | String b (String c _) =>
          if Js.is_upper a && Js.is_upper b && Js.is_lower c
          then String a (String nul (split_upper_word s'))
          else String a (split_upper_word s')
      | _ => String a (split_upper_word s')
      end
  | EmptyString => EmptyString
  end.

(** The strip expression of the source, [/[^A-Z0-9\_]/gi]: what it does
    not strip. *)
Definition kept (c : ascii) : bool :=
  Js.is_upper c || Js.is_lower c || Js.is_digit c || Ascii.eqb c "_".

Definition strip (s : string) : string :=
  Js.map_chars (fun c => if kept c then c else nul) s.

Fixpoint drop_nuls (s : string) : string :=
  match s with
  | String c s' => if Ascii.eqb c nul then drop_nuls s' else s
  | EmptyString => EmptyString
  end.

Definition trim_nuls (s : string) : string :=
  String.rev (drop_nuls (String.rev (drop_nuls s))).

(** [pascalCaseTransform(input, index)]. *)
Definition pascalCaseTransform (input : string) (index : nat) : string :=
  match input with
  | EmptyString => EmptyString
  | String firstChar rest =>
      let lowerChars := Js.toLowerCase rest in
      if (0 <? index)%nat && Js.is_digit firstChar
      then String "_" (String firstChar lowerChars)
      else String (Js.to_upper firstChar) lowerChars
  end.

(** [camelCaseTransform(input, index)]. *)
Definition camelCaseTransform (input : string) (index : nat) : string :=
  if (index =? 0)%nat then Js.toLowerCase input
  else pascalCaseTransform input index.

Definition camelCase (input : string) : string :=
  let result := strip (split_upper_word (split_lower_upper input)) in
  Js.join "" (imap (fun index piece => camelCaseTransform piece index)
                   (Js.split nul (trim_nuls result))).

End CamelCase.

(* ===================================================================== *)
(** * 4. Data model *)
(* ===================================================================== *)

(** What JavaScript code can throw synchronously here: a [TypeError], or
    the value that code from outside this module throws. Thrown inside an
    effect it is a defect of the effect, outside its typed error channel. *)
Inductive Defect : Type :=
  | TypeError (msg : string)
  | Thrown (value : JsVal).

(** [DocumentTypeDef] of [../schema/index.js], with the fields this module
    reads. *)
Record DocumentTypeDef : Type := {
  name : string;
  isSingleton : bool;
}.

(** [SchemaDef]: [documentTypeDefMap] is a [Record<string, DocumentTypeDef>],
    kept in the order [Object.values] enumerates it. *)
Record SchemaDef : Type := {
  documentTypeDefMap : list (string * DocumentTypeDef);
  hash : string;
}.

(** A document is a JavaScript object: [fields] are its own properties in
    enumeration order, the property [_id] among them, and [_id] is the
    value of that property, a string by the type [Document]. *)
Record Document : Type := {
  _id : string;
  fields : list (string * JsVal);
}.

(** [DataCache.Cache]: [cacheItemsMap] in the order of [Object.values]. *)
Record CacheItem : Type := {
  document : Document;
  documentHash : string;
}.

Record Cache : Type := {
  cacheItemsMap : list (string * CacheItem);
}.

(** What a call of the success callback comes to: it returns a promise,
    which resolves or rejects, or it throws before it has returned one. *)
Inductive Settled : Type :=
  | Resolves
  | Rejects (error : JsVal)
  | Throws (thrown : Defect).

(** The argument of [onSuccess] is a thunk that imports the module at a
    path; the callback is given by what it does for that path. *)
Definition SuccessCallback : Type := string → Settled.

Record FieldOptions : Type := { typeFieldName : string }.
Record Experimental : Type := { enableDynamicBuild : bool }.

Record PluginOptions : Type := {
  fieldOptions : FieldOptions;
  experimental : Experimental;
  onSuccess : option SuccessCallback;
}.

Record GenerationOptions : Type := {
  sourcePluginType : string;
  options : PluginOptions;
}.

(** [_[typeNameField]] and [_.documentHash] read a property of the document
    object; [None] is [undefined]. *)
Definition prop (d : Document) (key : string) : option JsVal :=
  Json.get key (fields d).

(** [_[typeNameField] === docDef.name]. *)
Definition has_type (typeNameField : string) (typeName : string)
    (d : Document) : bool :=
  match prop d typeNameField with
  | Some (JStr s) => String.eqb s typeName
  | _ => false
  end.

(** [ToString] of a value, as [Array.prototype.join] applies it to an
    element: [undefined] and [null] give the empty string. *)
Fixpoint to_string (v : JsVal) : string :=
  match v with
  | JNull => "null"
  | JBool true => "true"
  | JBool false => "false"
  | JNum z => pretty z
  | JStr s => s
  | JArr items =>
      Js.join "," (List.map (fun x => match x with
                                      | JNull => ""
                                      | _ => to_string x
                                      end) items)
  | JObj _ => "[object Object]"
  end.

Definition join_element (v : option JsVal) : string :=
  match v with
  | None | Some JNull => ""
  | Some v => to_string v
  end.

(** The names this module imports from files that are not part of it. *)
Class Imports : Type := {
  (** [autogeneratedNote] of [./common.js]. *)
  autogeneratedNote : string;
  (** [getDataVariableName({ docDef })] of [./common.js]. *)
  getDataVariableName : DocumentTypeDef → string;
  (** [renderTypes({ schemaDef, generationOptions })] of
      [./generate-types.js]. *)
  renderTypes : SchemaDef → GenerationOptions → string;
  (** [relative(from, to)] of [@contentlayer/utils]. *)
  relative : string → string → string;
  (** [ArtifactsDir.getDirPath({ cwd })] of [../ArtifactsDir.js]. *)
  getDirPath : string → string;
}.

(** Modelled from the spec: [filePathJoin] of [@contentlayer/utils] is not
    in the source tree. The generated package layout of the specification
    ([generated/<typeName>/<idToFileName(id)>.json] under the package root)
    is the segments joined with [/]; a segment is taken as it is. *)
Definition filePathJoin (segments : list string) : string :=
  Js.join "/" segments.

(* ===================================================================== *)
(** * 5. Identifier and artifact synthesis *)
(* ===================================================================== *)

Definition nl : string := Json.newline.

Definition leftPadWithUnderscoreIfStartsWithNumber (str : string) : string :=
  if Js.starts_with_digit str then "_" +:+ str else str.

Definition idToFileName (id : string) : string :=
  Js.replace_char "/" "__" (leftPadWithUnderscoreIfStartsWithNumber id).

(** The [TypeError] of [undefined.replace(...)]. *)
Definition undefined_replace : Defect :=
  TypeError "Cannot read properties of undefined (reading 'replace')".

(** [idToFileName(documentIds[0]!)]: when the array is empty the argument is
    [undefined]; [/^[0-9]/.test(undefined)] is false, so
    [leftPadWithUnderscoreIfStartsWithNumber] returns [undefined], and
    [undefined.replace] throws. *)
Definition idToFileName_opt (id : option string) : Defect + string :=
  match id with
  | Some id => inr (idToFileName id)
  | None => inl undefined_replace
  end.

(** Every character of [s] satisfies [p]. *)
Fixpoint all_chars (p : ascii → bool) (s : string) : bool :=
  match s with
  | EmptyString => true
  | String c s' => p c && all_chars p s'
  end.

(** [/^(?![0-9])([a-zA-Z0-9_$]+)$/.test(str)]. *)
Definition isValidJsVarName (str : string) : bool :=
  match str with
  | EmptyString => false
  | String c _ =>
      negb (Js.is_digit c)
      && all_chars (fun c => Js.is_lower c || Js.is_upper c || Js.is_digit c
                             || Ascii.eqb c "_" || Ascii.eqb c "$") str
  end.

(** [makeVariableName(id, fileIndex)] of [makeDataExportFile], with the set
    [usedVariableNames] it reads passed in. *)
Definition makeVariableName (docDef : DocumentTypeDef)
    (usedVariableNames : gset string) (id : string) (fileIndex : nat) : string :=
  let n := CamelCase.camelCase (idToFileName id) in
  if isValidJsVarName n && negb (bool_decide (n ∈ usedVariableNames))
  then n
  else name docDef +:+ Js.of_nat fileIndex.

(** [documentIds.map((id, fileIndex) => ...)]: the pairs [[id, variableName]]
    in order, every name added to [usedVariableNames] as it is made. *)
Fixpoint variableNamePairs (docDef : DocumentTypeDef)
    (usedVariableNames : gset string) (fileIndex : nat)
    (documentIds : list string) : list (string * string) :=
  match documentIds with
  | [] => []
  | id :: rest =>
      let variableName := makeVariableName docDef usedVariableNames id fileIndex in
      (id, variableName)
        :: variableNamePairs docDef ({[variableName]} ∪ usedVariableNames)
                             (S fileIndex) rest
  end.

(** The names of [variableNamePairs], in order. *)
Definition variableNames (docDef : DocumentTypeDef) (used : gset string)
    (fileIndex : nat) (documentIds : list string) : list string :=
  List.map snd (variableNamePairs docDef used fileIndex documentIds).

(** A JavaScript [Map] with string keys, in insertion order. *)
Module JsMap.
Definition t : Type := list (string * string).

(** [map.set(key, value)]: an existing key keeps its place. *)
Fixpoint set (key value : string) (m : t) : t :=
  match m with
  | [] => [(key, value)]
  | (k, v) :: m' =>
      if String.eqb k key then (k, value) :: m' else (k, v) :: set key value m'
  end.

(** [new Map(entries)]. *)
Definition of_entries (entries : list (string * string)) : t :=
  fold_left (fun m kv => set (fst kv) (snd kv) m) entries [].

(** [map.get(key)]. *)
Fixpoint get (key : string) (m : t) : option string :=
  match m with
  | [] => None
  | (k, v) :: m' => if String.eqb k key then Some v else get key m'
  end.

(** [Array.from(map.values())]. *)
Definition values (m : t) : list string := List.map snd m.
End JsMap.

(** [`${x}`] where [x] may be [undefined]. *)
Definition interpolate (x : option string) : string :=
  match x with
  | Some s => s
  | None => "undefined"
  end.

(** The names after [import] in the lines of a collection's barrel file, in
    the order of the lines. *)
Definition importNames (docDef : DocumentTypeDef) (documentIds : list string)
    : list string :=
  let idToVariableNameMap :=
    JsMap.of_entries (variableNamePairs docDef ∅ 0 documentIds) in
  List.map (fun id => interpolate (JsMap.get id idToVariableNameMap)) documentIds.

Definition makeDataExportFile `{Imports} (docDef : DocumentTypeDef)
    (documentIds : list string) (assertStatement : string) : Defect + string :=
  let dataVariableName := getDataVariableName docDef in
  if isSingleton docDef then
    match idToFileName_opt (documentIds !! 0%nat) with
    | inl thrown => inl thrown
    | inr fileName =>
        inr ("// " +:+ autogeneratedNote +:+ nl
             +:+ "export { default as " +:+ dataVariableName
             +:+ " } from './" +:+ fileName +:+ ".json'" +:+ assertStatement
             +:+ nl)
    end
  else
    let idToVariableNameMap :=
      JsMap.of_entries (variableNamePairs docDef ∅ 0 documentIds) in
    let docImports :=
      Js.join nl
        (List.map (fun id =>
                     "import " +:+ interpolate (JsMap.get id idToVariableNameMap)
                     +:+ " from './" +:+ idToFileName id +:+ ".json'"
                     +:+ assertStatement)
                  documentIds) in
    inr ("// " +:+ autogeneratedNote +:+ nl
         +:+ nl
         +:+ docImports +:+ nl
         +:+ nl
         +:+ "export const " +:+ dataVariableName +:+ " = ["
         +:+ Js.join ", " (JsMap.values idToVariableNameMap) +:+ "]" +:+ nl).

(** The object [packageJson] of [makePackageJson]. *)
Definition packageJson (schemaHash : string) : JsVal :=
  JObj [ ("name", JStr "dot-contentlayer");
         ("description", JStr "This package is auto-generated by Contentlayer");
         ("version", JStr ("0.0.0-" +:+ schemaHash));
         ("exports",
           JObj [("./generated", JObj [("import", JStr "./generated/index.mjs")])]);
         ("typesVersions",
           JObj [("*", JObj [("generated", JArr [JStr "./generated"])])]) ].

Definition makePackageJson (schemaHash : string) : string :=
  Json.serialize 0 (packageJson schemaHash).

(** [Object.values(schemaDef.documentTypeDefMap)]. *)
Definition documentDefs (schemaDef : SchemaDef) : list DocumentTypeDef :=
  List.map snd (documentTypeDefMap schemaDef).

Definition makeIndexMjs `{Imports} (schemaDef : SchemaDef)
    (assertStatement : string) (bundleFilePath : string)
    (options : PluginOptions) (isDev : bool) : string :=
  let dataVariableNames :=
    List.map (fun docDef => (isSingleton docDef, name docDef,
                             getDataVariableName docDef))
             (documentDefs schemaDef) in
  let constExports :=
    "export { " +:+ Js.join ", " (List.map snd dataVariableNames) +:+ " }" in
  let constImportsForAllDocuments :=
    Js.join nl
      (List.map (fun '(_, documentDefName, dataVariableName) =>
                   if isDev
                   then "import { " +:+ dataVariableName +:+ " } from './"
                        +:+ documentDefName +:+ "/_index.mjs'"
                   else "import " +:+ dataVariableName +:+ " from './"
                        +:+ documentDefName +:+ "/_index.json'"
                        +:+ assertStatement)
                dataVariableNames) in
  let allDocuments :=
    Js.join ", "
      (List.map (fun '(single, _, dataVariableName) =>
                   if single : bool then dataVariableName
                   else "..." +:+ dataVariableName)
                dataVariableNames) in
  let fetchContentStr :=
    if negb (enableDynamicBuild (experimental options)) then ""
    else
    "export const fetchContent = async (sourceKey) => {
  const { Worker } = await import('node:worker_threads')
  const path = await import('node:path')

  // This is a worker-around (pun intended) for Next.js' limitation of still running via CJS.
  const workerFilePath = path.join(process.cwd(), '"
    +:+ bundleFilePath
    +:+ "')
  const worker = new Worker(workerFilePath, { workerData: { sourceKey } })

  return new Promise((resolve, reject) => {
    worker.on('message', (data) => { 
      if (data.result) {
        resolve(data.result)
      } else if (data.fatalError) {
        reject(data.fatalError)
      } else {
        reject(new Error('This should not happen'))
      }
    })
    worker.on('error', reject)
  }).finally(() => worker.terminate())
}
    " in
  "// "
    +:+ autogeneratedNote
    +:+ "

export { isType } from 'contentlayer/client'

// NOTE During development Contentlayer imports from `.mjs` files to improve HMR speeds.
// During (production) builds Contentlayer it imports from `.json` files to improve build performance.
"
    +:+ constImportsForAllDocuments
    +:+ "

"
    +:+ constExports
    +:+ "

export const allDocuments = ["
    +:+ allDocuments
    +:+ "]

"
    +:+ fetchContentStr
    +:+ "
".

Definition makeDataTypes `{Imports} (schemaDef : SchemaDef)
    (options : PluginOptions) : string :=
  let dataConsts :=
    Js.join nl
      (List.map (fun docDef =>
                   "export declare const " +:+ getDataVariableName docDef
                   +:+ ": " +:+ name docDef
                   +:+ (if isSingleton docDef then "" else "[]"))
                (documentDefs schemaDef)) in
  let documentTypeNames := Js.join ", " (List.map name (documentDefs schemaDef)) in
  let fetchContentStr :=
    if negb (enableDynamicBuild (experimental options)) then ""
    else
    "export type FetchContentResult = 
  | { _tag: 'Error', error: SourceProvideSchemaErrorJSON | SourceFetchDataErrorJSON }
  | { _tag: 'Data', data: DataExports }

export declare const fetchContent: (sourceKey?: string) => Promise<FetchContentResult>
    " in
  "// "
    +:+ autogeneratedNote
    +:+ "

import { "
    +:+ documentTypeNames
    +:+ ", DocumentTypes, DataExports } from './types'
import { SourceProvideSchemaErrorJSON, SourceFetchDataErrorJSON } from 'contentlayer/core'

export * from './types'

"
    +:+ dataConsts
    +:+ "

export declare const allDocuments: DocumentTypes[]

"
    +:+ fetchContentStr
    +:+ "
".

(* ===================================================================== *)
(** * 6. Effects: the file system, fibers and parallel batches *)
(* ===================================================================== *)

(** The typed failures, [GenerateDotpkgError]. *)
Inductive GenerateDotpkgError : Type :=
  | WriteFileError (filePath : string)
  | JsonStringifyError (filePath : string)
  | MkdirError (dirPath : string)
  | RmError (filePath : string)
  | SourceProvideSchemaError (error : string)
  | SourceFetchDataError (error : string)
  | EsbuildError
  | GetContentlayerVersionError
  | SuccessCallbackError (error : JsVal).

(** [E.Either<GenerateDotpkgError, A>]: [inl] is [Left], [inr] is [Right]. *)
Definition GenerationErrorOr (A : Type) : Type := (GenerateDotpkgError + A)%type.

(** The calls that leave this module: each is an asynchronous boundary, and
    each is recorded in the trace of the world when it is made. *)
Inductive Event : Type :=
  | Mkdirp (dirPath : string)
  | Rm (filePath : string)
  | WriteFile (filePath content : string)
  | WriteFileJson (filePath : string)
  | GetContentlayerVersion
  | EsbuildOnce (contents resolveDir outfile : string)
  | OnSuccess (modulePath : string).

(** What the process is run with. *)
Record Env : Type := {
  cwd : string;
  (** [process.versions.node], major and minor. *)
  nodeVersionMajor : nat;
  nodeVersionMinor : nat;
  (** [process.env['CL_DEBUG']] is set. *)
  CL_DEBUG : bool;
  (** What [getContentlayerVersion()] gives when it succeeds. *)
  contentlayerVersion : string;
}.

(** The world a generation runs in. [files] are the regular files written
    through [fs.writeFile]; [writtenFilesCache] is the one object that
    [generateDotpkgStream] allocates and every [writeFile] shares; [trace]
    lists the calls made so far, oldest first; [fails n ev] tells whether
    the call [ev], made as the [n]-th call of the trace, fails. *)
Record World : Type := {
  files : gmap string string;
  writtenFilesCache : gmap string string;
  trace : list Event;
  fails : nat → Event → bool;
}.

Definition set_files (f : gmap string string) (w : World) : World :=
  {| files := f; writtenFilesCache := writtenFilesCache w;
     trace := trace w; fails := fails w |}.
Definition set_writtenFilesCache (c : gmap string string) (w : World) : World :=
  {| files := files w; writtenFilesCache := c;
     trace := trace w; fails := fails w |}.
Definition record (ev : Event) (w : World) : World :=
  {| files := files w; writtenFilesCache := writtenFilesCache w;
     trace := trace w ++ [ev]; fails := fails w |}.

(** [Exit] of an effect [T.Effect<R, E, A>]: a value, a typed failure, or a
    defect. *)
Inductive Exit (E A : Type) : Type :=
  | Success (a : A)
  | Failure (e : E)
  | Died (d : Defect).
Arguments Success {E A} a.
Arguments Failure {E A} e.
Arguments Died {E A} d.

(** The typed failure a failing call gives. The promise of [onSuccess] is
    not decided here, see [successCallback]. *)
Definition error_of (ev : Event) : GenerateDotpkgError :=
  match ev with
  | Mkdirp p => MkdirError p
  | Rm p => RmError p
  | WriteFile p _ => WriteFileError p
  | WriteFileJson p => JsonStringifyError p
  | GetContentlayerVersion => GetContentlayerVersionError
  | EsbuildOnce _ _ _ => EsbuildError
  | OnSuccess _ => SuccessCallbackError JNull
  end.

(** Modelled from the spec: the file system [fs] of [@contentlayer/utils]
    is not in the source tree. Each of its operations can fail on its own,
    with an error of its own kind; [fs.rm(filePath, { force: true })]
    removes the file and does not mind a missing one;
    [fs.writeFile(filePath, content)] replaces the whole content. The
    value given back is a string, empty for the calls that give nothing
    back. *)
Definition perform (env : Env) (ev : Event) (w : World)
    : Exit GenerateDotpkgError string * World :=
  let w1 := record ev w in
  if fails w (length (trace w)) ev then (Failure (error_of ev), w1)
  else
    match ev with
    | Rm p => (Success "", set_files (delete p (files w)) w1)
    | WriteFile p c => (Success "", set_files (<[p := c]> (files w)) w1)
    | GetContentlayerVersion => (Success (contentlayerVersion env), w1)
    | _ => (Success "", w1)
    end.

(** A fiber: the body of a [T.gen] block, cut at its asynchronous calls.
    Reads and writes of the written-files cache are synchronous. *)
Inductive Eff (A : Type) : Type :=
  | Ret (a : A)
  | Fail (e : GenerateDotpkgError)
  | Die (d : Defect)
  | CacheGet (filePath : string) (k : option string → Eff A)
  | CachePut (filePath documentHash : string) (k : Eff A)
  | Call (ev : Event) (k : string → Eff A).
Arguments Ret {A} a.
Arguments Fail {A} e.
Arguments Die {A} d.
Arguments CacheGet {A} filePath k.
Arguments CachePut {A} filePath documentHash k.
Arguments Call {A} ev k.

Fixpoint bind {A B : Type} (m : Eff A) (f : A → Eff B) : Eff B :=
  match m with
  | Ret a => f a
  | Fail e => Fail e
  | Die d => Die d
  | CacheGet p k => CacheGet p (fun v => bind (k v) f)
  | CachePut p h k => CachePut p h (bind k f)
  | Call ev k => Call ev (fun r => bind (k r) f)
  end.

Global Instance Eff_ret : MRet Eff := @Ret.
Global Instance Eff_bind : MBind Eff := fun A B f m => bind m f.

Definition call (ev : Event) : Eff string := Call ev Ret.
Definition call_ (ev : Event) : Eff unit := Call ev (fun _ => Ret tt).

(** The synchronous part of a fiber, up to its next call. *)
Fixpoint run_sync {A : Type} (e : Eff A) (w : World) : Eff A * World :=
  match e with
  | CacheGet p k => run_sync (k (writtenFilesCache w !! p)) w
  | CachePut p h k =>
      run_sync k (set_writtenFilesCache (<[p := h]> (writtenFilesCache w)) w)
  | _ => (e, w)
  end.

(** One turn of a fiber that waits at a call: the call is made and the
    fiber runs on up to its next call. *)
Definition step {A : Type} (env : Env) (e : Eff A) (w : World) : Eff A * World :=
  match e with
  | Call ev k =>
      match perform env ev w with
      | (Success r, w') => run_sync (k r) w'
      | (Failure err, w') => (Fail err, w')
      | (Died d, w') => (Die d, w')
      end
  | _ => run_sync e w
  end.

(** A fiber run alone, to its end. *)
Fixpoint run {A : Type} (env : Env) (e : Eff A) (w : World)
    : Exit GenerateDotpkgError A * World :=
  match e with
  | Ret a => (Success a, w)
  | Fail err => (Failure err, w)
  | Die d => (Died d, w)
  | CacheGet p k => run env (k (writtenFilesCache w !! p)) w
  | CachePut p h k =>
      run env k (set_writtenFilesCache (<[p := h]> (writtenFilesCache w)) w)
  | Call ev k =>
      match perform env ev w with
      | (Success r, w') => run env (k r) w'
      | (Failure err, w') => (Failure err, w')
      | (Died d, w') => (Died d, w')
      end
  end.

(** ** Parallel batches

    [T.tuplePar], [T.collectAllPar] and [T.forEachPar_] fork one fiber per
    member and fail as soon as one member fails, the others being
    interrupted. Forking runs every fiber up to its first call, in order.
    After that the fibers take turns: a schedule names, turn by turn, the
    fiber that goes on; when the schedule is used up the fibers that are
    left are run to their end from left to right. Every schedule is a run
    the batch can make. A call is recorded in the trace at the turn at
    which it settles. *)
Fixpoint fork (fibers : list (Eff unit)) (w : World) : list (Eff unit) * World :=
  match fibers with
  | [] => ([], w)
  | e :: rest =>
      let '(e', w') := run_sync e w in
      let '(rest', w'') := fork rest w' in
      (e' :: rest', w'')
  end.

Fixpoint run_all (env : Env) (fibers : list (Eff unit)) (w : World)
    : Exit GenerateDotpkgError unit * World :=
  match fibers with
  | [] => (Success tt, w)
  | e :: rest =>
      match run env e w with
      | (Success _, w') => run_all env rest w'
      | failed => failed
      end
  end.

(** The first fiber that has failed or died, if any. *)
Fixpoint first_failed (fibers : list (Eff unit))
    : option (Exit GenerateDotpkgError unit) :=
  match fibers with
  | [] => None
  | Fail err :: _ => Some (Failure err)
  | Die d :: _ => Some (Died d)
  | _ :: rest => first_failed rest
  end.

Fixpoint par_loop (env : Env) (schedule : list nat) (fibers : list (Eff unit))
    (w : World) : Exit GenerateDotpkgError unit * World :=
  match schedule with
  | [] => run_all env fibers w
  | i :: schedule' =>
      match fibers !! i with
      | None => par_loop env schedule' fibers w
      | Some e =>
          let '(e', w') := step env e w in
          match e' with
          | Fail err => (Failure err, w')
          | Die d => (Died d, w')
          | _ => par_loop env schedule' (<[i := e']> fibers) w'
          end
      end
  end.

Definition par (env : Env) (schedule : list nat) (fibers : list (Eff unit))
    (w : World) : Exit GenerateDotpkgError unit * World :=
  let '(forked, w') := fork fibers w in
  match first_failed forked with
  | Some failed => (failed, w')
  | None => par_loop env schedule forked w'
  end.

(* ===================================================================== *)
(** * 7. The artifact writer *)
(* ===================================================================== *)

(** The argument object of the function [writeFileWithWrittenFilesCache]
    returns; [None] is a property left out. *)
Module Args.
Record t : Type := {
  filePath : string;
  content : string;
  documentHash : option string;
  rmBeforeWrite : option bool;
}.
End Args.

Definition args_of (filePath content : string) (documentHash : option string)
    (rmBeforeWrite : option bool) : Args.t :=
  {| Args.filePath := filePath; Args.content := content;
     Args.documentHash := documentHash; Args.rmBeforeWrite := rmBeforeWrite |}.

(** The truth value of a string, as [if (documentHash)] takes it: every
    string but the empty one. *)
Definition truthy (str : string) : bool := negb (String.eqb str "").

(** [writeFileWithWrittenFilesCache({ writtenFilesCache })(args)]; the
    cache object is the one of the world. A file path is an absolute path,
    so [writtenFilesCache[filePath]] is an own property of the object or
    [undefined]. *)
Definition writeFileWithWrittenFilesCache (args : Args.t) : Eff unit :=
  let filePath := Args.filePath args in
  let content := Args.content args in
  let documentHash := Args.documentHash args in
  (* the default value of the parameter, [rmBeforeWrite = true] *)
  let rmBeforeWrite := default true (Args.rmBeforeWrite args) in
  fileIsUpToDate ←
    match documentHash with
    | None => Ret false
    | Some h =>
        CacheGet filePath (fun cached => Ret (bool_decide (cached = Some h)))
    end;
  if negb rmBeforeWrite && fileIsUpToDate then Ret tt
  else
    (if rmBeforeWrite then call_ (Rm filePath) else Ret tt);;
    call_ (WriteFile filePath content);;
    match documentHash with
    | Some h => if truthy h then CachePut filePath h (Ret tt) else Ret tt
    | None => Ret tt (* [undefined] is falsy *)
    end.

(** The configuration, [Config] of [../getConfig/index.js]. What the two
    collaborators of the source plugin do is given by their outcome:
    [provideSchema] by the schema or the failure it ends with, [fetchData]
    by the chunks its stream emits, each emission a cache or a failure. *)
Module Source.
Record t : Type := {
  type : string;
  options : PluginOptions;
  provideSchema : string → GenerationErrorOr SchemaDef;
  fetchData : SchemaDef → bool → list (list (GenerationErrorOr Cache));
}.
End Source.

Record Config : Type := {
  source : Source.t;
  esbuildHash : string;
  filePath : string;
}.

Definition makeFetchContentWorker (env : Env) (config : Config)
    (bundleFilePath : string) : Eff unit :=
  contentlayerVersion ← call GetContentlayerVersion;
  let cwd := cwd env in
  let scriptContent :=
    "import 'source-map-support/register'

import { workerData, parentPort } from 'node:worker_threads'
import { dynamicBuildMain } from '@contentlayer/core'
import sourcePromise from '"
      +:+ filePath config
      +:+ "'

const main = async () => {
  const source = await sourcePromise(workerData.sourceKey)

  const config = {
    source,
    esbuildHash: '"
      +:+ esbuildHash config
      +:+ "',
    filePath: '"
      +:+ filePath config
      +:+ "',
  }

  const runtimeDeps = {
    contentlayerVersion: '"
      +:+ contentlayerVersion
      +:+ "',
    cwd: '"
      +:+ cwd
      +:+ "',
  }

  try {
    const dataExports = await dynamicBuildMain({ config, verbose: true, runtimeDeps })
    parentPort.postMessage({ result: dataExports })
  } catch (err) {
    parentPort.postMessage({ fatalError: err })
    throw err
  }
}

main().catch((err) => {
  console.error('Error in Contentlayer worker thread')
  console.error(err)
})

" in
  (* the warnings of the bundler go to the console only *)
  call_ (EsbuildOnce scriptContent cwd bundleFilePath).

(** An artifact as the synthesis makes it, before it is handed to
    [writeFile]. [content] is [None] when [JSON.stringify] gave
    [undefined]; [documentHash] is [None] when the object has no such
    property. *)
Module Artifact.
Record t : Type := {
  content : option string;
  filePath : string;
  documentHash : option string;
}.
End Artifact.

(** [needsJsonAssertStatement] and [assertStatement]. *)
Definition assertStatement (env : Env) : string :=
  let needsJsonAssertStatement :=
    (16 <? nodeVersionMajor env)%nat
    || ((nodeVersionMajor env =? 16)%nat && (14 <=? nodeVersionMinor env)%nat) in
  if needsJsonAssertStatement then " with { type: 'json' }" else "".

Definition allCacheItems (cache : Cache) : list CacheItem :=
  List.map snd (cacheItemsMap cache).

Definition allDocuments (cache : Cache) : list Document :=
  List.map document (allCacheItems cache).

(** [allDocuments.filter((_) => _[typeNameField] === docDef.name)]. *)
Definition documentsOfType (typeNameField : string) (cache : Cache)
    (docDef : DocumentTypeDef) : list Document :=
  List.filter (has_type typeNameField (name docDef)) (allDocuments cache).

(** [xs.map(f)] for an [f] that may throw: the first throw ends the map. *)
Fixpoint map_throwing {A B : Type} (f : A → Defect + B) (xs : list A)
    : Defect + list B :=
  match xs with
  | [] => inr []
  | x :: rest =>
      match f x with
      | inl thrown => inl thrown
      | inr y =>
          match map_throwing f rest with
          | inl thrown => inl thrown
          | inr ys => inr (y :: ys)
          end
      end
  end.

Section Synthesis.
Context `{Imports}.
Variable env : Env.
Variable targetPath : string.
Variable typeNameField : string.
Variable schemaDef : SchemaDef.
Variable cache : Cache.

Definition withPrefix (path_ : list string) : string :=
  filePathJoin (targetPath :: path_).

Definition dataBarrelFile (docDef : DocumentTypeDef) : Defect + Artifact.t :=
  match makeDataExportFile docDef
          (List.map _id (documentsOfType typeNameField cache docDef))
          (assertStatement env) with
  | inl thrown => inl thrown
  | inr text =>
      inr {| Artifact.content := Some text;
             Artifact.filePath := withPrefix ["generated"; name docDef; "_index.mjs"];
             Artifact.documentHash := None |}
  end.

Definition dataBarrelFiles : Defect + list Artifact.t :=
  map_throwing dataBarrelFile (documentDefs schemaDef).

(** [document[typeNameField]] is a path segment here: [filePathJoin]
    joins strings, anything else makes it throw. *)
Definition individualDataJsonFile (item : CacheItem) : Defect + Artifact.t :=
  match prop (document item) typeNameField with
  | Some (JStr typeName) =>
      inr {| Artifact.content := Json.stringify (Some (JObj (fields (document item))));
             Artifact.filePath :=
               withPrefix ["generated"; typeName;
                           idToFileName (_id (document item)) +:+ ".json"];
             Artifact.documentHash := Some (documentHash item) |}
  | _ => inl (TypeError "The path argument must be of type string")
  end.

Definition individualDataJsonFiles : Defect + list Artifact.t :=
  map_throwing individualDataJsonFile (allCacheItems cache).

Definition collectionDataJsonFile (documentDef : DocumentTypeDef) : Artifact.t :=
  let documents := documentsOfType typeNameField cache documentDef in
  let jsonData :=
    if isSingleton documentDef
    then (fun d => JObj (fields d)) <$> documents !! 0%nat
    else Some (JArr (List.map (fun d => JObj (fields d)) documents)) in
  {| Artifact.content := Json.stringify jsonData;
     Artifact.filePath := withPrefix ["generated"; name documentDef; "_index.json"];
     Artifact.documentHash :=
       Some (Js.join ""
               (List.map (fun d => join_element (prop d "documentHash"))
                         documents)) |}.

Definition collectionDataJsonFiles : list Artifact.t :=
  List.map collectionDataJsonFile (documentDefs schemaDef).

Definition dataDirPaths : list string :=
  List.map (fun d => withPrefix ["generated"; name d]) (documentDefs schemaDef).

End Synthesis.

(** [writeFile(artifact)] for an artifact of one of the three mapped lists:
    the object has no [rmBeforeWrite]. A content that is [undefined] is
    not a thing [fs.writeFile] takes. *)
Definition writeArtifact (a : Artifact.t) : Eff unit :=
  match Artifact.content a with
  | Some text =>
      writeFileWithWrittenFilesCache
        {| Args.filePath := Artifact.filePath a; Args.content := text;
           Args.documentHash := Artifact.documentHash a; Args.rmBeforeWrite := None |}
  | None =>
      Die (TypeError "The data argument must be of type string")
  end.

(** The turns the scheduler gives in the three parallel batches of
    [writeFilesForCache]. *)
Record Schedules : Type := {
  debugSchedule : list nat;
  mkdirSchedule : list nat;
  writeSchedule : list nat;
}.

Definition sequential : Schedules :=
  {| debugSchedule := []; mkdirSchedule := []; writeSchedule := [] |}.

(** An effect that runs in the world. *)
Definition Task (E A : Type) : Type := World → Exit E A * World.

Definition andThen {E A B : Type} (m : Task E A) (f : A → Task E B) : Task E B :=
  fun w =>
    match m w with
    | (Success a, w') => f a w'
    | (Failure e, w') => (Failure e, w')
    | (Died d, w') => (Died d, w')
    end.

(** [T.either]: the typed failure becomes a value. *)
Definition either {E A : Type} (m : Task E A) : Task Empty_set (E + A) :=
  fun w =>
    match m w with
    | (Success a, w') => (Success (inr a), w')
    | (Failure e, w') => (Success (inl e), w')
    | (Died d, w') => (Died d, w')
    end.

(** A thrown exception inside [T.gen]. *)
Definition throwing {A : Type} (r : Defect + A) : Task GenerateDotpkgError A :=
  fun w =>
    match r with
    | inl thrown => (Died thrown, w)
    | inr a => (Success a, w)
    end.

(** The members of the batch [T.tuplePar(...)] of [writeFilesForCache], in
    the order of the source. *)
Definition writeBatch `{Imports} (env : Env) (config : Config)
    (schemaDef : SchemaDef) (targetPath : string)
    (generationOptions : GenerationOptions) (isDev : bool)
    (barrels individuals collections : list Artifact.t) : list (Eff unit) :=
  let writeFile := writeFileWithWrittenFilesCache in
  let bundleFilePath :=
    withPrefix targetPath ["generated"; "dynamic-build-worker.mjs"] in
  let relativeBundleFilePath := relative (cwd env) bundleFilePath in
  let options := Source.options (source config) in
  [ writeFile {| Args.filePath := withPrefix targetPath ["package.json"];
                 Args.content := makePackageJson (hash schemaDef);
                 Args.documentHash := None; Args.rmBeforeWrite := None |};
    writeFile {| Args.filePath := withPrefix targetPath ["generated"; "types.d.ts"];
                 Args.content := renderTypes schemaDef generationOptions;
                 Args.documentHash := None; Args.rmBeforeWrite := Some true |};
    writeFile {| Args.filePath := withPrefix targetPath ["generated"; "index.d.ts"];
                 Args.content := makeDataTypes schemaDef options;
                 Args.documentHash := None; Args.rmBeforeWrite := Some true |};
    writeFile {| Args.filePath := withPrefix targetPath ["generated"; "index.mjs"];
                 Args.content :=
                   makeIndexMjs schemaDef (assertStatement env)
                                relativeBundleFilePath options isDev;
                 Args.documentHash := None; Args.rmBeforeWrite := None |} ]
  ++ List.map writeArtifact barrels
  ++ List.map writeArtifact individuals
  ++ List.map writeArtifact collections
  ++ [ if enableDynamicBuild (experimental options)
       then makeFetchContentWorker env config bundleFilePath
       else Ret tt ].

(** The block under [if (process.env['CL_DEBUG'])]: the schema and the
    cache are written as they are, whatever the written-files cache says. *)
Definition debugSnapshot (env : Env) (schedules : Schedules)
    (targetPath : string) : Task GenerateDotpkgError unit :=
  andThen (run env (call_ (Mkdirp (withPrefix targetPath [".cache"]))))
    (fun _ =>
       par env (debugSchedule schedules)
         [ call_ (WriteFileJson (withPrefix targetPath [".cache"; "schema.json"]));
           call_ (WriteFileJson (withPrefix targetPath [".cache"; "data-cache.json"])) ]).

Definition writeFilesForCache `{Imports} (env : Env) (schedules : Schedules)
    (config : Config) (cache : Cache) (schemaDef : SchemaDef)
    (targetPath : string) (generationOptions : GenerationOptions)
    (isDev : bool) : Task Empty_set (GenerationErrorOr unit) :=
  either (
    andThen
      (if CL_DEBUG env then debugSnapshot env schedules targetPath
       else fun w => (Success tt, w)) (fun _ =>
    let typeNameField := typeFieldName (fieldOptions (options generationOptions)) in
    andThen (throwing (dataBarrelFiles env targetPath typeNameField schemaDef cache))
      (fun barrels =>
    andThen (throwing (individualDataJsonFiles targetPath typeNameField cache))
      (fun individuals =>
    let collections := collectionDataJsonFiles targetPath typeNameField schemaDef cache in
    andThen
      (par env (mkdirSchedule schedules)
         (List.map (fun dir => call_ (Mkdirp dir))
                   (withPrefix targetPath ["generated"]
                      :: dataDirPaths targetPath schemaDef)))
      (fun _ =>
    par env (writeSchedule schedules)
      (writeBatch env config schemaDef targetPath generationOptions isDev
                  barrels individuals collections)))))).

(* ===================================================================== *)
(** * 8. The generation pipeline *)
(* ===================================================================== *)

Record GenerateInfo : Type := {
  documentCount : nat;
}.

Definition successCallback `{Imports} (env : Env)
    (onSuccess : option SuccessCallback) : Task GenerateDotpkgError unit :=
  match onSuccess with
  | None => fun w => (Success tt, w)
  | Some callback =>
      fun w =>
        let generatedPkgPath := getDirPath (cwd env) in
        let modulePath :=
          filePathJoin [generatedPkgPath; "generated"; "index.mjs"] in
        let w' := record (OnSuccess modulePath) w in
        (* T.tryCatchPromise(() => onSuccess(...), (error) => ...) *)
        match callback modulePath with
        | Resolves => (Success tt, w')
        | Rejects error => (Failure (SuccessCallbackError error), w')
        | Throws thrown => (Died thrown, w')
        end
  end.

(** ** The two stages *)

(** What [S.mapEffectEitherRight] makes of the function it is given: a
    [Left] is handed on as it is, a [Right] is mapped. *)
Definition eitherRight {E A B : Type} (mapRight : A → Task Empty_set (E + B))
    (element : E + A) : Task Empty_set (E + B) :=
  match element with
  | inl error => fun w => (Success (inl error), w)
  | inr a => mapRight a
  end.

(** The function of the first stage (l.104-109): [writeFilesForCache], and
    then the document count in the place of its [Right]. *)
Definition writeStage `{Imports} (env : Env) (schedules : Schedules)
    (config : Config) (isDev : bool) (schemaDef : SchemaDef)
    (targetPath : string) (cache : Cache)
    : Task Empty_set (GenerationErrorOr GenerateInfo) :=
  let generationOptions :=
    {| sourcePluginType := Source.type (source config);
       options := Source.options (source config) |} in
  andThen
    (writeFilesForCache env schedules config cache schemaDef targetPath
                        generationOptions isDev)
    (fun written w =>
       (* T.eitherMap(() => ({ documentCount: ... })) *)
       (Success
          (match written with
           | inl error => inl error
           | inr _ => inr {| documentCount := length (cacheItemsMap cache) |}
           end), w)).

(** The function of the second stage (l.110-119): the success callback,
    and then [T.fold]. [generateInfo] is the element the stage is given,
    an [Either]. *)
Definition callbackStage `{Imports} (env : Env) (config : Config)
    (generateInfo : GenerationErrorOr GenerateInfo)
    : Task Empty_set (GenerationErrorOr GenerateInfo) :=
  fun w =>
    match successCallback env (onSuccess (Source.options (source config))) w with
    | (Success _, w') => (Success generateInfo, w')
    | (Failure error, w') => (Success (inl error), w')
    | (Died d, w') => (Died d, w')
    end.

(** What the two stages of [generateDotpkgStream] do with one emission of
    [fetchData] that makes a chunk of its own. The operators of
    [@contentlayer/utils/effect] are not in the source tree and are taken
    by their names and types: [S.mapEffectEitherRight] runs
    [writeFilesForCache] on a [Right] and hands a [Left] on; [S.mapEffect],
    which knows nothing of [Either], then runs the success callback on
    whatever element it is given. *)
Definition cycle `{Imports} (env : Env) (schedules : Schedules)
    (config : Config) (isDev : bool) (schemaDef : SchemaDef)
    (targetPath : string) (emission : GenerationErrorOr Cache)
    : Task Empty_set (GenerationErrorOr GenerateInfo) :=
  andThen
    (* S.mapEffectEitherRight((cache) => ...) *)
    (eitherRight (writeStage env schedules config isDev schemaDef targetPath)
                 emission)
    (* S.mapEffect((generateInfo) => ...) *)
    (callbackStage env config).

(** ** Streams *)

(** [T.forEach]: an effect for every element of a chunk, one after the
    other; a defect ends it, and what was mapped before is lost with it. *)
Fixpoint forEach {A B : Type} (f : A → Task Empty_set B) (chunk : list A)
    : Task Empty_set (list B) :=
  match chunk with
  | [] => fun w => (Success [], w)
  | a :: rest =>
      andThen (f a) (fun b =>
      andThen (forEach f rest) (fun mapped w => (Success (b :: mapped), w)))
  end.

(** What a stream [S.Stream<R, never, A>] has done when it is run over a
    finite number of chunks: the elements it has emitted, and the defect
    that ended it, if one did. Its error type [never] leaves no third way. *)
Record StreamRun (A : Type) : Type := {
  emitted : list A;
  died : option Defect;
}.
Arguments emitted {A} _.
Arguments died {A} _.

Definition emit {A : Type} (chunk : list A) (rest : StreamRun A * World)
    : StreamRun A * World :=
  ({| emitted := chunk ++ emitted (fst rest); died := died (fst rest) |},
   snd rest).

(** Modelled from the spec: the stream [S] of [@contentlayer/utils/effect]
    is not in the source tree. A stream is pulled by its consumer and gives
    its elements in chunks; between two chunks it runs effects. It is
    [Done], or it emits a chunk and goes on, or it runs an effect and goes
    on with what the effect gives; a defect of the effect ends it. The
    operators are the ones [generate-dotpkg.ts] uses, under their names. An
    operator that maps the elements with an effect works a chunk off as a
    whole: the effect is run for every element of the chunk, one after the
    other, and then the mapped chunk is emitted, so that a defect loses the
    elements of the chunk that were mapped before it. *)
Module S.

Inductive t (A : Type) : Type :=
  | Done
  | Emit (chunk : list A) (rest : t A)
  | Effect {B : Type} (task : Task Empty_set B) (k : B → t A).
Arguments Done {A}.
Arguments Emit {A} chunk rest.
Arguments Effect {A B} task k.

(** [S.fromEffect]: the value of an effect, as the one element. *)
Definition fromEffect {A : Type} (task : Task Empty_set A) : t A :=
  Effect task (fun a => Emit [a] Done).

(** A stream that has no effects of its own, by the chunks it emits. *)
Definition fromChunks {A : Type} (chunks : list (list A)) : t A :=
  foldr Emit Done chunks.

Fixpoint append {A : Type} (s1 s2 : t A) : t A :=
  match s1 with
  | Done => s2
  | Emit chunk rest => Emit chunk (append rest s2)
  | Effect task k => Effect task (fun b => append (k b) s2)
  end.

Fixpoint map {A B : Type} (f : A → B) (s : t A) : t B :=
  match s with
  | Done => Done
  | Emit chunk rest => Emit (List.map f chunk) (map f rest)
  | Effect task k => Effect task (fun b => map f (k b))
  end.

(** [S.chain]: the streams of the elements, one after the other. *)
Fixpoint chain {A B : Type} (f : A → t B) (s : t A) : t B :=
  match s with
  | Done => Done
  | Emit chunk rest => foldr (fun a following => append (f a) following)
                             (chain f rest) chunk
  | Effect task k => Effect task (fun b => chain f (k b))
  end.

(** [S.mapEffect]. *)
Fixpoint mapEffect {A B : Type} (f : A → Task Empty_set B) (s : t A) : t B :=
  match s with
  | Done => Done
  | Emit chunk rest =>
      Effect (forEach f chunk) (fun mapped => Emit mapped (mapEffect f rest))
  | Effect task k => Effect task (fun b => mapEffect f (k b))
  end.

(** [S.mapEffectEitherRight]. *)
Definition mapEffectEitherRight {E A B : Type}
    (mapRight : A → Task Empty_set (E + B)) : t (E + A) → t (E + B) :=
  mapEffect (eitherRight mapRight).

(** [S.chainMapEitherRight]. For a [Right] the stream goes on with the
    stream [mapRight] makes of it. For a [Left] it goes on with the stream
    it was given itself, run once more from its start, and the elements of
    that second run are handed on as they are, typed as elements of the
    mapped stream by a cast: a [Right] among them is [inr (inl _)] here, a
    [Right] of a mapped stream [inr (inr _)]. *)
Definition chainMapEitherRight {E A1 A2 : Type} (mapRight : A1 → t (E + A2))
    (stream : t (E + A1)) : t (E + (A1 + A2)) :=
  chain (fun element =>
           match element with
           | inl _ => map (sum_map id inl) stream
           | inr a => map (sum_map id inr) (mapRight a)
           end)
        stream.

(** [S.take]: the first [n] elements; when it has them the stream is
    pulled no more. *)
Fixpoint take {A : Type} (n : nat) (s : t A) : t A :=
  match n, s with
  | 0, _ => Done
  | _, Done => Done
  | _, Emit chunk rest => Emit (firstn n chunk) (take (n - length chunk) rest)
  | _, Effect task k => Effect task (fun b => take n (k b))
  end.

(** The stream run to its end. *)
Fixpoint run {A : Type} (s : t A) (w : World) : StreamRun A * World :=
  match s with
  | Done => ({| emitted := []; died := None |}, w)
  | Emit chunk rest => emit chunk (run rest w)
  | Effect task k =>
      match task w with
      | (Success b, w') => run (k b) w'
      | (Failure impossible, _) => match impossible with end
      | (Died d, w') => ({| emitted := []; died := Some d |}, w')
      end
  end.

(** [S.runCollect]: the elements of a stream that has come to its end. *)
Definition runCollect {A : Type} (s : t A) : Task Empty_set (list A) :=
  fun w =>
    let '(stream, w') := run s w in
    match died stream with
    | None => (Success (emitted stream), w')
    | Some d => (Died d, w')
    end.

End S.

(** How the two members of [T.structPar] (l.88-91) settle. [provideSchema]
    is code of the source plugin: it may settle at once, before the
    directory is asked for, so that a failure of it ends the batch without
    a call of [mkdirp]; it may settle while [mkdirp] is under way, so that
    a failure of it is the failure of the batch whatever [mkdirp] comes
    to; or it may settle after [mkdirp], so that a failure of [mkdirp] is
    the failure of the batch. *)
Inductive Race : Type :=
  | SchemaAtOnce
  | SchemaFirst
  | DirectoryFirst.

(** [resolveParams]: the schema and the target directory, resolved side by
    side, and [T.either]. Modelled from the spec: [ArtifactsDir.mkdir] of
    [../ArtifactsDir.js] is not in the source tree; it makes the target
    directory with [mkdirp], the one [ArtifactsDir.getDirPath] names, and
    gives its path. The batch fails with the failure of the member that
    fails first. *)
Definition resolveParams `{Imports} (env : Env) (race : Race) (config : Config)
    : Task Empty_set (GenerationErrorOr (SchemaDef * string)) :=
  fun w =>
    let dirPath := getDirPath (cwd env) in
    match Source.provideSchema (source config) (esbuildHash config), race with
    | inl error, SchemaAtOnce => (Success (inl error), w)
    | schema, _ =>
        let '(made, w') := perform env (Mkdirp dirPath) w in
        match schema, made with
        | _, Died d => (Died d, w')
        | inl error, Failure error' =>
            (Success (inl match race with
                          | DirectoryFirst => error'
                          | _ => error
                          end), w')
        | inl error, Success _ => (Success (inl error), w')
        | inr _, Failure error' => (Success (inl error'), w')
        | inr schemaDef, Success _ => (Success (inr (schemaDef, dirPath)), w')
        end
    end.

(** [generateDotpkgStream]. [schedules w] are the turns of the batches of a
    [writeFilesForCache] that starts in the world [w], [races w] is how a
    [resolveParams] that starts there settles. A [Right] of what the stream
    emits is the [GenerateInfo] of a cycle, [inr (inr _)], or what
    [chainMapEitherRight] hands through, [inr (inl _)]. *)
Definition generateDotpkgStream `{Imports} (env : Env)
    (schedules : World → Schedules) (races : World → Race) (config : Config)
    (verbose : bool) (isDev : bool)
    : S.t (GenerationErrorOr (SchemaDef * string + GenerateInfo)) :=
  (* const writtenFilesCache = {} *)
  S.Effect (fun w => (Success tt, set_writtenFilesCache ∅ w)) (fun _ =>
  S.chainMapEitherRight
    (fun '(schemaDef, targetPath) =>
       S.mapEffect (callbackStage env config)
         (S.mapEffectEitherRight
            (fun cache w =>
               writeStage env (schedules w) config isDev schemaDef targetPath
                          cache w)
            (S.fromChunks (Source.fetchData (source config) schemaDef verbose))))
    (S.fromEffect (fun w => resolveParams env (races w) config w))).

(** [generateDotpkg]: [S.take(1)] on what [generateDotpkgStream] emits, the
    first element of what was collected, [T.rightOrFail]. A stream that
    ends without an element makes [Chunk.unsafeHead] throw. *)
Definition generateDotpkg `{Imports} (env : Env)
    (schedules : World → Schedules) (races : World → Race) (config : Config)
    (verbose : bool)
    : Task GenerateDotpkgError (SchemaDef * string + GenerateInfo) :=
  fun w =>
    match
      S.runCollect
        (S.take 1 (generateDotpkgStream env schedules races config verbose false))
        w
    with
    | (Success chunk, w') =>
        (* T.map(Chunk.unsafeHead), T.rightOrFail *)
        match chunk with
        | inr info :: _ => (Success info, w')
        | inl error :: _ => (Failure error, w')
        | [] => (Died (TypeError "Chunk.unsafeHead: empty chunk"), w')
        end
    | (Failure impossible, _) => match impossible with end
    | (Died d, w') => (Died d, w')
    end.

(* ===================================================================== *)
(** * 9. Observations on traces *)
(* ===================================================================== *)

(** The calls a task has added to the trace of [w]. *)
Definition events_since (w w' : World) : list Event :=
  drop (length (trace w)) (trace w').

Definition is_OnSuccess (ev : Event) : bool :=
  match ev with OnSuccess _ => true | _ => false end.

(** How often the success callback has been invoked. *)
Definition invocations (t : list Event) : nat :=
  length (List.filter is_OnSuccess t).

(** The calls of the directory batch (and of the debug snapshot before
    it), of the artifact writes, and of the bundling step. *)
Definition is_setup (ev : Event) : bool :=
  match ev with Mkdirp _ | WriteFileJson _ => true | _ => false end.
Definition is_write (ev : Event) : bool :=
  match ev with Rm _ | WriteFile _ _ => true | _ => false end.
Definition is_bundling (ev : Event) : bool :=
  match ev with GetContentlayerVersion | EsbuildOnce _ _ _ => true | _ => false end.

(** No call of the artifact writes comes after a call of the bundling
    step: the writes have settled when the bundling starts. *)
Fixpoint writes_settle_before_bundling (t : list Event) : bool :=
  match t with
  | [] => true
  | ev :: rest =>
      (if is_bundling ev then negb (existsb is_write rest) else true)
      && writes_settle_before_bundling rest
  end.

(** The paths at which a trace writes a file. *)
Definition written_paths (t : list Event) : list string :=
  omap (fun ev => match ev with WriteFile p _ => Some p | _ => None end) t.

(** The paths of a list of artifacts, or what was thrown making it. *)
Definition artifact_paths (r : Defect + list Artifact.t) : Defect + list string :=
  match r with
  | inl thrown => inl thrown
  | inr artifacts => inr (List.map Artifact.filePath artifacts)
  end.

(** An artifact whose content is a string. *)
Definition defined (a : Artifact.t) : Prop := is_Some (Artifact.content a).

(** Every call a fiber can make satisfies [P]. *)
Fixpoint calls {A : Type} (P : Event → Prop) (e : Eff A) : Prop :=
  match e with
  | Ret _ | Fail _ | Die _ => True
  | CacheGet _ k => ∀ v, calls P (k v)
  | CachePut _ _ k => calls P k
  | Call ev k => P ev ∧ ∀ r, calls P (k r)
  end.

(** A fiber that cannot die. *)
Fixpoint safe {A : Type} (e : Eff A) : Prop :=
  match e with
  | Die _ => False
  | Ret _ | Fail _ => True
  | CacheGet _ k => ∀ v, safe (k v)
  | CachePut _ _ k => safe k
  | Call _ k => ∀ r, safe (k r)
  end.

Definition alive {E A : Type} (exit : Exit E A) : Prop :=
  match exit with Died _ => False | _ => True end.

(** The trace of [w'] is the trace of [w] and then calls that satisfy [P]. *)
Definition grows (P : Event → Prop) (w w' : World) : Prop :=
  ∃ t, trace w' = trace w ++ t ∧ Forall P t.

Definition setup_event (ev : Event) : Prop := is_setup ev = true.
Definition batch_event (ev : Event) : Prop := is_write ev || is_bundling ev = true.

(** The trace of [w'] is the trace of [w], then calls of the set-up, then
    calls of the write batch. *)
Definition in_two_phases (w w' : World) : Prop :=
  ∃ setup batch,
    trace w' = trace w ++ setup ++ batch
    ∧ Forall setup_event setup ∧ Forall batch_event batch.

(** What the stream may emit for an emission of [fetchData]: for a failure
    that failure or the failure of the success callback, for a cache the
    number of its documents or a failure. *)
Definition outcome_of (emission : GenerationErrorOr Cache)
    (outcome : GenerationErrorOr GenerateInfo) : Prop :=
  match emission with
  | inl failure =>
      outcome = inl failure ∨ ∃ error, outcome = inl (SuccessCallbackError error)
  | inr cache =>
      outcome = inr {| documentCount := length (cacheItemsMap cache) |}
      ∨ ∃ error, outcome = inl error
  end.

(** The outcome of a cycle as an element of the stream. *)
Definition element (outcome : GenerationErrorOr GenerateInfo)
    : GenerationErrorOr (SchemaDef * string + GenerateInfo) :=
  sum_map id inr outcome.

(** The two stages of [generateDotpkgStream] over the chunks of
    [fetchData]. *)
Definition stages `{Imports} (env : Env) (schedules : World → Schedules)
    (config : Config) (isDev : bool) (schemaDef : SchemaDef)
    (targetPath : string) (chunks : list (list (GenerationErrorOr Cache)))
    : S.t (GenerationErrorOr GenerateInfo) :=
  S.mapEffect (callbackStage env config)
    (S.mapEffectEitherRight
       (fun cache w =>
          writeStage env (schedules w) config isDev schemaDef targetPath cache w)
       (S.fromChunks chunks)).

(** The first chunk that has an element. *)
Fixpoint firstChunk {A : Type} (chunks : list (list A)) : list A :=
  match chunks with
  | [] => []
  | [] :: rest => firstChunk rest
  | chunk :: _ => chunk
  end.

(** A callback that does not throw. *)
Definition settles (onSuccess : option SuccessCallback) : Prop :=
  ∀ callback path thrown, onSuccess = Some callback → callback path ≠ Throws thrown.

(** The synthesis of the artifacts of [cache] throws [d]. *)
Definition synthesis_throws `{Imports} (env : Env) (config : Config)
    (schemaDef : SchemaDef) (targetPath : string) (cache : Cache)
    (d : Defect) : Prop :=
  let typeNameField := typeFieldName (fieldOptions (Source.options (source config))) in
  dataBarrelFiles env targetPath typeNameField schemaDef cache = inl d
  ∨ individualDataJsonFiles targetPath typeNameField cache = inl d.

(** The [version] of a manifest object. *)
Definition version_of (manifest : JsVal) : option JsVal :=
  match manifest with
  | JObj props => Json.get "version" props
  | _ => None
  end.

(** The text of the manifest before and after the value of [version]. *)
Definition manifest_prefix : string :=
  "{" +:+ nl
  +:+ "  " +:+ Json.quote "name" +:+ ": " +:+ Json.quote "dot-contentlayer"
  +:+ "," +:+ nl
  +:+ "  " +:+ Json.quote "description" +:+ ": "
  +:+ Json.quote "This package is auto-generated by Contentlayer" +:+ "," +:+ nl
  +:+ "  " +:+ Json.quote "version" +:+ ": ".

Definition manifest_suffix : string :=
  "," +:+ nl
  +:+ "  " +:+ Json.quote "exports" +:+ ": {" +:+ nl
  +:+ "    " +:+ Json.quote "./generated" +:+ ": {" +:+ nl
  +:+ "      " +:+ Json.quote "import" +:+ ": "
  +:+ Json.quote "./generated/index.mjs" +:+ nl
  +:+ "    }" +:+ nl
  +:+ "  }," +:+ nl
  +:+ "  " +:+ Json.quote "typesVersions" +:+ ": {" +:+ nl
  +:+ "    " +:+ Json.quote "*" +:+ ": {" +:+ nl
  +:+ "      " +:+ Json.quote "generated" +:+ ": [" +:+ nl
  +:+ "        " +:+ Json.quote "./generated" +:+ nl
  +:+ "      ]" +:+ nl
  +:+ "    }" +:+ nl
  +:+ "  }" +:+ nl
  +:+ "}".

(** A string that [JSON.stringify] quotes as it is: no quote, no
    backslash, no control character. *)
Definition plain (s : string) : bool :=
  all_chars (fun c => (32 <=? Js.code c)%nat
                      && negb (Js.code c =? 34)%nat
                      && negb (Js.code c =? 92)%nat) s.

(** ** Further observations *)

(** No character of [s] is [c]. *)
Definition free_of (c : ascii) (s : string) : bool :=
  all_chars (fun d => negb (Ascii.eqb d c)) s.

(** Every call a fiber can make satisfies [P], and every entry it can put
    into the written-files cache satisfies [Q]. *)
Fixpoint acts {A : Type} (P : Event → Prop) (Q : string → string → Prop)
    (e : Eff A) : Prop :=
  match e with
  | Ret _ | Fail _ | Die _ => True
  | CacheGet _ k => ∀ v, acts P Q (k v)
  | CachePut p h k => Q p h ∧ acts P Q k
  | Call ev k => P ev ∧ ∀ r, acts P Q (k r)
  end.

(** The path a call removes or writes through [fs.rm] and [fs.writeFile]
    is in [paths]. *)
Definition writes_within (paths : list string) (ev : Event) : Prop :=
  match ev with
  | Rm p | WriteFile p _ => p ∈ paths
  | _ => True
  end.

(** Outside [paths] the files and the written-files cache of [w'] are
    those of [w]. *)
Definition same_outside (paths : list string) (w w' : World) : Prop :=
  ∀ q, q ∉ paths →
    files w' !! q = files w !! q
    ∧ writtenFilesCache w' !! q = writtenFilesCache w !! q.

(** The four artifacts [writeFilesForCache] names itself, in the order of
    the batch. *)
Definition namedArtifacts `{Imports} (env : Env) (config : Config)
    (schemaDef : SchemaDef) (targetPath : string)
    (generationOptions : GenerationOptions) (isDev : bool) : list Artifact.t :=
  let bundleFilePath :=
    withPrefix targetPath ["generated"; "dynamic-build-worker.mjs"] in
  let relativeBundleFilePath := relative (cwd env) bundleFilePath in
  let options := Source.options (source config) in
  [ {| Artifact.content := Some (makePackageJson (hash schemaDef));
       Artifact.filePath := withPrefix targetPath ["package.json"];
       Artifact.documentHash := None |};
    {| Artifact.content := Some (renderTypes schemaDef generationOptions);
       Artifact.filePath := withPrefix targetPath ["generated"; "types.d.ts"];
       Artifact.documentHash := None |};
    {| Artifact.content := Some (makeDataTypes schemaDef options);
       Artifact.filePath := withPrefix targetPath ["generated"; "index.d.ts"];
       Artifact.documentHash := None |};
    {| Artifact.content :=
         Some (makeIndexMjs schemaDef (assertStatement env)
                            relativeBundleFilePath options isDev);
       Artifact.filePath := withPrefix targetPath ["generated"; "index.mjs"];
       Artifact.documentHash := None |} ].

(** All artifacts of the write batch, in the order of the batch. *)
Definition batchArtifacts `{Imports} (env : Env) (config : Config)
    (schemaDef : SchemaDef) (targetPath : string)
    (generationOptions : GenerationOptions) (isDev : bool)
    (barrels individuals collections : list Artifact.t) : list Artifact.t :=
  namedArtifacts env config schemaDef targetPath generationOptions isDev
  ++ barrels ++ individuals ++ collections.

(** What the synthesis has made: nothing when it threw. *)
Definition synthesised {A : Type} (r : Defect + list A) : list A :=
  match r with
  | inr made => made
  | inl _ => []
  end.

(** The artifacts [writeFilesForCache] hands to its write batch for a
    schema and a cache. *)
Definition artifactsOf `{Imports} (env : Env) (config : Config)
    (cache : Cache) (schemaDef : SchemaDef) (targetPath : string)
    (generationOptions : GenerationOptions) (isDev : bool) : list Artifact.t :=
  let typeNameField := typeFieldName (fieldOptions (options generationOptions)) in
  batchArtifacts env config schemaDef targetPath generationOptions isDev
    (synthesised (dataBarrelFiles env targetPath typeNameField schemaDef cache))
    (synthesised (individualDataJsonFiles targetPath typeNameField cache))
    (collectionDataJsonFiles targetPath typeNameField schemaDef cache).

(** The fingerprint the written-files cache takes after a write: none for
    a write without one, and none for the empty string. *)
Definition stored (documentHash : option string) : option string :=
  match documentHash with
  | Some h => if truthy h then Some h else None
  | None => None
  end.

(** What is left of a cached write once the file is written. *)
Definition finish (p : string) (fingerprint : option string) : Eff unit :=
  match fingerprint with
  | Some h => CachePut p h (Ret tt)
  | None => Ret tt
  end.

(** A fiber that has still to write [c] to [p]: it may remove [p] first,
    it makes no other call, and after the write it puts [fingerprint], if
    any, under [p] and is done. *)
Fixpoint writes (p c : string) (fingerprint : option string) (e : Eff unit)
    : Prop :=
  match e with
  | Ret _ => False
  | Fail _ | Die _ => True
  | CacheGet _ k => ∀ v, writes p c fingerprint (k v)
  | CachePut _ _ _ => False
  | Call ev k =>
      match ev with
      | Rm p' => p' = p ∧ ∀ r, writes p c fingerprint (k r)
      | WriteFile p' c' => p' = p ∧ c' = c ∧ ∀ r, k r = finish p fingerprint
      | _ => False
      end
  end.

(** The file [p] holds [c], and the written-files cache has [fingerprint],
    if any, under [p]. *)
Definition landed (p c : string) (fingerprint : option string) (w : World)
    : Prop :=
  files w !! p = Some c
  ∧ match fingerprint with
    | Some h => writtenFilesCache w !! p = Some h
    | None => True
    end.

(** A fiber that neither removes nor writes a file and puts nothing into
    the written-files cache. *)
Definition harmless (e : Eff unit) : Prop :=
  acts (writes_within []) (fun _ _ => False) e.

(** What a member of a batch is there for: to write a content to a path,
    with the fingerprint the cache is to take, or for something else. *)
Definition Role : Type := option (string * string * option string).

Definition role_path (r : Role) : list string :=
  match r with
  | Some (p, _, _) => [p]
  | None => []
  end.

Definition role_paths (roles : list Role) : list string :=
  roles ≫= role_path.

(** A member that has not started. *)
Definition role_start (r : Role) (e : Eff unit) : Prop :=
  match r with
  | Some (p, c, fingerprint) => writes p c fingerprint e
  | None => harmless e
  end.

(** A member at a turn of the batch: a writer has still to write, or is
    done and its file has landed. *)
Definition role_inv (w : World) (r : Role) (e : Eff unit) : Prop :=
  match r with
  | Some (p, c, fingerprint) =>
      writes p c fingerprint e ∨ (e = Ret tt ∧ landed p c fingerprint w)
  | None => harmless e
  end.

(** The role of the write of an artifact. *)
Definition role_of (a : Artifact.t) : Role :=
  Some (Artifact.filePath a, default "" (Artifact.content a),
        stored (Artifact.documentHash a)).

(** A writer whose file has landed; nothing is asked of another member. *)
Definition role_done (w : World) (r : Role) : Prop :=
  match r with
  | Some (p, c, fingerprint) => landed p c fingerprint w
  | None => True
  end.

(** The paths of the writers of a batch are pairwise distinct. *)
Definition distinct (roles : list Role) : Prop :=
  ∀ i j p c f p' c' f',
    roles !! i = Some (Some (p, c, f)) → roles !! j = Some (Some (p', c', f')) →
    i ≠ j → p ≠ p'.

(** The cache fits the schema as far as the synthesis needs it: every
    singleton type has a document, and the type of every document is a
    string. *)
Definition well_formed (typeNameField : string) (schemaDef : SchemaDef)
    (cache : Cache) : Prop :=
  (∀ docDef, docDef ∈ documentDefs schemaDef → isSingleton docDef = true →
     documentsOfType typeNameField cache docDef ≠ [])
  ∧ (∀ item, item ∈ allCacheItems cache →
       ∃ typeName, prop (document item) typeNameField = Some (JStr typeName)).

(** An upper-case letter starts the string. *)
Definition capitalised (s : string) : bool :=
  match s with
  | String c _ => Js.is_upper c
  | EmptyString => false
  end.

(** A fiber that raises no failure of its own: a typed failure can only
    come out of a call. *)
Fixpoint honest {A : Type} (e : Eff A) : Prop :=
  match e with
  | Fail _ => False
  | Ret _ | Die _ => True
  | CacheGet _ k => ∀ v, honest (k v)
  | CachePut _ _ k => honest k
  | Call _ k => ∀ r, honest (k r)
  end.

(** None of the calls [t], made from position [n] of the trace on, has
    failed. *)
Definition none_failed (w : World) (n : nat) (t : list Event) : Prop :=
  ∀ i ev, t !! i = Some ev → fails w (n + i) ev = false.

(** One of the calls [t], made from position [n] of the trace on, has
    failed, and [e] is its failure. *)
Definition failed_with (w : World) (n : nat) (t : list Event)
    (e : GenerateDotpkgError) : Prop :=
  ∃ i ev, t !! i = Some ev ∧ fails w (n + i) ev = true ∧ e = error_of ev.

(** The exit of a task tells what its calls did: after a success none of
    them has failed, and a failure is the failure of one of them. *)
Definition reported {A : Type} (w : World)
    (r : Exit GenerateDotpkgError A * World) : Prop :=
  fails (snd r) = fails w
  ∧ ∃ t, trace (snd r) = trace w ++ t
         ∧ match fst r with
           | Success _ => none_failed w (length (trace w)) t
           | Failure e => failed_with w (length (trace w)) t e
           | Died _ => True
           end.

(** The same for one turn of a fiber. *)
Definition turn_reported {A : Type} (w : World) (r : Eff A * World) : Prop :=
  fails (snd r) = fails w
  ∧ ∃ t, trace (snd r) = trace w ++ t
         ∧ match fst r with
           | Fail e => failed_with w (length (trace w)) t e
           | _ => none_failed w (length (trace w)) t
           end.

(** The calls of [w'] since [w] are calls of the set-up and then calls of
    the write batch, as [in_two_phases] has it, and the write batch has
    made a call only if no call of the set-up has failed. *)
Definition batch_after_setup (w w' : World) : Prop :=
  fails w' = fails w
  ∧ ∃ setup batch,
      trace w' = trace w ++ setup ++ batch
      ∧ Forall setup_event setup ∧ Forall batch_event batch
      ∧ (batch = [] ∨ none_failed w (length (trace w)) setup).

(** The value of a hexadecimal digit in lower case. *)
Definition hex_value (c : ascii) : nat :=
  if Js.is_digit c then Js.code c - 48 else Js.code c - 87.

(** The character at the head of the inside of a JSON string and the rest
    of the string: what a JSON parser reads back for one character that
    [Json.escape] has written. *)
Definition unescape_head (s : string) : option (ascii * string) :=
  match s with
  | EmptyString => None
  | String c rest =>
      if (Js.code c =? 92)%nat then
        match rest with
        | String d rest' =>
            if (Js.code d =? 98)%nat then Some (ascii_of_nat 8, rest')
            else if (Js.code d =? 102)%nat then Some (ascii_of_nat 12, rest')
            else if (Js.code d =? 110)%nat then Some (ascii_of_nat 10, rest')
            else if (Js.code d =? 114)%nat then Some (ascii_of_nat 13, rest')
            else if (Js.code d =? 116)%nat then Some (ascii_of_nat 9, rest')
            else if (Js.code d =? 117)%nat then
              match rest' with
              | String _ (String _ (String h1 (String h2 rest''))) =>
                  Some (ascii_of_nat (16 * hex_value h1 + hex_value h2), rest'')
              | _ => None
              end
            else Some (d, rest')
        | EmptyString => None
        end
      else Some (c, rest)
  end.

(** A fiber that goes on in the same way whatever it reads from the
    written-files cache. *)
Fixpoint blind {A : Type} (e : Eff A) : Prop :=
  match e with
  | Ret _ | Fail _ | Die _ => True
  | CacheGet _ k => (∀ v v', k v = k v') ∧ ∀ v, blind (k v)
  | CachePut _ _ k => blind k
  | Call _ k => ∀ r, blind (k r)
  end.

(** Two worlds that differ in the written-files cache at most. *)
Definition same_disk (w1 w2 : World) : Prop :=
  files w1 = files w2 ∧ trace w1 = trace w2 ∧ fails w1 = fails w2.

(** A task that does the same in two such worlds. *)
Definition blind_task {E A : Type} (m : Task E A) : Prop :=
  ∀ w1 w2, same_disk w1 w2 →
    fst (m w1) = fst (m w2) ∧ same_disk (snd (m w1)) (snd (m w2)).

(** A call that is no call of the bundling step. *)
Definition no_bundling (ev : Event) : Prop := is_bundling ev = false.

(* ===================================================================== *)
(** * 10. A small project *)
(* ===================================================================== *)

Module Fixture.

#[local] Instance imports : Imports := {|
  autogeneratedNote := "NOTE This file is auto-generated by Contentlayer";
  getDataVariableName := fun docDef => "all" +:+ name docDef;
  renderTypes := fun _ _ => "// types";
  relative := fun _ to => to;
  getDirPath := fun cwd => cwd +:+ "/.contentlayer";
|}.

Definition env : Env :=
  {| cwd := "/app"; nodeVersionMajor := 18; nodeVersionMinor := 17;
     CL_DEBUG := false; contentlayerVersion := "0.3.4" |}.

Definition targetPath : string := "/app/.contentlayer".

Definition doc (id typeName : string) : Document :=
  {| _id := id;
     fields := [("title", JStr id); ("_id", JStr id); ("type", JStr typeName)] |}.

Definition Post : DocumentTypeDef := {| name := "Post"; isSingleton := false |}.
Definition Page : DocumentTypeDef := {| name := "Page"; isSingleton := true |}.

(** One singleton type [Page] and one collection type [Post]. *)
Definition schemaDef : SchemaDef :=
  {| documentTypeDefMap := [("Page", Page); ("Post", Post)]; hash := "abc123" |}.

Definition home : CacheItem :=
  {| document := doc "home" "Page"; documentHash := "h1" |}.
Definition post_1a : CacheItem :=
  {| document := doc "1-a" "Post"; documentHash := "h2" |}.
Definition post_2b : CacheItem :=
  {| document := doc "2-b" "Post"; documentHash := "h3" |}.

Definition cache : Cache :=
  {| cacheItemsMap := [("home", home); ("1-a", post_1a); ("2-b", post_2b)] |}.

(** The same project before the page [home] is written. *)
Definition cache_without_home : Cache :=
  {| cacheItemsMap := [("1-a", post_1a); ("2-b", post_2b)] |}.

Definition pluginOptions (dynamicBuild : bool)
    (callback : option SuccessCallback) : PluginOptions :=
  {| fieldOptions := {| typeFieldName := "type" |};
     experimental := {| enableDynamicBuild := dynamicBuild |};
     onSuccess := callback |}.

Definition config (dynamicBuild : bool) (callback : option SuccessCallback)
    (emissions : list (list (GenerationErrorOr Cache))) : Config :=
  {| source :=
       {| Source.type := "local";
          Source.options := pluginOptions dynamicBuild callback;
          Source.provideSchema := fun _ => inr schemaDef;
          Source.fetchData := fun _ _ => emissions |};
     esbuildHash := "e5b";
     filePath := "/app/contentlayer.config.ts" |}.

Definition generationOptions (dynamicBuild : bool) : GenerationOptions :=
  {| sourcePluginType := "local"; options := pluginOptions dynamicBuild None |}.

(** An empty disk on which no call fails. *)
Definition world : World :=
  {| files := ∅; writtenFilesCache := ∅; trace := [];
     fails := fun _ _ => false |}.

(** A callback whose promise resolves. *)
Definition resolves : SuccessCallback := fun _ => Resolves.

(** A failure of [fetchData]. *)
Definition boom : GenerateDotpkgError := SourceFetchDataError "boom".

(** The same world on a disk where every [fs.writeFile] fails. *)
Definition read_only (w : World) : World :=
  {| files := files w; writtenFilesCache := writtenFilesCache w;
     trace := trace w;
     fails := fun _ ev => match ev with WriteFile _ _ => true | _ => false end |}.

(** The write batch of the project has twelve members, the bundling step
    is the last one; here it gets the first turn. *)
Definition bundler_first : Schedules :=
  {| debugSchedule := []; mkdirSchedule := []; writeSchedule := [11%nat] |}.

(** The world after [writeFilesForCache] with dynamic build enabled. *)
Definition batch_run (schedules : Schedules) : World :=
  snd (writeFilesForCache env schedules (config true None [])
         cache schemaDef targetPath (generationOptions true) true world).

(** The worlds after a first and after a second [writeFilesForCache] with
    the same schema, the same cache and the written-files cache the first
    one has filled. *)
Definition second_run : World * World :=
  let run w :=
    snd (writeFilesForCache env sequential (config false None [])
           cache schemaDef targetPath (generationOptions false) true w) in
  (run world, run (run world)).

(** A callback whose promise rejects. *)
Definition rejects : SuccessCallback := fun _ => Rejects (JStr "rejected").

(** The same world on a disk where no directory can be made. *)
Definition no_directories (w : World) : World :=
  {| files := files w; writtenFilesCache := writtenFilesCache w;
     trace := trace w;
     fails := fun _ ev => match ev with Mkdirp _ => true | _ => false end |}.

(** A disk that has the file of a post that is no longer in the cache. *)
Definition stale : World :=
  {| files := {[ "/app/.contentlayer/generated/Post/old.json" := "{}" ]};
     writtenFilesCache := ∅; trace := []; fails := fun _ _ => false |}.

(** The world after [writeFilesForCache] in dynamic build, from [w]. *)
Definition generated (schedules : Schedules) (w : World)
    : Exit Empty_set (GenerationErrorOr unit) * World :=
  writeFilesForCache env schedules (config true None []) cache schemaDef
    targetPath (generationOptions true) true w.

(** The project with one more post, whose id is [_index]: its file is
    at the path of the aggregate file of [Post]. *)
Definition cache_with_index : Cache :=
  {| cacheItemsMap :=
       cacheItemsMap cache
       ++ [("_index", {| document := doc "_index" "Post"; documentHash := "h5" |})] |}.

(** The aggregate file of [Post], the twelfth member of that batch, gets
    the first two turns. *)
Definition aggregate_first : Schedules :=
  {| debugSchedule := []; mkdirSchedule := []; writeSchedule := [11%nat; 11%nat] |}.

(** The project with one more post. *)
Definition cache_with_draft : Cache :=
  {| cacheItemsMap :=
       cacheItemsMap cache
       ++ [("3-c", {| document := doc "3-c" "Post"; documentHash := "h4" |})] |}.

(** A callback that throws before it has returned a promise. *)
Definition throws : SuccessCallback := fun _ => Throws (Thrown (JStr "thrown")).

(** The turns of the project's batches in the order of the source, and a
    schema that is there at once. *)
Definition in_order : World → Schedules := fun _ => sequential.
Definition at_once : World → Race := fun _ => SchemaAtOnce.

End Fixture.

(* ===================================================================== *)
(** * 11. The package manifest *)
(* ===================================================================== *)

Lemma append_assoc (a b c : string) : (a +:+ b) +:+ c = a +:+ (b +:+ c).
Proof.
  induction a as [|x a IH]; [reflexivity|].
  change (String x ((a +:+ b) +:+ c) = String x (a +:+ (b +:+ c))).
  by rewrite IH.
Qed.

(** A plain string is its own escape. *)
Lemma escape_plain (s : string) : plain s = true → Json.escape s = s.
Proof.
  induction s as [|c s IH]; [reflexivity|].
  unfold plain. cbn [all_chars]. intros [Hc Hs]%andb_true_iff.
  change (Json.escape_char c +:+ Json.escape s = String c s).
  rewrite IH by exact Hs.
  apply andb_true_iff in Hc as [[H32 H34]%andb_true_iff H92].
  apply Nat.leb_le in H32.
  apply negb_true_iff, Nat.eqb_neq in H34, H92.
  unfold Json.escape_char.
  destruct (Nat.eqb_spec (Js.code c) 34); [done|].
  destruct (Nat.eqb_spec (Js.code c) 92); [done|].
  repeat (match goal with
          | |- context [Nat.eqb (Js.code c) ?n] =>
              destruct (Nat.eqb_spec (Js.code c) n); [lia|]
          end).
  destruct (Nat.ltb_spec (Js.code c) 32); [lia|]. reflexivity.
Qed.

(** C10. For every schema hash [h] the manifest object has the version
    ["0.0.0-"] followed by [h] as it is; the text of the manifest is a
    fixed text around that version as a JSON string, and for a hash without
    quote, backslash or control character the JSON string is the version
    between two quotes, character for character. *)
Theorem makePackageJson_version (h : string) :
  version_of (packageJson h) = Some (JStr ("0.0.0-" +:+ h))
  ∧ makePackageJson h
    = manifest_prefix +:+ Json.quote ("0.0.0-" +:+ h) +:+ manifest_suffix
  ∧ (plain h = true →
     Json.quote ("0.0.0-" +:+ h) = Json.dquote +:+ "0.0.0-" +:+ h +:+ Json.dquote).
Proof.
  split; [reflexivity|]. split.
  - unfold makePackageJson, packageJson, manifest_prefix, manifest_suffix.
    cbn -[Json.quote String.append].
    generalize (Json.quote ("0.0.0-" +:+ h)) as q. intros q.
    rewrite !append_assoc.
    reflexivity.
  - intros Hh. unfold Json.quote.
    assert (plain ("0.0.0-" +:+ h) = true) as Hp by exact Hh.
    by rewrite (escape_plain _ Hp).
Qed.

(* ===================================================================== *)
(** * 12. File names and import names *)
(* ===================================================================== *)

(** The two halves of C7 that hold: a name that is no identifier or is in
    use gives way to the fall-back name, and two fall-back names of one
    type differ as their indices do. What is missing is a test of the
    fall-back name against the names in use. *)
Lemma makeVariableName_falls_back (docDef : DocumentTypeDef)
    (usedVariableNames : gset string) (id : string) (fileIndex : nat) :
  let n := CamelCase.camelCase (idToFileName id) in
  isValidJsVarName n = false ∨ n ∈ usedVariableNames →
  makeVariableName docDef usedVariableNames id fileIndex
  = name docDef +:+ Js.of_nat fileIndex.
Proof.
  intros n Hn. unfold makeVariableName. fold n.
  destruct Hn as [->|Hin]; [done|].
  rewrite (bool_decide_eq_true_2 _ Hin). by rewrite andb_false_r.
Qed.

Lemma fallback_names_differ (docDef : DocumentTypeDef) (i j : nat) :
  name docDef +:+ Js.of_nat i = name docDef +:+ Js.of_nat j → i = j.
Proof.
  intros Heq. apply (inj (String.app (name docDef))) in Heq.
  by apply (inj pretty) in Heq.
Qed.

Lemma makeVariableName_keeps_fresh_identifier (docDef : DocumentTypeDef)
    (usedVariableNames : gset string) (id : string) (fileIndex : nat) :
  let n := CamelCase.camelCase (idToFileName id) in
  isValidJsVarName n = true → n ∉ usedVariableNames →
  makeVariableName docDef usedVariableNames id fileIndex = n.
Proof.
  intros n Hv Hnot. unfold makeVariableName. fold n.
  by rewrite Hv, (bool_decide_eq_false_2 _ Hnot).
Qed.

Lemma variableNamePairs_keys docDef used i ids :
  List.map fst (variableNamePairs docDef used i ids) = ids.
Proof.
  revert used i. induction ids as [|id rest IH]; intros used i; simpl; [done|].
  by rewrite IH.
Qed.

Lemma variableNames_fresh_and_distinct docDef used i ids :
  (∀ k, (i ≤ k)%nat → (k < i + length ids)%nat →
     name docDef +:+ Js.of_nat k ∉ used) →
  (∀ j k id, ids !! j = Some id → (j < k)%nat → (k < length ids)%nat →
     CamelCase.camelCase (idToFileName id) ≠ name docDef +:+ Js.of_nat (i + k)) →
  NoDup (variableNames docDef used i ids)
  ∧ ∀ n, n ∈ variableNames docDef used i ids → n ∉ used.
Proof.
  unfold variableNames.
  revert used i. induction ids as [|id rest IH]; intros used i Hfree Hclash;
    cbn [variableNamePairs List.map snd length].
  { split; [constructor|]. intros n Hn. by apply elem_of_nil in Hn. }
  set (v := makeVariableName docDef used id i).
  assert (v ∉ used) as Hv.
  { subst v. unfold makeVariableName.
    destruct (isValidJsVarName _ && negb (bool_decide _)) eqn:Hok.
    - apply andb_true_iff in Hok as [_ Hnot].
      apply negb_true_iff in Hnot. by apply bool_decide_eq_false_1 in Hnot.
    - apply Hfree; simpl; lia. }
  assert (∀ k, (i < k)%nat → (k < i + S (length rest))%nat →
            v ≠ name docDef +:+ Js.of_nat k) as Hvk.
  { intros k Hik Hk. subst v. unfold makeVariableName.
    destruct (isValidJsVarName _ && negb (bool_decide _)).
    - replace k with (i + (k - i)) by lia.
      apply (Hclash 0 (k - i) id); [done|lia|simpl; lia].
    - intros Heq. apply fallback_names_differ in Heq. lia. }
  destruct (IH ({[v]} ∪ used) (S i)) as [IHnd IHfresh].
  - intros k Hik Hk [Hin%elem_of_singleton|Hin]%elem_of_union.
    + apply (Hvk k); [lia|simpl in *; lia|done].
    + apply (Hfree k); [lia|simpl; lia|done].
  - intros j k id' Hj Hjk Hk.
    replace (S i + k) with (i + S k) by lia.
    apply (Hclash (S j) (S k) id'); [done|lia|simpl; lia].
  - split.
    + apply NoDup_cons. split; [|exact IHnd].
      intros Hin. apply IHfresh in Hin. apply Hin, elem_of_union. left.
      by apply elem_of_singleton.
    + intros n [->|Hin]%elem_of_cons; [exact Hv|].
      apply IHfresh in Hin. intros Hu. apply Hin, elem_of_union. by right.
Qed.

Lemma JsMap_set_fresh key value (m : JsMap.t) :
  key ∉ List.map fst m → JsMap.set key value m = m ++ [(key, value)].
Proof.
  induction m as [|[k v] m IH]; intros Hnot; simpl; [done|].
  destruct (String.eqb_spec k key) as [->|Hne].
  - exfalso. apply Hnot. simpl. left.
  - rewrite IH; [done|]. intros Hin. apply Hnot. simpl. by right.
Qed.

Lemma JsMap_of_entries_distinct (entries acc : list (string * string)) :
  NoDup (List.map fst (acc ++ entries)) →
  fold_left (fun m kv => JsMap.set (fst kv) (snd kv) m) entries acc
  = acc ++ entries.
Proof.
  revert acc. induction entries as [|[k v] entries IH]; intros acc Hnd; simpl.
  - by rewrite app_nil_r.
  - rewrite JsMap_set_fresh.
    + rewrite IH; rewrite <- app_assoc; [done|]. exact Hnd.
    + rewrite List.map_app in Hnd. simpl in Hnd.
      apply NoDup_app in Hnd as (_ & Hdisj & _).
      intros Hin. apply (Hdisj k Hin). left.
Qed.

Lemma JsMap_get_distinct (m : JsMap.t) :
  NoDup (List.map fst m) →
  List.map (fun k => interpolate (JsMap.get k m)) (List.map fst m)
  = List.map snd m.
Proof.
  induction m as [|[k v] m IH]; intros Hnd; simpl; [done|].
  apply NoDup_cons in Hnd as [Hnot Hnd].
  rewrite String.eqb_refl. simpl. f_equal.
  rewrite <- (IH Hnd). apply map_ext_in. intros k' Hin.
  destruct (String.eqb_spec k k') as [->|Hne]; [|done].
  exfalso. apply Hnot. by apply list_elem_of_In.
Qed.

(** The claim C7 where it holds: for distinct ids, when no camel-cased name
    of an id is the fall-back name of a later position, the import names
    are pairwise distinct. *)
Lemma import_names_distinct_without_clash (docDef : DocumentTypeDef)
    (documentIds : list string) :
  NoDup documentIds →
  (∀ j k id, documentIds !! j = Some id → (j < k)%nat →
     (k < length documentIds)%nat →
     CamelCase.camelCase (idToFileName id) ≠ name docDef +:+ Js.of_nat k) →
  NoDup (importNames docDef documentIds).
Proof.
  intros Hids Hclash. unfold importNames, JsMap.of_entries.
  pose proof (variableNamePairs_keys docDef ∅ 0 documentIds) as Hkeys.
  rewrite (JsMap_of_entries_distinct _ []) by (simpl; by rewrite Hkeys).
  cbn [app].
  pose proof (JsMap_get_distinct (variableNamePairs docDef ∅ 0 documentIds)) as Hget.
  rewrite Hkeys in Hget. rewrite (Hget Hids).
  apply (variableNames_fresh_and_distinct docDef ∅ 0 documentIds).
  - intros k _ _. apply not_elem_of_empty.
  - intros j k id Hj Hjk Hk. exact (Hclash j k id Hj Hjk Hk).
Qed.

(** File names, camel case and identifiers, by example. *)
Example idToFileName_examples :
  idToFileName "1-a" = "_1-a"
  ∧ idToFileName "2-b" = "_2-b"
  ∧ idToFileName "posts/2020/hello.md" = "posts__2020__hello.md"
  ∧ idToFileName "a/b" = idToFileName "a__b".
Proof. repeat split. Qed.

Example camelCase_examples :
  CamelCase.camelCase "posts__hello-world.md" = "posts__helloWorldMd"
  ∧ CamelCase.camelCase "_1-a" = "_1A"
  ∧ CamelCase.camelCase "XMLHttpRequest" = "xmlHttpRequest"
  ∧ CamelCase.camelCase "version 1.2" = "version_1_2"
  ∧ CamelCase.camelCase "!" = "".
Proof. vm_compute. repeat split. Qed.

Example isValidJsVarName_examples :
  isValidJsVarName "post1" = true
  ∧ isValidJsVarName "_1A" = true
  ∧ isValidJsVarName "1a" = false
  ∧ isValidJsVarName "" = false
  ∧ isValidJsVarName "a-b" = false.
Proof. repeat split. Qed.

(** C6, as the code has it. For a type [Post] with the two documents ["1-a"]
    and ["2-b"] the per-document JSON files are [generated/Post/_1-a.json]
    and [generated/Post/_2-b.json] under the package root: an id that
    starts with a digit gets an underscore in front, and the hyphen stays. *)
Theorem individual_json_paths_of_Post (targetPath typeNameField : string)
    (d1 d2 : Document) (k1 k2 h1 h2 : string) :
  _id d1 = "1-a" → _id d2 = "2-b" →
  prop d1 typeNameField = Some (JStr "Post") →
  prop d2 typeNameField = Some (JStr "Post") →
  artifact_paths
    (individualDataJsonFiles targetPath typeNameField
       {| cacheItemsMap := [ (k1, {| document := d1; documentHash := h1 |});
                             (k2, {| document := d2; documentHash := h2 |}) ] |})
  = inr [ targetPath +:+ "/generated/Post/_1-a.json";
          targetPath +:+ "/generated/Post/_2-b.json" ].
Proof.
  intros Hid1 Hid2 Ht1 Ht2.
  unfold individualDataJsonFiles, allCacheItems.
  cbn [cacheItemsMap List.map snd map_throwing].
  unfold individualDataJsonFile. cbn [document documentHash].
  rewrite Ht1, Ht2, Hid1, Hid2.
  reflexivity.
Qed.

(* ===================================================================== *)
(** * 13. The cached write *)
(* ===================================================================== *)

(** Runs a write through, asking of every call whether it fails. *)
Ltac eval_write :=
  repeat (simpl; rewrite ?length_app; simpl; rewrite ?Nat.add_1_r;
          match goal with
          | |- context [fails ?w0 ?n ?ev] => destruct (fails w0 n ev) eqn:?
          end); simpl.

(** C2. A call of the cached write with a fingerprint, with [rmBeforeWrite]
    false and with that fingerprint in the written-files cache under the
    file path does nothing at all: it succeeds and leaves the world as it
    is. Every other call removes the file first exactly when
    [rmBeforeWrite] is true, and then, unless the removal failed, writes
    the content to the file path; after a write that succeeded the file
    holds the content and nothing else. *)
Theorem cached_write_skips_or_writes (env : Env) (args : Args.t) (w : World) :
  let filePath := Args.filePath args in
  let content := Args.content args in
  let rmBeforeWrite := default true (Args.rmBeforeWrite args) in
  let n := length (trace w) in
  let upToDate :=
    ∃ fingerprint, Args.documentHash args = Some fingerprint
                   ∧ writtenFilesCache w !! filePath = Some fingerprint in
  let '(exit, w') := run env (writeFileWithWrittenFilesCache args) w in
  (upToDate ∧ rmBeforeWrite = false → exit = Success tt ∧ w' = w)
  ∧ (¬ (upToDate ∧ rmBeforeWrite = false) →
       (rmBeforeWrite = true →
          if fails w n (Rm filePath)
          then events_since w w' = [Rm filePath]
               ∧ exit = Failure (RmError filePath) ∧ files w' = files w
          else events_since w w' = [Rm filePath; WriteFile filePath content]
               ∧ if fails w (S n) (WriteFile filePath content)
                 then exit = Failure (WriteFileError filePath)
                 else exit = Success tt
                      ∧ files w' = <[filePath := content]> (files w))
       ∧ (rmBeforeWrite = false →
          events_since w w' = [WriteFile filePath content]
          ∧ if fails w n (WriteFile filePath content)
            then exit = Failure (WriteFileError filePath) ∧ files w' = files w
            else exit = Success tt
                 ∧ files w' = <[filePath := content]> (files w))).
Proof.
  destruct args as [p c h rm].
  cbn [Args.filePath Args.content Args.documentHash Args.rmBeforeWrite]. cbv zeta.
  unfold writeFileWithWrittenFilesCache.
  cbn [Args.filePath Args.content Args.documentHash Args.rmBeforeWrite].
  destruct h as [h|]; destruct rm as [[|]|]; simpl;
    try destruct (bool_decide_reflect (writtenFilesCache w !! p = Some h)) as [Hup|Hup];
    simpl; unfold perform.
  all: eval_write; try destruct (truthy h); simpl.
  all: unfold events_since; simpl; rewrite <- ?app_assoc; simpl;
       rewrite ?drop_app_length.
  all: rewrite ?insert_delete_eq.
  all: (split; [intros [Hu Hf]; try discriminate Hf
               |intros Hnot; split; intros Hb; try discriminate Hb]).
  all: try done.
  all: try (exfalso; apply Hnot; split;
            [eexists; split; [reflexivity|eassumption]|reflexivity]).
  all: try (destruct Hu as (f & Hf1 & Hf2); simplify_eq; done).
Qed.

(** The first half of C3: a cached write that fails, at the removal or at
    the write, leaves the written-files cache as it was. *)
Lemma failed_write_keeps_cache (env : Env) (args : Args.t) (w w' : World)
    (e : GenerateDotpkgError) :
  run env (writeFileWithWrittenFilesCache args) w = (Failure e, w') →
  writtenFilesCache w' = writtenFilesCache w.
Proof.
  destruct args as [p c h rm]. unfold writeFileWithWrittenFilesCache.
  cbn [Args.filePath Args.content Args.documentHash Args.rmBeforeWrite].
  destruct h as [h|]; destruct rm as [[|]|]; simpl;
    try destruct (bool_decide (writtenFilesCache w !! p = Some h));
    simpl; unfold perform; eval_write; try destruct (truthy h); simpl;
    intros [= <- <-]; reflexivity.
Qed.

(** The second half of C3 for a fingerprint that is not the empty string:
    after a cached write that succeeded the written-files cache has the
    fingerprint under the file path. *)
Lemma successful_write_stores_fingerprint (env : Env) (args : Args.t)
    (w w' : World) (fingerprint : string) :
  Args.documentHash args = Some fingerprint → fingerprint ≠ "" →
  run env (writeFileWithWrittenFilesCache args) w = (Success tt, w') →
  writtenFilesCache w' !! Args.filePath args = Some fingerprint.
Proof.
  destruct args as [p c h rm]. unfold writeFileWithWrittenFilesCache.
  cbn [Args.filePath Args.content Args.documentHash Args.rmBeforeWrite].
  intros -> Hne.
  assert (truthy fingerprint = true) as Ht.
  { unfold truthy. by destruct (String.eqb_spec fingerprint ""). }
  destruct rm as [[|]|]; simpl;
    try destruct (bool_decide_reflect (writtenFilesCache w !! p = Some fingerprint));
    simpl; unfold perform; eval_write; rewrite ?Ht; simpl;
    intros [= <-]; simpl; try done; by rewrite lookup_insert_eq.
Qed.

(** C3, where the code leaves it: a cached write with the empty string as
    its fingerprint never touches the written-files cache, so after a
    write that succeeded the cache does not have that fingerprint under
    the file path. *)
Theorem empty_fingerprint_is_not_stored (env : Env) (filePath content : string)
    (rmBeforeWrite : option bool) (w : World) :
  let args := args_of filePath content (Some "") rmBeforeWrite in
  let '(exit, w') := run env (writeFileWithWrittenFilesCache args) w in
  writtenFilesCache w' = writtenFilesCache w
  ∧ (fails w (length (trace w)) (Rm filePath) = false →
     fails w (length (trace w)) (WriteFile filePath content) = false →
     fails w (S (length (trace w))) (WriteFile filePath content) = false →
     writtenFilesCache w !! filePath ≠ Some "" →
     exit = Success tt
     ∧ files w' !! filePath = Some content
     ∧ writtenFilesCache w' !! filePath ≠ Some "").
Proof.
  cbv zeta. unfold writeFileWithWrittenFilesCache, args_of.
  cbn [Args.filePath Args.content Args.documentHash Args.rmBeforeWrite].
  destruct rmBeforeWrite as [[|]|]; simpl;
    try destruct (bool_decide_reflect (writtenFilesCache w !! filePath = Some ""));
    simpl; unfold perform; eval_write.
  all: split; [reflexivity|]; intros; try done.
  all: rewrite ?lookup_insert_eq; done.
Qed.

(** What decides C1: an artifact handed to [writeFile] by one of the three
    [map]s has no [rmBeforeWrite], which therefore is [true], and is
    removed and written whatever the written-files cache holds. *)
Lemma mapped_write_ignores_the_cache (env : Env) (a : Artifact.t)
    (text : string) (w : World) :
  let filePath := Artifact.filePath a in
  Artifact.content a = Some text →
  fails w (length (trace w)) (Rm filePath) = false →
  fails w (S (length (trace w))) (WriteFile filePath text) = false →
  let '(exit, w') := run env (writeArtifact a) w in
  exit = Success tt
  ∧ events_since w w' = [Rm filePath; WriteFile filePath text].
Proof.
  intros filePath Htext Hrm Hwrite. subst filePath.
  unfold writeArtifact. rewrite Htext.
  unfold writeFileWithWrittenFilesCache.
  cbn [Args.filePath Args.content Args.documentHash Args.rmBeforeWrite].
  destruct (Artifact.documentHash a) as [h|]; simpl; unfold perform; simpl;
    rewrite Hrm; simpl; rewrite ?length_app; simpl; rewrite ?Nat.add_1_r, Hwrite;
    simpl; try destruct (truthy h); simpl;
    unfold events_since; simpl; rewrite <- ?app_assoc; simpl;
    by rewrite drop_app_length.
Qed.

(* ===================================================================== *)
(** * 14. Traces of fibers and of parallel batches *)
(* ===================================================================== *)

(** Whatever the schedule, a batch of fibers whose calls all satisfy [P]
    adds only calls that satisfy [P] to the trace. *)
Section Growth.
Variable P : Event → Prop.
Variable env : Env.

Lemma grows_refl w : grows P w w.
Proof. exists []. by rewrite app_nil_r. Qed.

Lemma grows_trans w1 w2 w3 : grows P w1 w2 → grows P w2 w3 → grows P w1 w3.
Proof.
  intros (t1 & H1 & F1) (t2 & H2 & F2). exists (t1 ++ t2).
  split; [by rewrite H2, H1, app_assoc|by apply Forall_app].
Qed.

Lemma calls_bind {A B} (m : Eff A) (f : A → Eff B) :
  calls P m → (∀ a, calls P (f a)) → calls P (m ≫= f).
Proof.
  intros Hm Hf. change (calls P (bind m f)).
  induction m as [a|e|d|p k IH|p h k IH|ev k IH]; cbn [bind calls] in *; auto.
  destruct Hm as [Hev Hk]. split; [done|]. intros r. by apply IH.
Qed.

Lemma run_sync_calls {A} (e : Eff A) w :
  calls P e →
  calls P (fst (run_sync e w)) ∧ trace (snd (run_sync e w)) = trace w.
Proof.
  revert w. induction e as [a|e|d|p k IH|p h k IH|ev k IH]; intros w Hc; simpl; auto.
  destruct (IH (set_writtenFilesCache (<[p:=h]> (writtenFilesCache w)) w) Hc)
    as [IH1 IH2]. done.
Qed.

Lemma perform_grows ev w : P ev → grows P w (snd (perform env ev w)).
Proof.
  intros Hev. exists [ev]. split; [|by apply Forall_singleton].
  unfold perform. destruct (fails w _ ev); [reflexivity|]. by destruct ev.
Qed.

Lemma step_grows {A} (e : Eff A) w :
  calls P e →
  calls P (fst (step env e w)) ∧ grows P w (snd (step env e w)).
Proof.
  intros Hc. destruct e as [a|e|d|p k|p h k|ev k].
  1-5: unfold step; destruct (run_sync_calls _ w Hc) as [H1 H2];
       (split; [exact H1|]); exists []; by rewrite app_nil_r.
  destruct Hc as [Hev Hk]. unfold step.
  pose proof (perform_grows ev w Hev) as Hg.
  destruct (perform env ev w) as [[r|err|d] w']; simpl in *; [|done..].
  destruct (run_sync_calls (k r) w' (Hk r)) as [H1 H2].
  split; [exact H1|]. destruct Hg as (t & Ht & HF). exists t. by rewrite H2.
Qed.

Lemma run_grows {A} (e : Eff A) w : calls P e → grows P w (snd (run env e w)).
Proof.
  revert w. induction e as [a|e|d|p k IH|p h k IH|ev k IH]; intros w Hc; simpl;
    try apply grows_refl.
  - by apply IH.
  - destruct (IH (set_writtenFilesCache (<[p:=h]> (writtenFilesCache w)) w) Hc)
      as (t & Ht & HF). by exists t.
  - destruct Hc as [Hev Hk].
    pose proof (perform_grows ev w Hev) as Hg.
    destruct (perform env ev w) as [[r|err|d] w']; simpl in *; [|done..].
    eapply grows_trans; [exact Hg|]. by apply IH.
Qed.

Lemma fork_grows fibers w :
  Forall (calls P) fibers →
  Forall (calls P) (fst (fork fibers w)) ∧ trace (snd (fork fibers w)) = trace w.
Proof.
  revert w. induction fibers as [|e rest IH]; intros w Hall; simpl; [done|].
  apply Forall_cons in Hall as [He Hrest].
  destruct (run_sync_calls e w He) as [H1 H2].
  destruct (run_sync e w) as [e' w']. simpl in *.
  destruct (IH w' Hrest) as [H3 H4].
  destruct (fork rest w') as [rest' w'']. simpl in *.
  split; [by apply Forall_cons|congruence].
Qed.

Lemma run_all_grows fibers w :
  Forall (calls P) fibers → grows P w (snd (run_all env fibers w)).
Proof.
  revert w. induction fibers as [|e rest IH]; intros w Hall; simpl;
    [apply grows_refl|].
  apply Forall_cons in Hall as [He Hrest].
  pose proof (run_grows e w He) as Hg.
  destruct (run env e w) as [[[]|err|d] w']; simpl in *; [|done..].
  eapply grows_trans; [exact Hg|]. by apply IH.
Qed.

Lemma par_loop_grows schedule fibers w :
  Forall (calls P) fibers → grows P w (snd (par_loop env schedule fibers w)).
Proof.
  revert fibers w. induction schedule as [|i schedule IH]; intros fibers w Hall;
    simpl; [by apply run_all_grows|].
  destruct (fibers !! i) as [e|] eqn:Hi; [|by apply IH].
  assert (calls P e) as He by (eapply Forall_lookup_1; eauto).
  destruct (step_grows e w He) as [H1 H2].
  destruct (step env e w) as [e' w']. simpl in *.
  assert (grows P w (snd (par_loop env schedule (<[i:=e']> fibers) w'))) as Hgo.
  { eapply grows_trans; [exact H2|]. apply IH. by apply Forall_insert. }
  destruct e'; simpl; done.
Qed.

Lemma par_grows schedule fibers w :
  Forall (calls P) fibers → grows P w (snd (par env schedule fibers w)).
Proof.
  intros Hall. unfold par.
  destruct (fork_grows fibers w Hall) as [H1 H2].
  destruct (fork fibers w) as [forked w']. simpl in *.
  destruct (first_failed forked).
  - exists []. by rewrite app_nil_r.
  - destruct (par_loop_grows schedule forked w' H1) as (t & Ht & HF).
    exists t. by rewrite Ht, H2.
Qed.
End Growth.

Lemma Forall_map_all {A B : Type} (P : B → Prop) (f : A → B) (l : list A) :
  (∀ x, P (f x)) → Forall P (List.map f l).
Proof. intros Hf. induction l; simpl; constructor; auto. Qed.

Lemma calls_writeFile (args : Args.t) :
  calls batch_event (writeFileWithWrittenFilesCache args).
Proof.
  destruct args as [p c h rm]. unfold writeFileWithWrittenFilesCache.
  cbn [Args.filePath Args.content Args.documentHash Args.rmBeforeWrite].
  apply calls_bind.
  - destruct h; simpl; done.
  - intros upToDate. destruct (negb _ && upToDate); [done|].
    apply calls_bind; [destruct (default true rm); simpl; done|]. intros _.
    apply calls_bind; [simpl; done|]. intros _.
    destruct h as [h|]; [destruct (truthy h)|]; simpl; done.
Qed.

Lemma calls_writeArtifact (a : Artifact.t) : calls batch_event (writeArtifact a).
Proof.
  unfold writeArtifact. destruct (Artifact.content a); [apply calls_writeFile|done].
Qed.

Lemma calls_makeFetchContentWorker env config bundleFilePath :
  calls batch_event (makeFetchContentWorker env config bundleFilePath).
Proof. unfold makeFetchContentWorker. simpl. done. Qed.

Lemma calls_writeBatch `{Imports} env config schemaDef targetPath generationOptions
    isDev barrels individuals collections :
  Forall (calls batch_event)
    (writeBatch env config schemaDef targetPath generationOptions isDev
                barrels individuals collections).
Proof.
  assert (∀ l : list Artifact.t,
            Forall (calls batch_event) (List.map writeArtifact l)) as Hmap.
  { intros l. apply Forall_map_all, calls_writeArtifact. }
  unfold writeBatch.
  apply Forall_app; split.
  { repeat (apply Forall_cons; split; [apply calls_writeFile|]). constructor. }
  repeat (apply Forall_app; split; [apply Hmap|]).
  apply Forall_singleton.
  destruct (enableDynamicBuild _); [apply calls_makeFetchContentWorker|done].
Qed.

(** ** The two phases of [writeFilesForCache] *)

Lemma setup_in_two_phases w w' : grows setup_event w w' → in_two_phases w w'.
Proof. intros (t & Ht & HF). exists t, []. by rewrite app_nil_r. Qed.

Lemma setup_then_two_phases w w1 w2 :
  grows setup_event w w1 → in_two_phases w1 w2 → in_two_phases w w2.
Proof.
  intros (t & Ht & HF) (t1 & t2 & Hev & HF1 & HF2).
  exists (t ++ t1), t2. split; [|split; [by apply Forall_app|done]].
  by rewrite Hev, Ht, <- !app_assoc.
Qed.

Lemma setup_then_batch w w1 w2 :
  grows setup_event w w1 → grows batch_event w1 w2 → in_two_phases w w2.
Proof.
  intros (t & Ht & HF) (t2 & Hev & HF2). exists t, t2.
  by rewrite Hev, Ht, <- !app_assoc.
Qed.

Lemma andThen_setup {E A B : Type} (m : Task E A) (f : A → Task E B) (w : World) :
  grows setup_event w (snd (m w)) →
  (∀ a w1, in_two_phases w1 (snd (f a w1))) →
  in_two_phases w (snd (andThen m f w)).
Proof.
  intros Hm Hf. unfold andThen. destruct (m w) as [[a|e|d] w1]; simpl in *.
  - eapply setup_then_two_phases; [exact Hm|apply Hf].
  - by apply setup_in_two_phases.
  - by apply setup_in_two_phases.
Qed.

Lemma andThen_grows {E A B : Type} (P : Event → Prop) (m : Task E A)
    (f : A → Task E B) (w : World) :
  grows P w (snd (m w)) → (∀ a w1, grows P w1 (snd (f a w1))) →
  grows P w (snd (andThen m f w)).
Proof.
  intros Hm Hf. unfold andThen. destruct (m w) as [[a|e|d] w1]; simpl in *; try done.
  eapply grows_trans; [exact Hm|apply Hf].
Qed.

Lemma throwing_setup {A : Type} (r : Defect + A) (w : World) :
  grows setup_event w (snd (throwing r w)).
Proof. unfold throwing. destruct r; apply grows_refl. Qed.

Lemma debugSnapshot_grows env schedules targetPath w :
  grows setup_event w (snd (debugSnapshot env schedules targetPath w)).
Proof.
  unfold debugSnapshot. apply andThen_grows.
  - apply run_grows. simpl. done.
  - intros _ w1. apply par_grows. repeat constructor.
Qed.

(** Whatever the schedules, the calls of one [writeFilesForCache] are
    calls of the set-up followed by calls of the write batch. *)
Lemma writeFilesForCache_in_two_phases `{Imports} (env : Env)
    (schedules : Schedules) (config : Config) (cache : Cache)
    (schemaDef : SchemaDef) (targetPath : string)
    (generationOptions : GenerationOptions) (isDev : bool) (w : World) :
  in_two_phases w
    (snd (writeFilesForCache env schedules config cache schemaDef targetPath
                             generationOptions isDev w)).
Proof.
  unfold writeFilesForCache, either.
  match goal with
  | |- in_two_phases _ (snd (let (e0, w') := ?m w in _)) =>
      enough (in_two_phases w (snd (m w))) as Hm
        by (destruct (m w) as [[a|e|d] w']; exact Hm)
  end.
  apply andThen_setup.
  { destruct (CL_DEBUG env); [apply debugSnapshot_grows|apply grows_refl]. }
  intros _ w1. apply andThen_setup; [apply throwing_setup|].
  intros barrels w2. apply andThen_setup; [apply throwing_setup|].
  intros individuals w3.
  unfold andThen.
  assert (Forall (calls setup_event)
            (List.map (fun dir => call_ (Mkdirp dir))
               (withPrefix targetPath ["generated"]
                  :: dataDirPaths targetPath schemaDef))) as Hdirs.
  { apply Forall_map_all. intros dir. simpl. done. }
  pose proof (par_grows setup_event env (mkdirSchedule schedules) _ w3 Hdirs)
    as Hmk.
  destruct (par env (mkdirSchedule schedules) _ w3) as [[[]|e|d] w4];
    cbn [snd] in Hmk.
  - eapply setup_then_batch; [exact Hmk|].
    apply par_grows, calls_writeBatch.
  - by apply setup_in_two_phases.
  - by apply setup_in_two_phases.
Qed.

(** C5, as the code has it. Whatever the schedules, the calls of one
    [writeFilesForCache] come in two phases: first the calls that make the
    directories (with the debug snapshot before them), then the calls of
    the one parallel batch that holds the artifact writes and the bundling
    step alike. The directories have settled when the batch starts; inside
    the batch nothing orders the bundling step after the writes. *)
Theorem directories_settle_before_the_write_batch `{Imports} (env : Env)
    (schedules : Schedules) (config : Config) (cache : Cache)
    (schemaDef : SchemaDef) (targetPath : string)
    (generationOptions : GenerationOptions) (isDev : bool) (w : World) :
  let '(_, w') :=
    writeFilesForCache env schedules config cache schemaDef targetPath
                       generationOptions isDev w in
  ∃ setup batch,
    trace w' = trace w ++ setup ++ batch
    ∧ Forall (fun ev => is_setup ev = true) setup
    ∧ Forall (fun ev => is_write ev || is_bundling ev = true) batch.
Proof.
  pose proof (writeFilesForCache_in_two_phases env schedules config cache
                schemaDef targetPath generationOptions isDev w) as Hphases.
  destruct (writeFilesForCache _ _ _ _ _ _ _ _ w) as [r w']. exact Hphases.
Qed.


(* ===================================================================== *)
(** * 15. Defects *)
(* ===================================================================== *)

(** Whatever the schedule, a batch of fibers that cannot die does not
    die: a call fails with a typed failure or not at all. *)
Section Safety.
Variable env : Env.

Lemma safe_bind {A B} (m : Eff A) (f : A → Eff B) :
  safe m → (∀ a, safe (f a)) → safe (m ≫= f).
Proof.
  intros Hm Hf. change (safe (bind m f)).
  induction m as [a|e|d|p k IH|p h k IH|ev k IH]; cbn [bind safe] in *; auto.
Qed.

Lemma perform_alive ev w : alive (fst (perform env ev w)).
Proof. unfold perform. destruct (fails w _ ev); [done|]. by destruct ev. Qed.

Lemma run_sync_safe {A} (e : Eff A) w : safe e → safe (fst (run_sync e w)).
Proof.
  revert w. induction e as [a|e|d|p k IH|p h k IH|ev k IH]; intros w Hs; simpl; auto.
Qed.

Lemma step_safe {A} (e : Eff A) w : safe e → safe (fst (step env e w)).
Proof.
  intros Hs. destruct e as [a|e|d|p k|p h k|ev k];
    try (unfold step; by apply run_sync_safe).
  unfold step. pose proof (perform_alive ev w) as Ha.
  destruct (perform env ev w) as [[r|err|d] w']; simpl in *; [|done..].
  apply run_sync_safe, Hs.
Qed.

Lemma run_alive {A} (e : Eff A) w : safe e → alive (fst (run env e w)).
Proof.
  revert w. induction e as [a|e|d|p k IH|p h k IH|ev k IH]; intros w Hs; simpl; auto.
  pose proof (perform_alive ev w) as Ha.
  destruct (perform env ev w) as [[r|err|d] w']; simpl in *; [|done..].
  apply IH, Hs.
Qed.

Lemma fork_safe fibers w : Forall safe fibers → Forall safe (fst (fork fibers w)).
Proof.
  revert w. induction fibers as [|e rest IH]; intros w Hall; simpl; [done|].
  apply Forall_cons in Hall as [He Hrest].
  pose proof (run_sync_safe e w He) as H1.
  destruct (run_sync e w) as [e' w']. simpl in *.
  pose proof (IH w' Hrest) as H2.
  destruct (fork rest w') as [rest' w'']. simpl in *. by apply Forall_cons.
Qed.

Lemma first_failed_alive fibers failed :
  Forall safe fibers → first_failed fibers = Some failed → alive failed.
Proof.
  induction fibers as [|e rest IH]; intros Hall; simpl; [done|].
  apply Forall_cons in Hall as [He Hrest].
  destruct e; simpl in *; try (by apply IH); [by intros [= <-]|done].
Qed.

Lemma run_all_alive fibers w :
  Forall safe fibers → alive (fst (run_all env fibers w)).
Proof.
  revert w. induction fibers as [|e rest IH]; intros w Hall; simpl; [done|].
  apply Forall_cons in Hall as [He Hrest].
  pose proof (run_alive e w He) as Ha.
  destruct (run env e w) as [[[]|err|d] w']; simpl in *; [|done..].
  by apply IH.
Qed.

Lemma par_loop_alive schedule fibers w :
  Forall safe fibers → alive (fst (par_loop env schedule fibers w)).
Proof.
  revert fibers w. induction schedule as [|i schedule IH]; intros fibers w Hall;
    simpl; [by apply run_all_alive|].
  destruct (fibers !! i) as [e|] eqn:Hi; [|by apply IH].
  assert (safe e) as He by (eapply Forall_lookup_1; eauto).
  pose proof (step_safe e w He) as H1.
  destruct (step env e w) as [e' w']. simpl in *.
  assert (alive (fst (par_loop env schedule (<[i:=e']> fibers) w'))) as Hgo
    by (apply IH; by apply Forall_insert).
  destruct e'; simpl; done.
Qed.

Lemma par_alive schedule fibers w :
  Forall safe fibers → alive (fst (par env schedule fibers w)).
Proof.
  intros Hall. unfold par.
  pose proof (fork_safe fibers w Hall) as H1.
  destruct (fork fibers w) as [forked w']. simpl in *.
  destruct (first_failed forked) as [failed|] eqn:Hff.
  - simpl. eapply first_failed_alive; eauto.
  - by apply par_loop_alive.
Qed.
End Safety.

Lemma safe_writeFile (args : Args.t) : safe (writeFileWithWrittenFilesCache args).
Proof.
  destruct args as [p c h rm]. unfold writeFileWithWrittenFilesCache.
  cbn [Args.filePath Args.content Args.documentHash Args.rmBeforeWrite].
  apply safe_bind.
  - destruct h; simpl; done.
  - intros upToDate. destruct (negb _ && upToDate); [done|].
    apply safe_bind; [destruct (default true rm); simpl; done|]. intros _.
    apply safe_bind; [simpl; done|]. intros _.
    destruct h as [h|]; [destruct (truthy h)|]; simpl; done.
Qed.

Lemma map_throwing_inr {A B : Type} (f : A → Defect + B) (xs : list A) (ys : list B) :
  map_throwing f xs = inr ys → Forall2 (fun x y => f x = inr y) xs ys.
Proof.
  revert ys. induction xs as [|x xs IH]; intros ys; simpl.
  - intros [= <-]. constructor.
  - destruct (f x) as [thrown|y] eqn:Hx; [discriminate|].
    destruct (map_throwing f xs) as [thrown|ys'] eqn:Hxs; [discriminate|].
    intros [= <-]. constructor; [done|]. by apply IH.
Qed.

Lemma safe_writeArtifact (a : Artifact.t) : defined a → safe (writeArtifact a).
Proof.
  intros [text Ht]. unfold writeArtifact. rewrite Ht. apply safe_writeFile.
Qed.

Lemma barrels_defined `{Imports} env targetPath typeNameField schemaDef cache barrels :
  dataBarrelFiles env targetPath typeNameField schemaDef cache = inr barrels →
  Forall defined barrels.
Proof.
  intros Hb%map_throwing_inr.
  induction Hb as [|docDef a defs barrels Ha _ IH]; constructor; [|exact IH].
  unfold dataBarrelFile in Ha.
  destruct (makeDataExportFile _ _ _); [discriminate|].
  injection Ha as <-. by eexists.
Qed.

Lemma individuals_defined targetPath typeNameField cache individuals :
  individualDataJsonFiles targetPath typeNameField cache = inr individuals →
  Forall defined individuals.
Proof.
  intros Hb%map_throwing_inr.
  induction Hb as [|item a items individuals Ha _ IH]; constructor; [|exact IH].
  unfold individualDataJsonFile in Ha.
  destruct (prop _ _) as [[]|]; try discriminate.
  injection Ha as <-. by eexists.
Qed.

Lemma collections_defined `{Imports} env targetPath typeNameField schemaDef cache barrels :
  dataBarrelFiles env targetPath typeNameField schemaDef cache = inr barrels →
  Forall defined (collectionDataJsonFiles targetPath typeNameField schemaDef cache).
Proof.
  intros Hb%map_throwing_inr. unfold collectionDataJsonFiles.
  induction Hb as [|docDef a defs barrels Ha _ IH]; simpl; constructor; [|exact IH].
  unfold dataBarrelFile, makeDataExportFile in Ha.
  unfold defined, collectionDataJsonFile. cbn [Artifact.content].
  destruct (isSingleton docDef); [|by eexists].
  destruct (documentsOfType typeNameField cache docDef) as [|d ds];
    [discriminate|]. by eexists.
Qed.

Lemma safe_writeBatch `{Imports} env config schemaDef targetPath generationOptions
    isDev barrels individuals collections :
  Forall defined barrels → Forall defined individuals → Forall defined collections →
  Forall safe
    (writeBatch env config schemaDef targetPath generationOptions isDev
                barrels individuals collections).
Proof.
  intros Hb Hi Hc.
  assert (∀ l : list Artifact.t, Forall defined l →
            Forall safe (List.map writeArtifact l)) as Hmap.
  { intros l Hl. induction Hl; simpl; constructor; [by apply safe_writeArtifact|done]. }
  unfold writeBatch.
  apply Forall_app; split.
  { repeat (apply Forall_cons; split; [apply safe_writeFile|]). constructor. }
  repeat (apply Forall_app; split; [by apply Hmap|]).
  apply Forall_singleton.
  destruct (enableDynamicBuild _); simpl; done.
Qed.

Lemma debugSnapshot_alive env schedules targetPath w :
  alive (fst (debugSnapshot env schedules targetPath w)).
Proof.
  unfold debugSnapshot, andThen.
  pose proof (run_alive env (call_ (Mkdirp (withPrefix targetPath [".cache"]))) w) as Hm.
  destruct (run env _ w) as [[[]|e|d0] w1]; simpl in *; [|done|by apply Hm].
  apply par_alive. repeat constructor.
Qed.

(** [writeFilesForCache] dies only when the synthesis of the barrel files
    or of the per-document files throws. *)
Lemma writeFilesForCache_dies_by_throw `{Imports} (env : Env)
    (schedules : Schedules) (config : Config) (cache : Cache)
    (schemaDef : SchemaDef) (targetPath : string)
    (generationOptions : GenerationOptions) (isDev : bool) (w w' : World)
    (d : Defect) :
  let typeNameField := typeFieldName (fieldOptions (options generationOptions)) in
  writeFilesForCache env schedules config cache schemaDef targetPath
                     generationOptions isDev w = (Died d, w') →
  dataBarrelFiles env targetPath typeNameField schemaDef cache = inl d
  ∨ individualDataJsonFiles targetPath typeNameField cache = inl d.
Proof.
  intros typeNameField. unfold writeFilesForCache, either, andThen, throwing.
  fold typeNameField.
  assert (alive (fst ((if CL_DEBUG env then debugSnapshot env schedules targetPath
                       else fun w1 => (Success (), w1)) w))) as Hdebug.
  { destruct (CL_DEBUG env); [apply debugSnapshot_alive|done]. }
  destruct ((if CL_DEBUG env then debugSnapshot env schedules targetPath
             else fun w1 => (Success (), w1)) w) as [[[]|e|d0] w1];
    simpl in Hdebug; [|intros [=]|done].
  destruct (dataBarrelFiles _ _ _ _ _) as [thrown|barrels] eqn:Hb;
    [intros [= -> _]; by left|].
  destruct (individualDataJsonFiles _ _ _) as [thrown|individuals] eqn:Hi;
    [intros [= -> _]; by right|].
  pose proof (par_alive env (mkdirSchedule schedules)
     (List.map (fun dir => call_ (Mkdirp dir))
        (withPrefix targetPath ["generated"] :: dataDirPaths targetPath schemaDef))
     w1) as Hmk.
  destruct (par env (mkdirSchedule schedules) _ w1) as [[[]|e|d1] w2];
    cbn [fst] in Hmk; [|intros [=]|].
  - pose proof (par_alive env (writeSchedule schedules) _ w2
       (safe_writeBatch env config schemaDef targetPath generationOptions isDev _ _ _
          (barrels_defined _ _ _ _ _ _ Hb) (individuals_defined _ _ _ _ Hi)
          (collections_defined _ _ _ _ _ _ Hb))) as Hw.
    destruct (par env (writeSchedule schedules) _ w2) as [[[]|e|d2] w3];
      cbn [fst] in Hw; [intros [=]..|done].
  - exfalso. apply Hmk. apply Forall_map_all. intros dir. simpl. done.
Qed.


Lemma map_throwing_throws {A B : Type} (f : A → Defect + B) (xs : list A)
    (x : A) (d : Defect) :
  x ∈ xs → (∀ y thrown, f y = inl thrown → thrown = d) → f x = inl d →
  map_throwing f xs = inl d.
Proof.
  intros Hin Hsame Hx. induction xs as [|y xs IH]; [by apply elem_of_nil in Hin|].
  cbn [map_throwing].
  destruct (f y) as [thrown|b] eqn:Hy.
  - by rewrite (Hsame _ _ Hy).
  - apply elem_of_cons in Hin as [->|Hin]; [congruence|].
    by rewrite (IH Hin).
Qed.

Lemma makeDataExportFile_throws_only `{Imports} docDef ids a thrown :
  makeDataExportFile docDef ids a = inl thrown → thrown = undefined_replace.
Proof.
  unfold makeDataExportFile.
  destruct (isSingleton docDef); [|discriminate].
  destruct (ids !! 0%nat); cbn [idToFileName_opt]; [discriminate|].
  by intros [= <-].
Qed.

(** C9, where the code leaves it. For a singleton type without a document
    in the cache the barrel file is not made: [makeDataExportFile] throws a
    [TypeError]; the content of the aggregate JSON artifact is [undefined],
    not a string; and [writeFilesForCache] dies of the [TypeError] before
    it has made a single call. *)
Theorem singleton_without_document_throws `{Imports} (env : Env)
    (schedules : Schedules) (config : Config) (cache : Cache)
    (schemaDef : SchemaDef) (targetPath : string)
    (generationOptions : GenerationOptions) (isDev : bool)
    (docDef : DocumentTypeDef) (w : World) :
  let typeNameField := typeFieldName (fieldOptions (options generationOptions)) in
  CL_DEBUG env = false →
  docDef ∈ documentDefs schemaDef →
  isSingleton docDef = true →
  documentsOfType typeNameField cache docDef = [] →
  makeDataExportFile docDef [] (assertStatement env) = inl undefined_replace
  ∧ Artifact.content (collectionDataJsonFile targetPath typeNameField cache docDef)
    = None
  ∧ writeFilesForCache env schedules config cache schemaDef targetPath
                       generationOptions isDev w
    = (Died undefined_replace, w).
Proof.
  intros typeNameField Hdebug Hin Hsingle Hnone.
  assert (makeDataExportFile docDef [] (assertStatement env) = inl undefined_replace)
    as Hthrow by (unfold makeDataExportFile; by rewrite Hsingle).
  split; [exact Hthrow|]. split.
  - unfold collectionDataJsonFile. cbn [Artifact.content].
    by rewrite Hsingle, Hnone.
  - assert (dataBarrelFiles env targetPath typeNameField schemaDef cache
            = inl undefined_replace) as Hbarrels.
    { unfold dataBarrelFiles.
      apply (map_throwing_throws _ _ docDef); [exact Hin| |].
      - intros y thrown. unfold dataBarrelFile.
        destruct (makeDataExportFile y _ _) eqn:Hy; [|discriminate].
        intros [= <-]. by apply makeDataExportFile_throws_only in Hy.
      - unfold dataBarrelFile. rewrite Hnone. cbn [List.map]. by rewrite Hthrow. }
    unfold writeFilesForCache, either, andThen. rewrite Hdebug.
    fold typeNameField. by rewrite Hbarrels.
Qed.

(* ===================================================================== *)
(** * 16. Cycles and the stream *)
(* ===================================================================== *)

(** A cycle never ends in a typed failure; what it emits fits its
    emission; it dies only when the synthesis throws or the success
    callback does. *)
Lemma cycle_outcome `{Imports} (env : Env) (schedules : Schedules)
    (config : Config) (isDev : bool) (schemaDef : SchemaDef)
    (targetPath : string) (emission : GenerationErrorOr Cache) (w : World) :
  match fst (cycle env schedules config isDev schemaDef targetPath emission w) with
  | Success outcome => outcome_of emission outcome
  | Failure impossible => False
  | Died d =>
      (∃ cache, emission = inr cache
                ∧ synthesis_throws env config schemaDef targetPath cache d)
      ∨ ¬ settles (onSuccess (Source.options (source config)))
  end.
Proof.
  assert (∀ callback path thrown,
            onSuccess (Source.options (source config)) = Some callback →
            callback path = Throws thrown →
            ¬ settles (onSuccess (Source.options (source config)))) as Hthrows.
  { intros callback path thrown Hcb Hc Hs. by eapply Hs. }
  unfold cycle, eitherRight, writeStage, callbackStage, andThen, successCallback.
  destruct emission as [error|cache].
  - destruct (onSuccess _) as [callback|] eqn:Hcb; [|simpl; eauto].
    destruct (callback _) eqn:Hc; simpl; eauto.
  - pose proof (writeFilesForCache_dies_by_throw env schedules config cache schemaDef
                  targetPath
                  {| sourcePluginType := Source.type (source config);
                     options := Source.options (source config) |} isDev w) as Hdies.
    destruct (writeFilesForCache _ _ _ _ _ _ _ _ w) as [[written|[]|d] w1].
    + destruct (onSuccess _) as [callback|] eqn:Hcb;
        [destruct (callback _) eqn:Hc|]; destruct written; simpl; eauto.
    + simpl. left. exists cache. split; [done|]. by eapply Hdies.
Qed.

(** ** Streams that are run *)

Lemma run_append_Done {A : Type} (s : S.t A) (w : World) :
  S.run (S.append s S.Done) w = S.run s w.
Proof.
  revert w. induction s as [|chunk rest IH|B task k IH]; intros w; simpl.
  - done.
  - by rewrite IH.
  - destruct (task w) as [[b|[]|d] w']; [apply IH|done].
Qed.

Lemma run_take_append_Done {A : Type} (n : nat) (s : S.t A) (w : World) :
  S.run (S.take n (S.append s S.Done)) w = S.run (S.take n s) w.
Proof.
  revert n w. induction s as [|chunk rest IH|B task k IH]; intros [|n] w; simpl;
    try done.
  - by rewrite IH.
  - destruct (task w) as [[b|[]|d] w']; [apply IH|done].
Qed.

(** A stream whose parameters are resolved at the first go is the stream
    of the two stages over the chunks of [fetchData]. *)
Lemma resolveParams_resolves `{Imports} (env : Env) (race : Race)
    (config : Config) (schemaDef : SchemaDef) (w : World) :
  let dirPath := getDirPath (cwd env) in
  Source.provideSchema (source config) (esbuildHash config) = inr schemaDef →
  fails w (length (trace w)) (Mkdirp dirPath) = false →
  resolveParams env race config w
  = (Success (inr (schemaDef, dirPath)), record (Mkdirp dirPath) w).
Proof.
  intros dirPath Hschema Hmade. unfold resolveParams, perform. fold dirPath.
  rewrite Hschema, Hmade. by destruct race.
Qed.

Lemma generateDotpkgStream_resolved `{Imports} (env : Env)
    (schedules : World → Schedules) (races : World → Race) (config : Config)
    (verbose isDev : bool) (schemaDef : SchemaDef) (w : World) :
  let dirPath := getDirPath (cwd env) in
  let w1 := record (Mkdirp dirPath) (set_writtenFilesCache ∅ w) in
  let cycles :=
    S.map element
      (stages env schedules config isDev schemaDef dirPath
              (Source.fetchData (source config) schemaDef verbose)) in
  Source.provideSchema (source config) (esbuildHash config) = inr schemaDef →
  fails w (length (trace w)) (Mkdirp dirPath) = false →
  S.run (generateDotpkgStream env schedules races config verbose isDev) w
  = S.run cycles w1
  ∧ ∀ n, S.run (S.take (S n)
                  (generateDotpkgStream env schedules races config verbose isDev)) w
         = S.run (S.take (S n) cycles) w1.
Proof.
  intros dirPath w1 cycles Hschema Hmade.
  pose proof (resolveParams_resolves env (races (set_writtenFilesCache ∅ w)) config
                schemaDef (set_writtenFilesCache ∅ w) Hschema Hmade) as Hr.
  fold dirPath w1 in Hr.
  unfold generateDotpkgStream, S.chainMapEitherRight, S.fromEffect.
  split; [|intros n]; cbn [S.run S.take S.chain]; rewrite Hr; cbn [foldr S.chain].
  - apply run_append_Done.
  - apply run_take_append_Done.
Qed.

(** A chunk through the two stages. *)
Lemma run_stages_cons `{Imports} (env : Env) (schedules : World → Schedules)
    (config : Config) (isDev : bool) (schemaDef : SchemaDef)
    (targetPath : string) (chunk : list (GenerationErrorOr Cache))
    (chunks : list (list (GenerationErrorOr Cache))) (w : World) :
  let first :=
    eitherRight (fun cache w =>
      writeStage env (schedules w) config isDev schemaDef targetPath cache w) in
  let rest := S.map element (stages env schedules config isDev schemaDef targetPath chunks) in
  S.run (S.map element
           (stages env schedules config isDev schemaDef targetPath (chunk :: chunks))) w
  = match forEach first chunk w with
    | (Success written, w1) =>
        match forEach (callbackStage env config) written w1 with
        | (Success outcomes, w2) => emit (List.map element outcomes) (S.run rest w2)
        | (Failure impossible, _) => match impossible with end
        | (Died d, w2) => ({| emitted := []; died := Some d |}, w2)
        end
    | (Failure impossible, _) => match impossible with end
    | (Died d, w1) => ({| emitted := []; died := Some d |}, w1)
    end.
Proof.
  intros first rest. unfold stages, S.mapEffectEitherRight. cbn [S.fromChunks foldr
    S.mapEffect S.map S.run]. fold first.
  destruct (forEach first chunk w) as [[written|[]|d] w1]; [|done].
  by destruct (forEach (callbackStage env config) written w1) as [[outcomes|[]|d] w2].
Qed.

(** A defect in the middle of a chunk. *)
Lemma forEach_dies {A B : Type} (f : A → Task Empty_set B) (before after : list A)
    (a : A) (mapped : list B) (d : Defect) (w w1 w2 : World) :
  forEach f before w = (Success mapped, w1) →
  f a w1 = (Died d, w2) →
  forEach f (before ++ a :: after) w = (Died d, w2).
Proof.
  revert mapped w. induction before as [|b before IH]; intros mapped w; simpl.
  - intros [= _ <-] Hdies. unfold andThen. by rewrite Hdies.
  - unfold andThen at 1 3. destruct (f b w) as [[b'|[]|d'] w'] eqn:Hb; [|done].
    unfold andThen at 1 2.
    destruct (forEach f before w') as [[mapped'|[]|d'] w''] eqn:Hrest; [|done].
    intros [= _ <-] Hdies. by rewrite (IH _ _ Hrest Hdies).
Qed.

(** C8, where the code leaves it. A defect ends the stream, and it takes
    outcomes with it. With the schema and the target directory resolved,
    let the synthesis of the artifacts of a cache throw, as it does for a
    singleton type that has no document, so that [writeFilesForCache]
    dies of the [TypeError]. Then the stream has died of it as well: the
    outcome of that cycle is not emitted; the outcomes of the emissions
    before it in its chunk, whose files are written by then, are not
    emitted either; and neither the emissions after it nor the success
    callback are ever worked on, the world being left as it was when the
    synthesis threw. *)
Theorem defect_of_a_cycle_ends_the_stream `{Imports} (env : Env)
    (schedules : World → Schedules) (races : World → Race) (config : Config)
    (verbose isDev : bool) (schemaDef : SchemaDef)
    (before after : list (GenerationErrorOr Cache)) (cache : Cache)
    (later : list (list (GenerationErrorOr Cache)))
    (written : list (GenerationErrorOr GenerateInfo)) (d : Defect)
    (w w2 w3 : World) :
  let dirPath := getDirPath (cwd env) in
  let generationOptions :=
    {| sourcePluginType := Source.type (source config);
       options := Source.options (source config) |} in
  let w1 := record (Mkdirp dirPath) (set_writtenFilesCache ∅ w) in
  Source.provideSchema (source config) (esbuildHash config) = inr schemaDef →
  fails w (length (trace w)) (Mkdirp dirPath) = false →
  Source.fetchData (source config) schemaDef verbose
  = (before ++ inr cache :: after) :: later →
  forEach (eitherRight (fun cache w =>
             writeStage env (schedules w) config isDev schemaDef dirPath cache w))
          before w1
  = (Success written, w2) →
  writeFilesForCache env (schedules w2) config cache schemaDef dirPath
                     generationOptions isDev w2
  = (Died d, w3) →
  S.run (generateDotpkgStream env schedules races config verbose isDev) w
  = ({| emitted := []; died := Some d |}, w3).
Proof.
  intros dirPath generationOptions w1 Hschema Hmade Hfetch Hbefore Hdies.
  rewrite (proj1 (generateDotpkgStream_resolved env schedules races config verbose
                    isDev schemaDef w Hschema Hmade)).
  fold dirPath w1. rewrite Hfetch, run_stages_cons.
  erewrite forEach_dies; [done|exact Hbefore|].
  unfold eitherRight, writeStage, andThen. fold generationOptions. by rewrite Hdies.
Qed.

Lemma invocations_app (t1 t2 : list Event) :
  invocations (t1 ++ t2) = invocations t1 + invocations t2.
Proof. unfold invocations. by rewrite List.filter_app, length_app. Qed.

Lemma invocations_none (P : Event → Prop) (t : list Event) :
  (∀ ev, P ev → is_OnSuccess ev = false) → Forall P t → invocations t = 0.
Proof.
  intros HP Ht. unfold invocations.
  induction Ht as [|ev t Hev _ IH]; simpl; [done|]. by rewrite (HP _ Hev).
Qed.

Lemma writeFilesForCache_invokes_nothing `{Imports} (env : Env)
    (schedules : Schedules) (config : Config) (cache : Cache)
    (schemaDef : SchemaDef) (targetPath : string)
    (generationOptions : GenerationOptions) (isDev : bool) (w : World) :
  let w' := snd (writeFilesForCache env schedules config cache schemaDef
                   targetPath generationOptions isDev w) in
  ∃ t, trace w' = trace w ++ t ∧ invocations t = 0.
Proof.
  destruct (writeFilesForCache_in_two_phases env schedules config cache
              schemaDef targetPath generationOptions isDev w)
    as (setup & batch & Ht & Hs & Hb).
  cbv zeta.
  exists (setup ++ batch). split; [done|].
  rewrite invocations_app.
  assert (invocations setup = 0) as ->.
  { eapply invocations_none; [|exact Hs]. by intros []. }
  assert (invocations batch = 0) as ->.
  { eapply invocations_none; [|exact Hb]. by intros []. }
  done.
Qed.

(** C4, where the code leaves it. With a success callback configured, a
    cycle that has already failed, because the emission of [fetchData] is
    a failure or because the write batch ended in one, still invokes the
    callback, exactly once, and then emits a failure, unless the callback
    throws at that invocation, which ends the cycle by a defect. *)
Theorem success_callback_runs_in_failed_cycle `{Imports} (env : Env)
    (schedules : Schedules) (config : Config) (isDev : bool)
    (schemaDef : SchemaDef) (targetPath : string)
    (callback : SuccessCallback) (w : World) :
  let modulePath := filePathJoin [getDirPath (cwd env); "generated"; "index.mjs"] in
  onSuccess (Source.options (source config)) = Some callback →
  (∀ error,
     let '(exit, w') :=
       cycle env schedules config isDev schemaDef targetPath (inl error) w in
     match callback modulePath with
     | Throws thrown => exit = Died thrown
     | _ => ∃ error', exit = Success (inl error')
     end
     ∧ invocations (events_since w w') = 1)
  ∧ (∀ cache error w1,
       writeFilesForCache env schedules config cache schemaDef targetPath
         {| sourcePluginType := Source.type (source config);
            options := Source.options (source config) |} isDev w
       = (Success (inl error), w1) →
       let '(exit, w') :=
         cycle env schedules config isDev schemaDef targetPath (inr cache) w in
       match callback modulePath with
       | Throws thrown => exit = Died thrown
       | _ => ∃ error', exit = Success (inl error')
       end
       ∧ invocations (events_since w w') = 1).
Proof.
  intros modulePath Hcb. split.
  - intros error.
    unfold cycle, eitherRight, writeStage, callbackStage, andThen, successCallback.
    rewrite Hcb. fold modulePath.
    destruct (callback modulePath); simpl; (split; [eauto|]);
      unfold events_since; simpl; by rewrite drop_app_length.
  - intros cache error w1 Hw.
    pose proof (writeFilesForCache_invokes_nothing env schedules config cache
                  schemaDef targetPath
                  {| sourcePluginType := Source.type (source config);
                     options := Source.options (source config) |} isDev w) as Hn.
    unfold cycle, eitherRight, writeStage, callbackStage, andThen, successCallback.
    rewrite Hw in *. rewrite Hcb. fold modulePath.
    cbn [snd] in Hn. destruct Hn as (t & Ht & Hzero).
    destruct (callback modulePath); simpl; (split; [eauto|]);
      unfold events_since; simpl; rewrite Ht, <- app_assoc, drop_app_length,
        invocations_app, Hzero; reflexivity.
Qed.


(** With a callback configured, every cycle that does not die in the
    write stage invokes it exactly once, whatever its emission and
    whatever the write batch did. *)
Lemma cycle_invokes_callback_once `{Imports} (env : Env)
    (schedules : Schedules) (config : Config) (isDev : bool)
    (schemaDef : SchemaDef) (targetPath : string)
    (callback : SuccessCallback) (emission : GenerationErrorOr Cache)
    (w : World) :
  onSuccess (Source.options (source config)) = Some callback →
  let '(exit, w') :=
    cycle env schedules config isDev schemaDef targetPath emission w in
  alive exit → invocations (events_since w w') = 1.
Proof.
  intros Hcb.
  unfold cycle, eitherRight, writeStage, callbackStage, andThen, successCallback.
  rewrite Hcb.
  destruct emission as [error|cache].
  - destruct (callback _); simpl; intros _;
      unfold events_since; simpl; by rewrite drop_app_length.
  - pose proof (writeFilesForCache_invokes_nothing env schedules config cache
                  schemaDef targetPath
                  {| sourcePluginType := Source.type (source config);
                     options := Source.options (source config) |} isDev w) as Hn.
    destruct (writeFilesForCache _ _ _ _ _ _ _ _ w) as [[written|[]|d] w1];
      [|simpl; done].
    cbn [snd] in Hn. destruct Hn as (t & Ht & Hzero).
    destruct (callback _); simpl; intros _;
      unfold events_since; simpl; rewrite Ht, <- app_assoc, drop_app_length,
        invocations_app, Hzero; reflexivity.
Qed.

(** Without a callback nothing is invoked. *)
Lemma cycle_without_callback `{Imports} (env : Env)
    (schedules : Schedules) (config : Config) (isDev : bool)
    (schemaDef : SchemaDef) (targetPath : string)
    (emission : GenerationErrorOr Cache) (w : World) :
  onSuccess (Source.options (source config)) = None →
  let '(_, w') :=
    cycle env schedules config isDev schemaDef targetPath emission w in
  ∃ t, trace w' = trace w ++ t ∧ invocations t = 0.
Proof.
  intros Hcb.
  unfold cycle, eitherRight, writeStage, callbackStage, andThen, successCallback.
  rewrite Hcb.
  destruct emission as [error|cache].
  - simpl. exists []. by rewrite app_nil_r.
  - pose proof (writeFilesForCache_invokes_nothing env schedules config cache
                  schemaDef targetPath
                  {| sourcePluginType := Source.type (source config);
                     options := Source.options (source config) |} isDev w) as Hn.
    destruct (writeFilesForCache _ _ _ _ _ _ _ _ w) as [[written|[]|d] w1];
      simpl; exact Hn.
Qed.

(** What a resolution adds to the trace: nothing, or the one [mkdirp]. *)
Lemma resolveParams_invokes_nothing `{Imports} (env : Env) (race : Race)
    (config : Config) (w : World) :
  let '(exit, w') := resolveParams env race config w in
  alive exit
  ∧ files w' = files w
  ∧ ∃ t, trace w' = trace w ++ t ∧ invocations t = 0.
Proof.
  unfold resolveParams, perform.
  assert (∃ t, trace w = trace w ++ t ∧ invocations t = 0) as Hnone
    by (exists []; by rewrite app_nil_r).
  assert (∃ t, trace (record (Mkdirp (getDirPath (cwd env))) w) = trace w ++ t
               ∧ invocations t = 0) as Hone by (by eexists).
  destruct (Source.provideSchema _ _) as [error|schemaDef]; destruct race;
    try destruct (fails w _ _); simpl; done.
Qed.

(** When the schema cannot be resolved there is no cycle: the stream emits
    one failure, and the callback is not invoked. *)
Lemma failed_resolution_invokes_nothing `{Imports} (env : Env)
    (schedules : World → Schedules) (races : World → Race) (config : Config)
    (verbose isDev : bool) (error : GenerateDotpkgError) (w : World) :
  Source.provideSchema (source config) (esbuildHash config) = inl error →
  let '(stream, w') :=
    S.run (generateDotpkgStream env schedules races config verbose isDev) w in
  (∃ error', emitted stream = [inl error']) ∧ died stream = None
  ∧ files w' = files w
  ∧ invocations (events_since w w') = 0.
Proof.
  intros Hs.
  unfold generateDotpkgStream, S.chainMapEitherRight, S.fromEffect.
  cbn [S.run S.chain].
  set (w0 := set_writtenFilesCache ∅ w).
  pose proof (resolveParams_invokes_nothing env (races w0) config w0) as H1.
  destruct (resolveParams env (races w0) config w0) as [[[error'|params]|[]|d] w1]
    eqn:Hr1; [| |by destruct H1].
  - cbn [foldr S.map S.fromEffect S.append S.run].
    pose proof (resolveParams_invokes_nothing env (races w1) config w1) as H2.
    destruct (resolveParams env (races w1) config w1) as [[[error''|params]|[]|d] w2]
      eqn:Hr2; [| |by destruct H2].
    + cbn. destruct H1 as (_ & Hf1 & t1 & Ht1 & Hz1).
      destruct H2 as (_ & Hf2 & t2 & Ht2 & Hz2).
      split; [by eexists|]. split; [done|]. split; [by rewrite Hf2, Hf1|].
      unfold events_since. rewrite Ht2, Ht1. change (trace w0) with (trace w).
      by rewrite <- app_assoc, drop_app_length, invocations_app, Hz1, Hz2.
    + exfalso. revert Hr2. unfold resolveParams. rewrite Hs.
      destruct (races w1); [done|destruct (perform _ _ _) as [[?|?|?] ?]; done..].
  - exfalso. revert Hr1. unfold resolveParams. rewrite Hs.
    destruct (races w0); [done|destruct (perform _ _ _) as [[?|?|?] ?]; done..].
Qed.

(* ===================================================================== *)
(** * 17. File names *)
(* ===================================================================== *)

Lemma all_chars_app (p : ascii → bool) (a b : string) :
  all_chars p (a +:+ b) = all_chars p a && all_chars p b.
Proof.
  induction a as [|c a IH]; [reflexivity|].
  change (p c && all_chars p (a +:+ b) = p c && all_chars p a && all_chars p b).
  by rewrite IH, andb_assoc.
Qed.

Lemma replace_char_free (c : ascii) (by_ s : string) :
  free_of c by_ = true → free_of c (Js.replace_char c by_ s) = true.
Proof.
  intros Hby. induction s as [|d s IH]; [reflexivity|].
  cbn [Js.replace_char]. destruct (Ascii.eqb d c) eqn:Hd.
  - unfold free_of in *. by rewrite all_chars_app, Hby, IH.
  - unfold free_of in *. cbn [all_chars]. by rewrite Hd, IH.
Qed.

Lemma replace_char_none (c : ascii) (by_ s : string) :
  free_of c s = true → Js.replace_char c by_ s = s.
Proof.
  induction s as [|d s IH]; [reflexivity|].
  unfold free_of in *. cbn [all_chars Js.replace_char].
  intros [Hd Hs]%andb_true_iff. apply negb_true_iff in Hd.
  by rewrite Hd, IH.
Qed.

Lemma idToFileName_fixed (s : string) :
  free_of "/" s = true → Js.starts_with_digit s = false → idToFileName s = s.
Proof.
  intros Hfree Hdigit. unfold idToFileName, leftPadWithUnderscoreIfStartsWithNumber.
  rewrite Hdigit. by apply replace_char_none.
Qed.

(** X1. The file name of an id is one path segment that no digit starts:
    whatever the id, [idToFileName] gives a string without a slash whose
    first character is no digit. *)
Theorem idToFileName_is_a_path_segment (id : string) :
  free_of "/" (idToFileName id) = true
  ∧ Js.starts_with_digit (idToFileName id) = false.
Proof.
  split; [by apply replace_char_free|].
  unfold idToFileName, leftPadWithUnderscoreIfStartsWithNumber.
  destruct (Js.starts_with_digit id) eqn:Hd; [reflexivity|].
  destruct id as [|c id]; [reflexivity|].
  cbn [Js.replace_char]. destruct (Ascii.eqb c "/"); [reflexivity|exact Hd].
Qed.

(** X2. [idToFileName] is idempotent: a file name is its own file name. *)
Theorem idToFileName_idempotent (id : string) :
  idToFileName (idToFileName id) = idToFileName id.
Proof.
  apply idToFileName_fixed.
  - by apply replace_char_free.
  - unfold idToFileName, leftPadWithUnderscoreIfStartsWithNumber.
    destruct (Js.starts_with_digit id) eqn:Hd; [reflexivity|].
    destruct id as [|c id]; [reflexivity|].
    cbn [Js.replace_char]. destruct (Ascii.eqb c "/"); [reflexivity|exact Hd].
Qed.

Lemma replace_slash_inj (a b : string) :
  free_of "_" a = true → free_of "_" b = true →
  Js.replace_char "/" "__" a = Js.replace_char "/" "__" b → a = b.
Proof.
  revert b. induction a as [|c a IH]; intros [|d b]; unfold free_of;
    cbn [all_chars Js.replace_char]; try done.
  - intros _ [Hd _]%andb_true_iff. apply negb_true_iff in Hd.
    destruct (Ascii.eqb_spec d "/") as [->|_]; [done|]. done.
  - intros [Hc _]%andb_true_iff _. apply negb_true_iff in Hc.
    destruct (Ascii.eqb_spec c "/") as [->|_]; [done|]. done.
  - intros [Hc Ha]%andb_true_iff [Hd Hb]%andb_true_iff.
    apply negb_true_iff in Hc, Hd.
    apply Ascii.eqb_neq in Hc, Hd.
    destruct (Ascii.eqb_spec c "/") as [->|Hc'];
      destruct (Ascii.eqb_spec d "/") as [->|Hd'].
    + intros [= Heq]. f_equal. by apply IH.
    + intros [= Heq _]. congruence.
    + intros [= Heq _]. congruence.
    + intros [= -> Heq]. f_equal. by apply IH.
Qed.

(** X3. Two ids without an underscore that differ have file names that
    differ: neither the underscore put before a digit nor the two
    underscores put for a slash can make them meet. *)
Theorem idToFileName_distinct_without_underscore (id1 id2 : string) :
  free_of "_" id1 = true → free_of "_" id2 = true →
  id1 ≠ id2 → idToFileName id1 ≠ idToFileName id2.
Proof.
  intros H1 H2 Hne Heq. apply Hne. clear Hne.
  unfold idToFileName, leftPadWithUnderscoreIfStartsWithNumber in Heq.
  destruct (Js.starts_with_digit id1) eqn:Hd1;
    destruct (Js.starts_with_digit id2) eqn:Hd2.
  - injection Heq as Heq. by apply replace_slash_inj.
  - exfalso. destruct id1 as [|c1 id1]; [done|]. destruct id2 as [|c2 id2]; [done|].
    cbn [Js.starts_with_digit] in Hd1, Hd2.
    unfold free_of in H1, H2. cbn [all_chars] in H1, H2.
    apply andb_true_iff in H1 as [Hc1 _]. apply andb_true_iff in H2 as [Hc2 _].
    apply negb_true_iff, Ascii.eqb_neq in Hc1, Hc2.
    change (String "_" (Js.replace_char "/" "__" (String c1 id1))
            = Js.replace_char "/" "__" (String c2 id2)) in Heq.
    cbn [Js.replace_char] in Heq.
    destruct (Ascii.eqb_spec c2 "/") as [->|_];
      destruct (Ascii.eqb_spec c1 "/") as [->|_];
      injection Heq as Heq; try congruence.
  - exfalso. destruct id1 as [|c1 id1]; [done|]. destruct id2 as [|c2 id2]; [done|].
    cbn [Js.starts_with_digit] in Hd1, Hd2.
    unfold free_of in H1, H2. cbn [all_chars] in H1, H2.
    apply andb_true_iff in H1 as [Hc1 _]. apply andb_true_iff in H2 as [Hc2 _].
    apply negb_true_iff, Ascii.eqb_neq in Hc1, Hc2.
    change (Js.replace_char "/" "__" (String c1 id1)
            = String "_" (Js.replace_char "/" "__" (String c2 id2))) in Heq.
    cbn [Js.replace_char] in Heq.
    destruct (Ascii.eqb_spec c2 "/") as [->|_];
      destruct (Ascii.eqb_spec c1 "/") as [->|_];
      injection Heq as Heq; try congruence.
  - by apply replace_slash_inj.
Qed.

(* ===================================================================== *)
(** * 18. Import names that are identifiers, and that differ *)
(* ===================================================================== *)

Lemma pretty_N_go_digits (x : N) (s : string) :
  all_chars Js.is_digit s = true → all_chars Js.is_digit (pretty_N_go x s) = true.
Proof.
  revert s. induction (N.lt_wf_0 x) as [x _ IH]; intros s Hs.
  assert (x = 0 ∨ 0 < x)%N as [->|Hpos] by lia; [by rewrite pretty_N_go_0|].
  rewrite pretty_N_go_step by done. apply IH; [by apply N.div_lt|].
  cbn [all_chars]. rewrite Hs, andb_true_r.
  unfold pretty_N_char. by repeat case_match.
Qed.

Lemma of_nat_digits (n : nat) : all_chars Js.is_digit (Js.of_nat n) = true.
Proof.
  unfold Js.of_nat, pretty, pretty_nat, pretty, pretty_N.
  case_decide; [reflexivity|]. by apply pretty_N_go_digits.
Qed.

Lemma all_chars_impl (p q : ascii → bool) (s : string) :
  (∀ c, p c = true → q c = true) → all_chars p s = true → all_chars q s = true.
Proof.
  intros Hpq. induction s as [|c s IH]; [done|]. cbn [all_chars].
  intros [Hc Hs]%andb_true_iff. by rewrite (Hpq c Hc), IH.
Qed.

(** A fall-back name is an identifier when the name of the type is. *)
Lemma fallback_name_valid (typeName : string) (i : nat) :
  isValidJsVarName typeName = true →
  isValidJsVarName (typeName +:+ Js.of_nat i) = true.
Proof.
  destruct typeName as [|c s]; [done|].
  change (String c s +:+ Js.of_nat i) with (String c (s +:+ Js.of_nat i)).
  unfold isValidJsVarName. intros [Hc Hall]%andb_true_iff.
  rewrite Hc. cbn [andb]. cbn [all_chars] in *.
  apply andb_true_iff in Hall as [Hc' Hs]. rewrite Hc'. cbn [andb].
  rewrite all_chars_app, Hs. cbn [andb].
  apply (all_chars_impl Js.is_digit); [|apply of_nat_digits].
  intros d ->. by rewrite orb_true_r.
Qed.

Lemma makeVariableName_valid (docDef : DocumentTypeDef) (used : gset string)
    (id : string) (i : nat) :
  isValidJsVarName (name docDef) = true →
  isValidJsVarName (makeVariableName docDef used id i) = true.
Proof.
  intros Hname. unfold makeVariableName.
  destruct (isValidJsVarName (CamelCase.camelCase _)) eqn:Hv; cbn [andb].
  - destruct (negb _); [exact Hv|by apply fallback_name_valid].
  - by apply fallback_name_valid.
Qed.

Lemma variableNames_valid (docDef : DocumentTypeDef) (used : gset string)
    (i : nat) (ids : list string) :
  isValidJsVarName (name docDef) = true →
  Forall (fun n => isValidJsVarName n = true)
         (List.map snd (variableNamePairs docDef used i ids)).
Proof.
  intros Hname. revert used i.
  induction ids as [|id ids IH]; intros used i; cbn [variableNamePairs List.map snd];
    constructor; [by apply makeVariableName_valid|apply IH].
Qed.

Lemma JsMap_set_values (P : string → Prop) key value (m : JsMap.t) :
  P value → Forall P (List.map snd m) → Forall P (List.map snd (JsMap.set key value m)).
Proof.
  intros Hv. induction m as [|[k v] m IH]; simpl; intros Hm.
  - by constructor.
  - apply Forall_cons in Hm as [Hk Hm].
    destruct (String.eqb k key); simpl; constructor; auto.
Qed.

Lemma JsMap_of_entries_values (P : string → Prop) (entries acc : JsMap.t) :
  Forall P (List.map snd entries) → Forall P (List.map snd acc) →
  Forall P (List.map snd
              (fold_left (fun m kv => JsMap.set (fst kv) (snd kv) m) entries acc)).
Proof.
  revert acc. induction entries as [|[k v] entries IH]; intros acc He Ha; simpl;
    [done|].
  simpl in He. apply Forall_cons in He as [Hv He].
  apply IH; [done|]. by apply JsMap_set_values.
Qed.

Lemma JsMap_get_value (P : string → Prop) key (m : JsMap.t) v :
  Forall P (List.map snd m) → JsMap.get key m = Some v → P v.
Proof.
  induction m as [|[k v'] m IH]; simpl; [done|].
  intros [Hk Hm]%Forall_cons. destruct (String.eqb k key); [by intros [= <-]|auto].
Qed.

Lemma JsMap_set_get key value (m : JsMap.t) key' :
  is_Some (JsMap.get key' m) ∨ key = key' →
  is_Some (JsMap.get key' (JsMap.set key value m)).
Proof.
  induction m as [|[k v] m IH]; simpl.
  - intros [[v Hv]| ->]; [discriminate Hv|]. rewrite String.eqb_refl. by eexists.
  - destruct (String.eqb_spec k key) as [->|Hne]; simpl.
    + destruct (String.eqb_spec key key'); [by eexists|].
      intros [?|?]; [done|congruence].
    + destruct (String.eqb_spec k key'); [by eexists|]. exact IH.
Qed.

Lemma JsMap_of_entries_get (entries acc : JsMap.t) key :
  is_Some (JsMap.get key acc) ∨ key ∈ List.map fst entries →
  is_Some (JsMap.get key
             (fold_left (fun m kv => JsMap.set (fst kv) (snd kv) m) entries acc)).
Proof.
  revert acc. induction entries as [|[k v] entries IH]; intros acc; simpl.
  - intros [?|Hin]; [done|]. by apply elem_of_nil in Hin.
  - intros [Hacc|Hin]; apply IH.
    + left. apply JsMap_set_get. by left.
    + apply elem_of_cons in Hin as [->|Hin]; [|by right].
      left. apply JsMap_set_get. by right.
Qed.

(** X4. When the name of a collection type is a JavaScript identifier,
    every name its barrel file imports under is one, and so is every name
    of its export list: the camel-cased file name is taken only if it is
    an identifier, and the fall-back name is the type name followed by
    digits. *)
Theorem import_names_are_identifiers (docDef : DocumentTypeDef)
    (documentIds : list string) :
  isValidJsVarName (name docDef) = true →
  Forall (fun n => isValidJsVarName n = true) (importNames docDef documentIds)
  ∧ Forall (fun n => isValidJsVarName n = true)
      (JsMap.values (JsMap.of_entries (variableNamePairs docDef ∅ 0 documentIds))).
Proof.
  intros Hname. unfold importNames, JsMap.of_entries, JsMap.values.
  pose proof (variableNamePairs_keys docDef ∅ 0 documentIds) as Hkeys.
  pose proof (JsMap_of_entries_values (fun n => isValidJsVarName n = true)
                (variableNamePairs docDef ∅ 0 documentIds) []
                (variableNames_valid docDef ∅ 0 documentIds Hname)
                (Forall_nil_2 _)) as Hvalues.
  split; [|exact Hvalues].
  apply Forall_forall. intros n Hin. apply list_elem_of_In, in_map_iff in Hin.
  destruct Hin as (id & <- & Hid%list_elem_of_In).
  destruct (JsMap_of_entries_get (variableNamePairs docDef ∅ 0 documentIds) [] id)
    as [v Hv]; [right; by rewrite Hkeys|].
  rewrite Hv. cbn [interpolate].
  exact (JsMap_get_value (fun n => isValidJsVarName n = true) id _ v Hvalues Hv).
Qed.

(** ** The first character of a camel-cased name *)

Lemma append_nil_r (s : string) : s +:+ "" = s.
Proof.
  induction s as [|c s IH]; [reflexivity|].
  change (String c (s +:+ "") = String c s). by rewrite IH.
Qed.

Lemma rev_app_append (s1 s2 : string) :
  String.rev_app s1 s2 = String.rev s1 +:+ s2.
Proof.
  unfold String.rev. revert s2.
  induction s1 as [|c s1 IH]; intros s2; [reflexivity|].
  cbn [String.rev_app]. rewrite (IH (String c s2)), (IH (String c "")).
  by rewrite append_assoc.
Qed.

Lemma rev_cons (c : ascii) (s : string) :
  String.rev (String c s) = String.rev s +:+ String c "".
Proof. unfold String.rev at 1. cbn [String.rev_app]. apply rev_app_append. Qed.

Lemma rev_snoc (s : string) (c : ascii) :
  String.rev (s +:+ String c "") = String c (String.rev s).
Proof.
  induction s as [|d s IH]; [reflexivity|].
  change (String d s +:+ String c "") with (String d (s +:+ String c "")).
  by rewrite !rev_cons, IH.
Qed.

Lemma drop_nuls_snoc (s : string) (c : ascii) :
  c ≠ CamelCase.nul →
  ∃ s', CamelCase.drop_nuls (s +:+ String c "") = s' +:+ String c "".
Proof.
  intros Hc. induction s as [|d s IH].
  - exists "". simpl. by destruct (Ascii.eqb_spec c CamelCase.nul).
  - change (String d s +:+ String c "") with (String d (s +:+ String c "")).
    cbn [CamelCase.drop_nuls]. destruct (Ascii.eqb d CamelCase.nul); [exact IH|].
    by exists (String d s).
Qed.

Lemma drop_nuls_head (s : string) :
  match CamelCase.drop_nuls s with
  | String c _ => c ≠ CamelCase.nul
  | EmptyString => True
  end.
Proof.
  induction s as [|c s IH]; [done|]. cbn [CamelCase.drop_nuls].
  by destruct (Ascii.eqb_spec c CamelCase.nul).
Qed.

Lemma trim_nuls_head (s : string) :
  match CamelCase.trim_nuls s with
  | String c _ => c ≠ CamelCase.nul
  | EmptyString => True
  end.
Proof.
  unfold CamelCase.trim_nuls. pose proof (drop_nuls_head s) as Hd.
  destruct (CamelCase.drop_nuls s) as [|c u]; [done|].
  rewrite rev_cons. destruct (drop_nuls_snoc (String.rev u) c Hd) as [s' ->].
  by rewrite rev_snoc.
Qed.

Lemma split_go_head (sep : ascii) (cur s : string) :
  ∃ q rest, Js.split_go sep cur s = (String.rev cur +:+ q) :: rest.
Proof.
  revert cur. induction s as [|c s IH]; intros cur; cbn [Js.split_go].
  - exists "", []. by rewrite append_nil_r.
  - destruct (Ascii.eqb c sep).
    + exists "", (Js.split_go sep "" s). by rewrite append_nil_r.
    + destruct (IH (String c cur)) as (q & rest & ->).
      exists (String c q), rest. by rewrite rev_cons, append_assoc.
Qed.

Lemma to_lower_not_upper (c : ascii) : Js.is_upper (Js.to_lower c) = false.
Proof.
  unfold Js.to_lower. destruct (Js.is_upper c) eqn:Hc; [|exact Hc].
  unfold Js.is_upper, Js.code in *.
  apply andb_true_iff in Hc as [Hlo%Nat.leb_le Hhi%Nat.leb_le].
  rewrite nat_ascii_embedding by lia.
  apply andb_false_iff. right. apply Nat.leb_gt. lia.
Qed.

Lemma join_empty_head (x : string) (l : list string) :
  ∃ tail, Js.join "" (x :: l) = x +:+ tail.
Proof.
  destruct l as [|y l]; cbn [Js.join].
  - exists "". by rewrite append_nil_r.
  - by eexists.
Qed.

(** No upper-case letter starts a camel-cased name. *)
Lemma camelCase_head (input : string) :
  match CamelCase.camelCase input with
  | String c _ => Js.is_upper c = false
  | EmptyString => True
  end.
Proof.
  unfold CamelCase.camelCase, Js.split.
  set (t := CamelCase.trim_nuls _). pose proof (trim_nuls_head
    (CamelCase.strip (CamelCase.split_upper_word (CamelCase.split_lower_upper input))))
    as Ht. fold t in Ht.
  destruct t as [|c t]; [done|].
  cbn [Js.split_go]. destruct (Ascii.eqb_spec c CamelCase.nul) as [->|_]; [done|].
  destruct (split_go_head CamelCase.nul (String c "") t) as (q & rest & ->).
  cbn [imap]. destruct (join_empty_head
    (CamelCase.camelCaseTransform (String.rev (String c "") +:+ q) 0)
    (imap ((fun index piece => CamelCase.camelCaseTransform piece index) ∘ S) rest))
    as [tail ->].
  change (String.rev (String c "") +:+ q) with (String c q).
  unfold CamelCase.camelCaseTransform. cbn [Nat.eqb].
  change (Js.toLowerCase (String c q))
    with (String (Js.to_lower c) (Js.toLowerCase q)).
  change (String ?a ?b +:+ ?d) with (String a (b +:+ d)).
  apply to_lower_not_upper.
Qed.

Lemma import_names_are_variable_names (docDef : DocumentTypeDef)
    (documentIds : list string) :
  NoDup documentIds →
  importNames docDef documentIds = variableNames docDef ∅ 0 documentIds.
Proof.
  intros Hids. unfold importNames, JsMap.of_entries.
  pose proof (variableNamePairs_keys docDef ∅ 0 documentIds) as Hkeys.
  rewrite (JsMap_of_entries_distinct _ []) by (simpl; by rewrite Hkeys).
  cbn [app].
  pose proof (JsMap_get_distinct (variableNamePairs docDef ∅ 0 documentIds)) as Hget.
  rewrite Hkeys in Hget. by rewrite (Hget Hids).
Qed.

(** X5. For a collection type whose name starts with an upper-case letter
    the names its barrel file imports distinct ids under are pairwise
    distinct: no camel-cased name starts with an upper-case letter, so
    none can be a fall-back name of the type. *)
Theorem import_names_distinct_for_capitalised_type (docDef : DocumentTypeDef)
    (documentIds : list string) :
  capitalised (name docDef) = true →
  NoDup documentIds →
  NoDup (importNames docDef documentIds).
Proof.
  intros Hupper Hids. rewrite import_names_are_variable_names by exact Hids.
  apply (variableNames_fresh_and_distinct docDef ∅ 0 documentIds).
  - intros k _ _. apply not_elem_of_empty.
  - intros j k id _ _ _ Heq.
    pose proof (camelCase_head (idToFileName id)) as Hhead.
    rewrite Heq in Hhead. destruct (name docDef) as [|c s]; [done|].
    cbn [capitalised] in Hupper.
    change (String c s +:+ ?d) with (String c (s +:+ d)) in Hhead. congruence.
Qed.

(* ===================================================================== *)
(** * 19. Manifests of schemas that differ *)
(* ===================================================================== *)

(** What [Json.escape] writes for a character reads back as that
    character. *)
Lemma unescape_escape_char (c : ascii) (rest : string) :
  unescape_head (Json.escape_char c +:+ rest) = Some (c, rest).
Proof. by destruct c as [[] [] [] [] [] [] [] []]. Qed.

Lemma escape_inj_before_quote (s1 s2 r1 r2 : string) :
  Json.escape s1 +:+ Json.dquote +:+ r1 = Json.escape s2 +:+ Json.dquote +:+ r2 →
  s1 = s2.
Proof.
  revert s2. induction s1 as [|c1 s1 IH]; intros [|c2 s2]; cbn [Json.escape].
  - done.
  - intros Heq. exfalso. pose proof Heq as Heq'.
    rewrite append_assoc in Heq. apply (f_equal unescape_head) in Heq.
    rewrite unescape_escape_char in Heq. cbn in Heq. injection Heq as <- _.
    discriminate Heq'.
  - intros Heq. exfalso. pose proof Heq as Heq'.
    rewrite append_assoc in Heq. apply (f_equal unescape_head) in Heq.
    rewrite unescape_escape_char in Heq. cbn in Heq. injection Heq as -> _.
    discriminate Heq'.
  - intros Heq. rewrite !append_assoc in Heq.
    apply (f_equal unescape_head) in Heq.
    rewrite !unescape_escape_char in Heq. injection Heq as -> Heq.
    f_equal. by apply IH.
Qed.

Lemma makePackageJson_text (h : string) :
  makePackageJson h
  = manifest_prefix +:+ Json.quote ("0.0.0-" +:+ h) +:+ manifest_suffix.
Proof.
  unfold makePackageJson, packageJson, manifest_prefix, manifest_suffix.
  cbn -[Json.quote String.append].
  generalize (Json.quote ("0.0.0-" +:+ h)) as q. intros q.
  rewrite !append_assoc. reflexivity.
Qed.

(** X6. Two schema hashes that differ give manifests that differ, whatever
    characters the hashes are made of. *)
Theorem makePackageJson_tells_schemas_apart (h1 h2 : string) :
  h1 ≠ h2 → makePackageJson h1 ≠ makePackageJson h2.
Proof.
  intros Hne Heq. apply Hne. rewrite !makePackageJson_text in Heq.
  apply (inj (String.app manifest_prefix)) in Heq.
  unfold Json.quote in Heq. rewrite !append_assoc in Heq.
  apply (inj (String.app Json.dquote)) in Heq.
  apply escape_inj_before_quote in Heq.
  by apply (inj (String.app "0.0.0-")) in Heq.
Qed.

(* ===================================================================== *)
(** * 20. Synthesis: when it succeeds, where its files go *)
(* ===================================================================== *)

Lemma map_throwing_total {A B : Type} (f : A → Defect + B) (xs : list A) :
  (∀ x, x ∈ xs → ∃ y, f x = inr y) → ∃ ys, map_throwing f xs = inr ys.
Proof.
  induction xs as [|x xs IH]; intros Hall; cbn [map_throwing]; [by eexists|].
  destruct (Hall x) as [y ->]; [left|].
  destruct IH as [ys ->]; [|by eexists]. intros x' Hx'. apply Hall. by right.
Qed.

Lemma well_formed_synthesis `{Imports} env targetPath typeNameField schemaDef cache :
  well_formed typeNameField schemaDef cache →
  (∃ barrels,
     dataBarrelFiles env targetPath typeNameField schemaDef cache = inr barrels)
  ∧ (∃ individuals,
       individualDataJsonFiles targetPath typeNameField cache = inr individuals).
Proof.
  intros [Hsingle Htyped]. split.
  - apply map_throwing_total. intros docDef Hin.
    unfold dataBarrelFile, makeDataExportFile.
    destruct (isSingleton docDef) eqn:Hs; [|by eexists].
    specialize (Hsingle docDef Hin Hs).
    destruct (documentsOfType typeNameField cache docDef) as [|d ds]; [done|].
    cbn [List.map lookup list_lookup idToFileName_opt]. by eexists.
  - apply map_throwing_total. intros item Hin.
    unfold individualDataJsonFile. destruct (Htyped item Hin) as [typeName ->].
    by eexists.
Qed.

(** X7. Whatever the schedules and whatever the calls do, when every
    singleton type has a document in the cache and the type of every
    document is a string, [writeFilesForCache] does not die: it gives a
    [Left] or a [Right]. *)
Theorem well_formed_cache_never_crashes `{Imports} (env : Env)
    (schedules : Schedules) (config : Config) (cache : Cache)
    (schemaDef : SchemaDef) (targetPath : string)
    (generationOptions : GenerationOptions) (isDev : bool) (w : World) :
  well_formed (typeFieldName (fieldOptions (options generationOptions)))
              schemaDef cache →
  let '(exit, _) :=
    writeFilesForCache env schedules config cache schemaDef targetPath
                       generationOptions isDev w in
  ∃ result, exit = Success result.
Proof.
  intros Hwf.
  destruct (well_formed_synthesis env targetPath _ schemaDef cache Hwf)
    as [[barrels Hb] [individuals Hi]].
  pose proof (writeFilesForCache_dies_by_throw env schedules config cache schemaDef
                targetPath generationOptions isDev w) as Hdies.
  destruct (writeFilesForCache _ _ _ _ _ _ _ _ w) as [[result|[]|d] w'];
    [by eexists|].
  destruct (Hdies w' d eq_refl) as [Hd|Hd]; congruence.
Qed.

Lemma join_empty (l : list string) :
  Forall (fun s => s = "") l → Js.join "" l = "".
Proof.
  induction 1 as [|s l -> _ IH]; [done|]. cbn [Js.join]. destruct l; [done|].
  by rewrite IH.
Qed.

(** X8. The fingerprint of an aggregate file is put together from the
    property [documentHash] of the documents themselves, not from the
    fingerprints of the cache items: when no document of the type has such
    a property, the fingerprint is the empty string, however many
    documents there are and whatever the fingerprints of their cache items
    are. *)
Theorem aggregate_fingerprint_without_document_property (targetPath : string)
    (typeNameField : string) (cache : Cache) (documentDef : DocumentTypeDef) :
  (∀ d, d ∈ documentsOfType typeNameField cache documentDef →
        prop d "documentHash" = None) →
  Artifact.documentHash
    (collectionDataJsonFile targetPath typeNameField cache documentDef) = Some "".
Proof.
  intros Hnone. unfold collectionDataJsonFile. cbn [Artifact.documentHash].
  f_equal. apply join_empty.
  induction (documentsOfType typeNameField cache documentDef) as [|d ds IH];
    [constructor|].
  cbn [List.map]. constructor.
  - rewrite (Hnone d); [done|left].
  - apply IH. intros d' Hd'. apply Hnone. by right.
Qed.

Lemma withPrefix_in_type (targetPath typeName file : string) :
  withPrefix targetPath ["generated"; typeName; file]
  = withPrefix targetPath ["generated"; typeName] +:+ "/" +:+ file.
Proof.
  unfold withPrefix, filePathJoin. cbn [Js.join].
  by rewrite !append_assoc.
Qed.

Lemma map_throwing_elem {A B : Type} (f : A → Defect + B) (xs : list A)
    (ys : list B) (y : B) :
  map_throwing f xs = inr ys → y ∈ ys → ∃ x, x ∈ xs ∧ f x = inr y.
Proof.
  intros Hm%map_throwing_inr Hy.
  induction Hm as [|x y' xs ys Hx _ IH]; [by apply elem_of_nil in Hy|].
  apply elem_of_cons in Hy as [->|Hy].
  - exists x. split; [left|done].
  - destruct (IH Hy) as (x' & Hin & Hx'). exists x'. split; [by right|done].
Qed.

(** X9. Every artifact of a document type, its barrel file, its aggregate
    file and the file of each of its documents, is written directly into
    the directory of the type, one of the directories the directory batch
    makes: the path is that directory, a slash, and a file name without a
    slash, whatever slashes the id of the document has. *)
Theorem type_artifacts_lie_in_the_made_directories `{Imports} (env : Env)
    (targetPath typeNameField : string) (schemaDef : SchemaDef) (cache : Cache) :
  (∀ item, item ∈ allCacheItems cache →
     ∃ docDef, docDef ∈ documentDefs schemaDef
               ∧ prop (document item) typeNameField = Some (JStr (name docDef))) →
  ∀ a,
    a ∈ synthesised (dataBarrelFiles env targetPath typeNameField schemaDef cache)
        ++ synthesised (individualDataJsonFiles targetPath typeNameField cache)
        ++ collectionDataJsonFiles targetPath typeNameField schemaDef cache →
    ∃ dir file,
      dir ∈ dataDirPaths targetPath schemaDef
      ∧ Artifact.filePath a = dir +:+ "/" +:+ file
      ∧ free_of "/" file = true.
Proof.
  intros Htyped a Ha.
  assert (∀ docDef, docDef ∈ documentDefs schemaDef →
            withPrefix targetPath ["generated"; name docDef]
            ∈ dataDirPaths targetPath schemaDef) as Hdir.
  { intros docDef Hin. unfold dataDirPaths.
    apply list_elem_of_In, (in_map (fun d => withPrefix targetPath ["generated"; name d])).
    by apply list_elem_of_In. }
  apply elem_of_app in Ha as [Ha|Ha]; [|apply elem_of_app in Ha as [Ha|Ha]].
  - destruct (dataBarrelFiles _ _ _ _ _) as [thrown|barrels] eqn:Hb;
      [by apply elem_of_nil in Ha|].
    destruct (map_throwing_elem _ _ _ a Hb Ha) as (docDef & Hin & Hmade).
    unfold dataBarrelFile in Hmade.
    destruct (makeDataExportFile _ _ _); [done|]. injection Hmade as <-.
    exists (withPrefix targetPath ["generated"; name docDef]), "_index.mjs".
    split; [by apply Hdir|]. split; [apply withPrefix_in_type|reflexivity].
  - destruct (individualDataJsonFiles _ _ _) as [thrown|individuals] eqn:Hi;
      [by apply elem_of_nil in Ha|].
    destruct (map_throwing_elem _ _ _ a Hi Ha) as (item & Hin & Hmade).
    unfold individualDataJsonFile in Hmade.
    destruct (Htyped item Hin) as (docDef & Hdef & Htype). rewrite Htype in Hmade.
    injection Hmade as <-.
    exists (withPrefix targetPath ["generated"; name docDef]),
           (idToFileName (_id (document item)) +:+ ".json").
    split; [by apply Hdir|]. split; [apply withPrefix_in_type|].
    unfold free_of. rewrite all_chars_app.
    apply andb_true_iff. split; [by apply replace_char_free|reflexivity].
  - unfold collectionDataJsonFiles in Ha.
    apply list_elem_of_In, in_map_iff in Ha as (docDef & <- & Hin%list_elem_of_In).
    exists (withPrefix targetPath ["generated"; name docDef]), "_index.json".
    split; [by apply Hdir|]. split; [apply withPrefix_in_type|reflexivity].
Qed.

(* ===================================================================== *)
(** * 21. What a generation leaves alone *)
(* ===================================================================== *)

(** Whatever the schedule, a relation between worlds that every call in
    [P] and every cache entry in [Q] keeps is kept by a batch of fibers
    that make only such calls and put only such entries. *)
Section Preserved.
Variable env : Env.
Variable P : Event → Prop.
Variable Q : string → string → Prop.
Variable R : World → World → Prop.
Hypothesis R_refl : ∀ w, R w w.
Hypothesis R_trans : ∀ w1 w2 w3, R w1 w2 → R w2 w3 → R w1 w3.
Hypothesis R_perform : ∀ ev w, P ev → R w (snd (perform env ev w)).
Hypothesis R_put : ∀ p h w,
  Q p h → R w (set_writtenFilesCache (<[p := h]> (writtenFilesCache w)) w).

Lemma acts_bind {A B} (m : Eff A) (f : A → Eff B) :
  acts P Q m → (∀ a, acts P Q (f a)) → acts P Q (m ≫= f).
Proof.
  intros Hm Hf. change (acts P Q (bind m f)).
  induction m as [a|e|d|p k IH|p h k IH|ev k IH]; cbn [bind acts] in *; auto.
  - destruct Hm as [Hq Hk]. auto.
  - destruct Hm as [Hev Hk]. split; [done|]. intros r. by apply IH.
Qed.

Lemma run_sync_preserved {A} (e : Eff A) w :
  acts P Q e → acts P Q (fst (run_sync e w)) ∧ R w (snd (run_sync e w)).
Proof.
  revert w. induction e as [a|e|d|p k IH|p h k IH|ev k IH]; intros w Ha; simpl; auto.
  destruct Ha as [Hq Hk].
  destruct (IH (set_writtenFilesCache (<[p:=h]> (writtenFilesCache w)) w) Hk)
    as [IH1 IH2].
  split; [exact IH1|]. eapply R_trans; [by apply R_put|exact IH2].
Qed.

Lemma step_preserved {A} (e : Eff A) w :
  acts P Q e → acts P Q (fst (step env e w)) ∧ R w (snd (step env e w)).
Proof.
  intros Ha. destruct e as [a|e|d|p k|p h k|ev k];
    try (unfold step; by apply run_sync_preserved).
  destruct Ha as [Hev Hk]. unfold step.
  pose proof (R_perform ev w Hev) as Hp.
  destruct (perform env ev w) as [[r|err|d] w']; simpl in *; [|done..].
  destruct (run_sync_preserved (k r) w' (Hk r)) as [H1 H2].
  split; [exact H1|]. by eapply R_trans.
Qed.

Lemma run_preserved {A} (e : Eff A) w : acts P Q e → R w (snd (run env e w)).
Proof.
  revert w. induction e as [a|e|d|p k IH|p h k IH|ev k IH]; intros w Ha; simpl; auto.
  - destruct Ha as [Hq Hk]. eapply R_trans; [by apply R_put|by apply IH].
  - destruct Ha as [Hev Hk].
    pose proof (R_perform ev w Hev) as Hp.
    destruct (perform env ev w) as [[r|err|d] w']; simpl in *; [|done..].
    eapply R_trans; [exact Hp|]. by apply IH.
Qed.

Lemma fork_preserved fibers w :
  Forall (acts P Q) fibers →
  Forall (acts P Q) (fst (fork fibers w)) ∧ R w (snd (fork fibers w)).
Proof.
  revert w. induction fibers as [|e rest IH]; intros w Hall; simpl; [done|].
  apply Forall_cons in Hall as [He Hrest].
  destruct (run_sync_preserved e w He) as [H1 H2].
  destruct (run_sync e w) as [e' w']. simpl in *.
  destruct (IH w' Hrest) as [H3 H4].
  destruct (fork rest w') as [rest' w'']. simpl in *.
  split; [by apply Forall_cons|by eapply R_trans].
Qed.

Lemma run_all_preserved fibers w :
  Forall (acts P Q) fibers → R w (snd (run_all env fibers w)).
Proof.
  revert w. induction fibers as [|e rest IH]; intros w Hall; simpl; [done|].
  apply Forall_cons in Hall as [He Hrest].
  pose proof (run_preserved e w He) as Hr.
  destruct (run env e w) as [[[]|err|d] w']; simpl in *; [|done..].
  eapply R_trans; [exact Hr|]. by apply IH.
Qed.

Lemma par_loop_preserved schedule fibers w :
  Forall (acts P Q) fibers → R w (snd (par_loop env schedule fibers w)).
Proof.
  revert fibers w. induction schedule as [|i schedule IH]; intros fibers w Hall;
    simpl; [by apply run_all_preserved|].
  destruct (fibers !! i) as [e|] eqn:Hi; [|by apply IH].
  assert (acts P Q e) as He by (eapply Forall_lookup_1; eauto).
  destruct (step_preserved e w He) as [H1 H2].
  destruct (step env e w) as [e' w']. simpl in *.
  assert (R w (snd (par_loop env schedule (<[i:=e']> fibers) w'))) as Hgo.
  { eapply R_trans; [exact H2|]. apply IH. by apply Forall_insert. }
  destruct e'; simpl; done.
Qed.

Lemma par_preserved schedule fibers w :
  Forall (acts P Q) fibers → R w (snd (par env schedule fibers w)).
Proof.
  intros Hall. unfold par.
  destruct (fork_preserved fibers w Hall) as [H1 H2].
  destruct (fork fibers w) as [forked w']. simpl in *.
  destruct (first_failed forked); [done|].
  eapply R_trans; [exact H2|]. by apply par_loop_preserved.
Qed.

Lemma andThen_preserved {E A B : Type} (m : Task E A) (f : A → Task E B) w :
  R w (snd (m w)) → (∀ a w1, R w1 (snd (f a w1))) → R w (snd (andThen m f w)).
Proof.
  intros Hm Hf. unfold andThen. destruct (m w) as [[a|e|d] w1]; simpl in *; try done.
  eapply R_trans; [exact Hm|apply Hf].
Qed.

Lemma either_preserved {E A : Type} (m : Task E A) w :
  R w (snd (m w)) → R w (snd (either m w)).
Proof. unfold either. by destruct (m w) as [[a|e|d] w1]. Qed.

Lemma throwing_preserved {A : Type} (r : Defect + A) w : R w (snd (throwing r w)).
Proof. unfold throwing. by destruct r. Qed.

Lemma acts_setup (ev : Event) :
  P ev → acts P Q (call_ ev).
Proof. intros Hev. simpl. done. Qed.

Lemma debugSnapshot_preserved schedules targetPath w :
  (∀ ev, is_setup ev = true → P ev) →
  R w (snd (debugSnapshot env schedules targetPath w)).
Proof.
  intros Hsetup. unfold debugSnapshot. apply andThen_preserved.
  - apply run_preserved, acts_setup, Hsetup. reflexivity.
  - intros _ w1. apply par_preserved.
    repeat (constructor; [apply acts_setup, Hsetup; reflexivity|]). constructor.
Qed.

(** [writeFilesForCache] keeps the relation when the calls of the set-up
    and the members of the write batch do. *)
Lemma writeFilesForCache_preserved `{Imports} (schedules : Schedules)
    (config : Config) (cache : Cache) (schemaDef : SchemaDef)
    (targetPath : string) (generationOptions : GenerationOptions)
    (isDev : bool) (w : World) :
  let typeNameField := typeFieldName (fieldOptions (options generationOptions)) in
  (∀ ev, is_setup ev = true → P ev) →
  (∀ barrels individuals,
     dataBarrelFiles env targetPath typeNameField schemaDef cache = inr barrels →
     individualDataJsonFiles targetPath typeNameField cache = inr individuals →
     Forall (acts P Q)
       (writeBatch env config schemaDef targetPath generationOptions isDev
          barrels individuals
          (collectionDataJsonFiles targetPath typeNameField schemaDef cache))) →
  R w (snd (writeFilesForCache env schedules config cache schemaDef targetPath
                               generationOptions isDev w)).
Proof.
  intros typeNameField Hsetup Hbatch. unfold writeFilesForCache.
  apply either_preserved, andThen_preserved.
  { destruct (CL_DEBUG env); [by apply debugSnapshot_preserved|apply R_refl]. }
  intros _ w1. cbv zeta. fold typeNameField. unfold andThen, throwing.
  destruct (dataBarrelFiles env targetPath typeNameField schemaDef cache)
    as [thrown|barrels] eqn:Hb; [apply R_refl|].
  destruct (individualDataJsonFiles targetPath typeNameField cache)
    as [thrown|individuals] eqn:Hi; [apply R_refl|].
  change (R w1 (snd (andThen
    (par env (mkdirSchedule schedules)
       (List.map (fun dir => call_ (Mkdirp dir))
          (withPrefix targetPath ["generated"] :: dataDirPaths targetPath schemaDef)))
    (fun _ => par env (writeSchedule schedules)
       (writeBatch env config schemaDef targetPath generationOptions isDev
          barrels individuals
          (collectionDataJsonFiles targetPath typeNameField schemaDef cache))) w1))).
  apply andThen_preserved.
  - apply par_preserved, Forall_map_all. intros dir. by apply acts_setup, Hsetup.
  - intros _ w2. by apply par_preserved, Hbatch.
Qed.

End Preserved.

Lemma same_outside_refl paths w : same_outside paths w w.
Proof. by intros q _. Qed.

Lemma same_outside_trans paths w1 w2 w3 :
  same_outside paths w1 w2 → same_outside paths w2 w3 → same_outside paths w1 w3.
Proof.
  intros H12 H23 q Hq. destruct (H12 q Hq) as [A B], (H23 q Hq) as [C D].
  split; congruence.
Qed.

Lemma same_outside_perform env paths ev w :
  writes_within paths ev → same_outside paths w (snd (perform env ev w)).
Proof.
  intros Hev q Hq. unfold perform. destruct (fails w _ ev); [done|].
  destruct ev; simpl in *; try done.
  - split; [|done]. apply lookup_delete_ne. by intros ->.
  - split; [|done]. apply lookup_insert_ne. by intros ->.
Qed.

Lemma same_outside_put paths p h w :
  p ∈ paths →
  same_outside paths w (set_writtenFilesCache (<[p := h]> (writtenFilesCache w)) w).
Proof.
  intros Hp q Hq. split; [done|]. simpl. apply lookup_insert_ne. by intros ->.
Qed.

Lemma acts_writeFile (paths : list string) (args : Args.t) :
  Args.filePath args ∈ paths →
  acts (writes_within paths) (fun p _ => p ∈ paths)
       (writeFileWithWrittenFilesCache args).
Proof.
  intros Hp. destruct args as [p c h rm]. unfold writeFileWithWrittenFilesCache.
  cbn [Args.filePath Args.content Args.documentHash Args.rmBeforeWrite] in *.
  change (acts ?P ?Q (?m ≫= ?f)) with (acts P Q (bind m f)).
  destruct h as [h|]; destruct rm as [[|]|]; simpl; intros;
    repeat (case_match; simpl); auto.
Qed.

Lemma acts_writeArtifact (paths : list string) (a : Artifact.t) :
  Artifact.filePath a ∈ paths →
  acts (writes_within paths) (fun p _ => p ∈ paths) (writeArtifact a).
Proof.
  intros Hp. unfold writeArtifact.
  destruct (Artifact.content a); [by apply acts_writeFile|done].
Qed.

Lemma acts_writeBatch `{Imports} env config schemaDef targetPath generationOptions
    isDev barrels individuals collections :
  let paths :=
    List.map Artifact.filePath
      (batchArtifacts env config schemaDef targetPath generationOptions isDev
                      barrels individuals collections) in
  Forall (acts (writes_within paths) (fun p _ => p ∈ paths))
    (writeBatch env config schemaDef targetPath generationOptions isDev
                barrels individuals collections).
Proof.
  intros paths.
  assert (∀ l : list Artifact.t,
            (∀ a, a ∈ l → Artifact.filePath a ∈ paths) →
            Forall (acts (writes_within paths) (fun p _ => p ∈ paths))
                   (List.map writeArtifact l)) as Hmap.
  { intros l Hl. induction l as [|a l IH]; simpl; constructor.
    - apply acts_writeArtifact, Hl. left.
    - apply IH. intros b Hb. apply Hl. by right. }
  assert (∀ a, a ∈ batchArtifacts env config schemaDef targetPath generationOptions
                     isDev barrels individuals collections →
               Artifact.filePath a ∈ paths) as Hin.
  { intros a Ha. subst paths. apply list_elem_of_In, in_map. by apply list_elem_of_In. }
  unfold batchArtifacts, namedArtifacts in Hin. unfold writeBatch.
  apply Forall_app; split.
  { repeat (apply Forall_cons; split;
            [apply acts_writeFile;
             match goal with
             | |- Args.filePath ?args ∈ _ =>
                 apply (Hin {| Artifact.content := Some (Args.content args);
                               Artifact.filePath := Args.filePath args;
                               Artifact.documentHash := None |})
             end; rewrite elem_of_app; left; rewrite !elem_of_cons; tauto|]).
    constructor. }
  repeat (apply Forall_app; split;
          [apply Hmap; intros a Ha; apply Hin; rewrite !elem_of_app; tauto|]).
  apply Forall_singleton. destruct (enableDynamicBuild _); simpl; done.
Qed.

Lemma writeFilesForCache_same_outside `{Imports} (env : Env)
    (schedules : Schedules) (config : Config) (cache : Cache)
    (schemaDef : SchemaDef) (targetPath : string)
    (generationOptions : GenerationOptions) (isDev : bool) (w : World) :
  same_outside
    (List.map Artifact.filePath
       (artifactsOf env config cache schemaDef targetPath generationOptions isDev))
    w
    (snd (writeFilesForCache env schedules config cache schemaDef targetPath
                             generationOptions isDev w)).
Proof.
  set (paths := List.map Artifact.filePath _).
  apply (writeFilesForCache_preserved env (writes_within paths)
           (fun p _ => p ∈ paths) (same_outside paths)
           (same_outside_refl paths) (same_outside_trans paths)
           (same_outside_perform env paths) (fun p h w => same_outside_put paths p h w)).
  - by intros [].
  - intros barrels individuals Hb Hi. subst paths. unfold artifactsOf.
    rewrite Hb, Hi. apply acts_writeBatch.
Qed.

(** X10. Whatever the schedules and whatever the outcome, a
    [writeFilesForCache] leaves every file and every entry of the
    written-files cache alone whose path is not the path of an artifact of
    this schema and this cache: no file of an earlier generation is
    removed, and none is refreshed. *)
Theorem generation_touches_only_its_artifacts `{Imports} (env : Env)
    (schedules : Schedules) (config : Config) (cache : Cache)
    (schemaDef : SchemaDef) (targetPath : string)
    (generationOptions : GenerationOptions) (isDev : bool) (w : World) :
  let artifacts :=
    artifactsOf env config cache schemaDef targetPath generationOptions isDev in
  let '(_, w') :=
    writeFilesForCache env schedules config cache schemaDef targetPath
                       generationOptions isDev w in
  ∀ q, q ∉ List.map Artifact.filePath artifacts →
    files w' !! q = files w !! q
    ∧ writtenFilesCache w' !! q = writtenFilesCache w !! q.
Proof.
  intros artifacts.
  pose proof (writeFilesForCache_same_outside env schedules config cache schemaDef
                targetPath generationOptions isDev w) as Hs.
  destruct (writeFilesForCache _ _ _ _ _ _ _ _ w). exact Hs.
Qed.

(** ** A single cached write *)

(** The truth value of a fingerprint, in words. *)
Lemma truthy_true (str : string) : truthy str = true ↔ str ≠ "".
Proof. unfold truthy. destruct (String.eqb_spec str ""); naive_solver. Qed.

(** X11. A cached write touches nothing but its own path: every other file
    and every other entry of the written-files cache is as before. Its
    own entry changes in one case only, after a write that succeeded with
    a fingerprint that is not the empty string, and then the entry is that
    fingerprint: the cache is the old one with the fingerprint put under
    the file path. In every other case, a removal or a write that failed,
    no fingerprint, the empty string as fingerprint, and a write that was
    skipped, the cache is as it was. *)
Theorem cached_write_touches_only_its_path (env : Env) (args : Args.t)
    (w : World) :
  let filePath := Args.filePath args in
  let '(exit, w') := run env (writeFileWithWrittenFilesCache args) w in
  (∀ q, q ≠ filePath →
     files w' !! q = files w !! q
     ∧ writtenFilesCache w' !! q = writtenFilesCache w !! q)
  ∧ (∀ fingerprint,
       exit = Success tt → Args.documentHash args = Some fingerprint →
       fingerprint ≠ "" →
       writtenFilesCache w' = <[filePath := fingerprint]> (writtenFilesCache w))
  ∧ (exit ≠ Success tt ∨ Args.documentHash args = None
     ∨ Args.documentHash args = Some ""
     ∨ Args.rmBeforeWrite args = Some false
       ∧ Args.documentHash args = writtenFilesCache w !! filePath →
     writtenFilesCache w' = writtenFilesCache w).
Proof.
  intros filePath. subst filePath.
  destruct (run env (writeFileWithWrittenFilesCache args) w) as [exit w'] eqn:Hrun.
  split.
  - pose proof (run_preserved env (writes_within [Args.filePath args])
                  (fun p _ => p ∈ [Args.filePath args])
                  (same_outside [Args.filePath args])
                  (same_outside_refl _) (same_outside_trans _)
                  (same_outside_perform env _)
                  (fun p h w => same_outside_put _ p h w)
                  (writeFileWithWrittenFilesCache args) w
                  (acts_writeFile _ args ltac:(left))) as Hs.
    rewrite Hrun in Hs. intros q Hq. apply Hs. by intros ->%list_elem_of_singleton.
  - revert Hrun. destruct args as [p c h rm]. unfold writeFileWithWrittenFilesCache.
    cbn [Args.filePath Args.content Args.documentHash Args.rmBeforeWrite].
    destruct h as [h|]; destruct rm as [[|]|]; simpl;
      try destruct (bool_decide_reflect (writtenFilesCache w !! p = Some h))
        as [Hup|Hup];
      simpl; unfold perform; eval_write;
      try (destruct (truthy h) eqn:Ht;
           [apply truthy_true in Ht
           |assert (h = "") as -> by
              (destruct (decide (h = "")) as [|Hne]; [done|];
               apply truthy_true in Hne; congruence)]);
      simpl; intros [= <- <-]; simpl.
    all: split; [intros fingerprint Hexit [= <-] Hne|intros Hcase]; try done.
    all: try (symmetry; by apply insert_id).
    all: destruct Hcase as [Hcase|[Hcase|[Hcase|[Hrm Hcase]]]]; try done.
    all: try (injection Hcase as ->; done).
    all: try (injection Hrm as [=]).
    all: try (injection Hcase as Hcase; congruence).
Qed.

(* ===================================================================== *)
(** * 22. What a generation that succeeds has written *)
(* ===================================================================== *)

Lemma run_sync_writes p c fingerprint (e : Eff unit) w :
  writes p c fingerprint e →
  writes p c fingerprint (fst (run_sync e w)) ∧ snd (run_sync e w) = w.
Proof.
  induction e as [a|e|d|q k IH|q h k IH|ev k IH]; simpl; auto. done.
Qed.

Lemma run_sync_harmless (e : Eff unit) w :
  harmless e → harmless (fst (run_sync e w)) ∧ snd (run_sync e w) = w.
Proof.
  unfold harmless.
  induction e as [a|e|d|q k IH|q h k IH|ev k IH]; simpl; auto. by intros [[] _].
Qed.

Lemma run_sync_finish p fingerprint w :
  fst (run_sync (finish p fingerprint) w) = Ret tt
  ∧ ∀ c, files w !! p = Some c →
         landed p c fingerprint (snd (run_sync (finish p fingerprint) w)).
Proof.
  destruct fingerprint as [h|]; simpl; (split; [done|]); intros c Hc; split;
    simpl; try done. by rewrite lookup_insert_eq.
Qed.

Lemma same_outside_finish p fingerprint w :
  same_outside [p] w (snd (run_sync (finish p fingerprint) w)).
Proof.
  destruct fingerprint as [h|]; simpl; [|apply same_outside_refl].
  apply same_outside_put. left.
Qed.

(** One turn of a writer. *)
Lemma step_writes env p c fingerprint (e : Eff unit) w :
  writes p c fingerprint e →
  (writes p c fingerprint (fst (step env e w))
   ∨ (fst (step env e w) = Ret tt ∧ landed p c fingerprint (snd (step env e w))))
  ∧ same_outside [p] w (snd (step env e w)).
Proof.
  intros Hw. destruct e as [a|e|d|q k|q h k|ev k]; try done.
  - split; [by left|apply same_outside_refl].
  - split; [by left|apply same_outside_refl].
  - unfold step. destruct (run_sync_writes p c fingerprint _ w Hw) as [H1 H2].
    rewrite H2. split; [by left|apply same_outside_refl].
  - unfold step.
    assert (writes_within [p] ev) as Hev.
    { destruct ev; simpl in *; try done; destruct Hw as [-> _]; left. }
    pose proof (same_outside_perform env [p] ev w Hev) as Hout.
    unfold perform in *. destruct (fails w _ ev) eqn:Hf; cbn [fst snd] in *.
    { split; [by left|exact Hout]. }
    destruct ev as [dir|q|q c'|q| |x y z|m]; try done; cbn [fst snd] in *.
    + destruct Hw as [-> Hk].
      destruct (run_sync_writes p c fingerprint (k "") 
                  (set_files (delete p (files w)) (record (Rm p) w)) (Hk ""))
        as [H1 H2].
      rewrite H2. split; [by left|exact Hout].
    + destruct Hw as (-> & -> & Hk). rewrite (Hk "").
      destruct (run_sync_finish p fingerprint
                  (set_files (<[p:=c]> (files w)) (record (WriteFile p c) w)))
        as [H1 H2].
      split.
      * right. split; [exact H1|]. apply H2. simpl. by rewrite lookup_insert_eq.
      * eapply same_outside_trans; [exact Hout|apply same_outside_finish].
Qed.

(** A writer run to its end. *)
Lemma run_writes env p c fingerprint (e : Eff unit) w :
  writes p c fingerprint e →
  (fst (run env e w) = Success tt → landed p c fingerprint (snd (run env e w)))
  ∧ same_outside [p] w (snd (run env e w)).
Proof.
  revert w. induction e as [a|e|d|q k IH|q h k IH|ev k IH]; intros w Hw;
    try done; cbn [run fst snd].
  - apply IH, Hw.
  - assert (writes_within [p] ev) as Hev.
    { destruct ev; simpl in *; try done; destruct Hw as [-> _]; left. }
    pose proof (same_outside_perform env [p] ev w Hev) as Hout.
    unfold perform in *. destruct (fails w _ ev) eqn:Hf; cbn [fst snd] in *.
    { split; [done|exact Hout]. }
    destruct ev as [dir|q|q c'|q| |x y z|m]; try done; cbn [fst snd] in *.
    + destruct Hw as [-> Hk].
      destruct (IH "" (set_files (delete p (files w)) (record (Rm p) w)) (Hk ""))
        as [H1 H2].
      split; [exact H1|]. eapply same_outside_trans; [exact Hout|exact H2].
    + destruct Hw as (-> & -> & Hk). rewrite (Hk "").
      set (w1 := set_files (<[p:=c]> (files w)) (record (WriteFile p c) w)) in *.
      assert (files w1 !! p = Some c) as Hfile
        by (subst w1; simpl; by rewrite lookup_insert_eq).
      destruct fingerprint as [h|]; cbn [finish run fst snd].
      * split.
        -- intros _. split; [exact Hfile|]. simpl. by rewrite lookup_insert_eq.
        -- eapply same_outside_trans; [exact Hout|]. apply same_outside_put. left.
      * split; [|exact Hout]. intros _. by split.
Qed.

Lemma harmless_same env (e : Eff unit) w :
  harmless e →
  harmless (fst (step env e w))
  ∧ same_outside [] w (snd (step env e w))
  ∧ same_outside [] w (snd (run env e w)).
Proof.
  intros He.
  pose proof (step_preserved env (writes_within []) (fun _ _ => False)
                (same_outside []) (same_outside_refl [])
                (same_outside_trans []) (same_outside_perform env [])
                (fun p h w (F : False) => match F with end) e w He) as [H1 H2].
  split; [exact H1|]. split; [exact H2|].
  exact (run_preserved env (writes_within []) (fun _ _ => False)
           (same_outside []) (same_outside_refl [])
           (same_outside_trans []) (same_outside_perform env [])
           (fun p h w (F : False) => match F with end) e w He).
Qed.

Lemma same_outside_weaken (paths paths' : list string) w w' :
  (∀ q, q ∈ paths → q ∈ paths') →
  same_outside paths w w' → same_outside paths' w w'.
Proof. intros Hsub Hs q Hq. apply Hs. intros Hin. by apply Hq, Hsub. Qed.

Lemma role_path_in (roles : list Role) i r q :
  roles !! i = Some r → q ∈ role_path r → q ∈ role_paths roles.
Proof.
  intros Hi Hq. apply list_elem_of_bind. exists r.
  split; [done|by eapply list_elem_of_lookup_2].
Qed.

Lemma role_inv_same (r : Role) (e : Eff unit) w w' :
  same_outside [] w w' ∨ (∃ paths, same_outside paths w w'
                          ∧ ∀ q, q ∈ role_path r → q ∉ paths) →
  role_inv w r e → role_inv w' r e.
Proof.
  intros Hsame. destruct r as [[[p c] f]|]; [|done]. simpl.
  intros [Hw|[-> [Hf Hc]]]; [by left|]. right. split; [done|].
  assert (files w' !! p = files w !! p
          ∧ writtenFilesCache w' !! p = writtenFilesCache w !! p) as [Hfiles Hcache].
  { destruct Hsame as [Hs|(paths & Hs & Hp)].
    - apply Hs. by intros ?%elem_of_nil.
    - apply Hs, Hp. left. }
  split; [congruence|]. destruct f; [congruence|done].
Qed.

Lemma role_done_same (r : Role) w w' paths :
  same_outside paths w w' → (∀ q, q ∈ role_path r → q ∉ paths) →
  role_done w r → role_done w' r.
Proof.
  intros Hs Hp. destruct r as [[[p c] f]|]; [|done]. simpl. intros [Hf Hc].
  destruct (Hs p) as [Hfiles Hcache]; [apply Hp; left|].
  split; [congruence|]. destruct f; [congruence|done].
Qed.

Lemma distinct_tail (r : Role) (roles : list Role) :
  distinct (r :: roles) → distinct roles.
Proof.
  intros Hd i j p c f p' c' f' Hi Hj Hij.
  apply (Hd (S i) (S j) p c f p' c' f'); [done..|lia].
Qed.

Lemma distinct_head (r : Role) (roles : list Role) :
  distinct (r :: roles) → ∀ q, q ∈ role_path r → q ∉ role_paths roles.
Proof.
  intros Hd q Hq Hin. destruct r as [[[p c] f]|]; [|by apply elem_of_nil in Hq].
  apply list_elem_of_singleton in Hq as ->.
  apply list_elem_of_bind in Hin as (r' & Hp & Hr').
  destruct r' as [[[p' c'] f']|]; [|by apply elem_of_nil in Hp].
  apply list_elem_of_singleton in Hp as ->.
  apply list_elem_of_lookup_1 in Hr' as [j Hj].
  by apply (Hd 0 (S j) p' c f p' c' f').
Qed.

(** A member run to its end. *)
Lemma run_role env (r : Role) (e : Eff unit) w :
  role_inv w r e →
  same_outside (role_path r) w (snd (run env e w))
  ∧ (fst (run env e w) = Success tt → role_done (snd (run env e w)) r).
Proof.
  destruct r as [[[p c] f]|]; simpl.
  - intros [Hw|[-> Hl]].
    + destruct (run_writes env p c f e w Hw) as [H1 H2]. by split.
    + simpl. split; [apply same_outside_refl|done].
  - intros He. destruct (harmless_same env e w He) as (_ & _ & Hs). by split.
Qed.

(** One turn of a member. *)
Lemma step_role env (r : Role) (e : Eff unit) w :
  role_inv w r e →
  role_inv (snd (step env e w)) r (fst (step env e w))
  ∧ same_outside (role_path r) w (snd (step env e w)).
Proof.
  destruct r as [[[p c] f]|]; simpl.
  - intros [Hw|[-> Hl]].
    + by apply step_writes.
    + simpl. split; [by right|apply same_outside_refl].
  - intros He. destruct (harmless_same env e w He) as (H1 & H2 & _). by split.
Qed.

Lemma batch_same (roles : list Role) (fibers : list (Eff unit)) w w' paths :
  Forall2 (role_inv w) roles fibers → same_outside paths w w' →
  (∀ q, q ∈ role_paths roles → q ∉ paths) →
  Forall2 (role_inv w') roles fibers.
Proof.
  intros Hall Hs. induction Hall as [|r e roles fibers Hr _ IH]; intros Hp;
    constructor.
  - eapply role_inv_same; [|exact Hr]. right. exists paths. split; [done|].
    intros q Hq. apply Hp. by apply (role_path_in (r :: roles) 0 r q).
  - apply IH. intros q Hq. apply Hp. apply list_elem_of_bind in Hq as (r' & Hq & Hr').
    apply list_elem_of_bind. exists r'. split; [done|by right].
Qed.

Lemma batch_turn (roles : list Role) (fibers : list (Eff unit)) i r e' w w' :
  Forall2 (role_inv w) roles fibers → distinct roles →
  roles !! i = Some r → role_inv w' r e' → same_outside (role_path r) w w' →
  Forall2 (role_inv w') roles (<[i:=e']> fibers).
Proof.
  intros Hall Hd Hi He' Hs.
  apply Forall2_same_length_lookup_2.
  { rewrite length_insert. by eapply Forall2_length. }
  intros j r' e Hj Hej. destruct (decide (j = i)) as [->|Hne].
  - rewrite list_lookup_insert_eq in Hej
      by (rewrite <- (Forall2_length _ _ _ Hall); by eapply lookup_lt_Some).
    by simplify_eq.
  - rewrite list_lookup_insert_ne in Hej by done.
    eapply role_inv_same; [|by eapply Forall2_lookup_lr].
    right. exists (role_path r). split; [done|].
    intros q Hq Hq'.
    destruct r' as [[[p' c'] f']|]; [|by apply elem_of_nil in Hq].
    destruct r as [[[p c] f]|]; [|by apply elem_of_nil in Hq'].
    apply list_elem_of_singleton in Hq as ->.
    apply list_elem_of_singleton in Hq' as ->.
    by apply (Hd j i p c' f' p c f).
Qed.

Lemma run_all_lands env (roles : list Role) (fibers : list (Eff unit)) w :
  Forall2 (role_inv w) roles fibers → distinct roles →
  same_outside (role_paths roles) w (snd (run_all env fibers w))
  ∧ (fst (run_all env fibers w) = Success tt →
     Forall (role_done (snd (run_all env fibers w))) roles).
Proof.
  intros Hall. revert w fibers Hall.
  induction roles as [|r roles IH]; intros w fibers Hall Hd.
  { apply Forall2_nil_inv_l in Hall as ->. simpl.
    split; [apply same_outside_refl|by constructor]. }
  apply Forall2_cons_inv_l in Hall as (e & rest & He & Hrest & ->).
  cbn [run_all]. destruct (run_role env r e w He) as [Hs Hdone].
  pose proof (distinct_head r roles Hd) as Hhead.
  assert (∀ q, q ∈ role_path r → q ∈ role_paths (r :: roles)) as Hsub.
  { intros q Hq. apply (role_path_in (r :: roles) 0 r q); done. }
  assert (∀ q, q ∈ role_paths roles → q ∈ role_paths (r :: roles)) as Hsub'.
  { intros q (r' & Hq & Hr')%list_elem_of_bind. apply list_elem_of_bind.
    exists r'. split; [done|by right]. }
  destruct (run env e w) as [[[]|err|d] w1]; cbn [fst snd] in *.
  2,3: split; [eapply same_outside_weaken; [exact Hsub|exact Hs]|done].
  assert (Forall2 (role_inv w1) roles rest) as Hrest1.
  { eapply batch_same; [exact Hrest|exact Hs|].
    intros q Hq Hq'. by apply (Hhead q). }
  destruct (IH w1 rest Hrest1 (distinct_tail r roles Hd)) as [IHs IHdone].
  split.
  - eapply same_outside_trans.
    + eapply same_outside_weaken; [exact Hsub|exact Hs].
    + eapply same_outside_weaken; [exact Hsub'|exact IHs].
  - intros Hok. constructor; [|by apply IHdone].
    eapply role_done_same; [exact IHs|exact Hhead|by apply Hdone].
Qed.

Lemma par_loop_lands env schedule (roles : list Role) (fibers : list (Eff unit)) w :
  Forall2 (role_inv w) roles fibers → distinct roles →
  same_outside (role_paths roles) w (snd (par_loop env schedule fibers w))
  ∧ (fst (par_loop env schedule fibers w) = Success tt →
     Forall (role_done (snd (par_loop env schedule fibers w))) roles).
Proof.
  revert fibers w. induction schedule as [|i schedule IH]; intros fibers w Hall Hd;
    cbn [par_loop]; [by apply run_all_lands|].
  destruct (fibers !! i) as [e|] eqn:Hi; [|by apply IH].
  destruct (Forall2_lookup_r _ _ _ _ _ Hall Hi) as (r & Hr & He).
  destruct (step_role env r e w He) as [H1 H2].
  destruct (step env e w) as [e' w']. cbn [fst snd] in *.
  assert (same_outside (role_paths roles) w w') as Hs.
  { eapply same_outside_weaken; [|exact H2]. intros q Hq. by eapply role_path_in. }
  pose proof (batch_turn roles fibers i r e' w w' Hall Hd Hr H1 H2) as Hall'.
  destruct (IH (<[i:=e']> fibers) w' Hall' Hd) as [IHs IHdone].
  assert (same_outside (role_paths roles) w
            (snd (par_loop env schedule (<[i:=e']> fibers) w'))) as Hs'
    by (by eapply same_outside_trans).
  destruct e'; cbn [fst snd]; try done; by split.
Qed.

Lemma fork_start (roles : list Role) (fibers : list (Eff unit)) w :
  Forall2 role_start roles fibers →
  Forall2 (role_inv w) roles (fst (fork fibers w)) ∧ snd (fork fibers w) = w.
Proof.
  intros Hall. induction Hall as [|r e roles fibers Hr _ IH]; simpl; [done|].
  assert (role_inv w r (fst (run_sync e w)) ∧ snd (run_sync e w) = w) as [H1 H2].
  { destruct r as [[[p c] f]|]; simpl in *.
    - destruct (run_sync_writes p c f e w Hr) as [? ?]. split; [by left|done].
    - by apply run_sync_harmless. }
  destruct (run_sync e w) as [e' w1]. cbn [fst snd] in *. subst w1.
  destruct IH as [IH1 IH2]. destruct (fork fibers w) as [rest' w2].
  cbn [fst snd] in *. subst w2. split; [by constructor|done].
Qed.

Lemma first_failed_not_success (fibers : list (Eff unit)) failed :
  first_failed fibers = Some failed → failed ≠ Success tt.
Proof.
  induction fibers as [|e rest IH]; simpl; [done|].
  destruct e; try exact IH; by intros [= <-].
Qed.

(** Whatever the schedule, a batch of writers with pairwise distinct paths
    that succeeds has landed every file, and it touches nothing but the
    paths of its writers. *)
Lemma par_lands env schedule (roles : list Role) (fibers : list (Eff unit)) w :
  Forall2 role_start roles fibers → distinct roles →
  same_outside (role_paths roles) w (snd (par env schedule fibers w))
  ∧ (fst (par env schedule fibers w) = Success tt →
     Forall (role_done (snd (par env schedule fibers w))) roles).
Proof.
  intros Hall Hd. unfold par.
  destruct (fork_start roles fibers w Hall) as [H1 H2].
  destruct (fork fibers w) as [forked w1]. cbn [fst snd] in *. subst w1.
  destruct (first_failed forked) as [failed|] eqn:Hff.
  - cbn [fst snd]. split; [apply same_outside_refl|].
    intros ->. by apply first_failed_not_success in Hff.
  - by apply par_loop_lands.
Qed.

Lemma writes_writeFile (args : Args.t) :
  default true (Args.rmBeforeWrite args) = true →
  writes (Args.filePath args) (Args.content args) (stored (Args.documentHash args))
         (writeFileWithWrittenFilesCache args).
Proof.
  destruct args as [p c h rm]. unfold writeFileWithWrittenFilesCache.
  cbn [Args.filePath Args.content Args.documentHash Args.rmBeforeWrite].
  intros ->. destruct h as [h|]; simpl; [|done].
  intros v. simpl. split; [done|]. intros _. split; [done|]. split; [done|].
  intros _. by destruct (truthy h).
Qed.

Lemma role_start_writeArtifact (a : Artifact.t) :
  defined a → role_start (role_of a) (writeArtifact a).
Proof.
  intros [text Ht]. unfold writeArtifact, role_of. rewrite Ht. simpl.
  by apply (writes_writeFile
              {| Args.filePath := Artifact.filePath a; Args.content := text;
                 Args.documentHash := Artifact.documentHash a;
                 Args.rmBeforeWrite := None |}).
Qed.

Lemma role_start_writeArtifacts (l : list Artifact.t) :
  Forall defined l →
  Forall2 role_start (List.map role_of l) (List.map writeArtifact l).
Proof.
  intros Hl. induction Hl; simpl; constructor;
    [by apply role_start_writeArtifact|done].
Qed.

Lemma writeBatch_roles `{Imports} env config schemaDef targetPath generationOptions
    isDev barrels individuals collections :
  Forall defined barrels → Forall defined individuals → Forall defined collections →
  Forall2 role_start
    (List.map role_of
       (batchArtifacts env config schemaDef targetPath generationOptions isDev
                       barrels individuals collections) ++ [None])
    (writeBatch env config schemaDef targetPath generationOptions isDev
                barrels individuals collections).
Proof.
  intros Hb Hi Hc. unfold writeBatch, batchArtifacts, namedArtifacts.
  rewrite !List.map_app, <- !app_assoc.
  apply Forall2_app.
  { cbn [List.map]. repeat constructor; by apply writes_writeFile. }
  repeat (apply Forall2_app; [by apply role_start_writeArtifacts|]).
  constructor; [|constructor].
  destruct (enableDynamicBuild _); simpl; unfold harmless; simpl; done.
Qed.

Lemma lookup_map {A B : Type} (f : A → B) (l : list A) (i : nat) :
  List.map f l !! i = f <$> l !! i.
Proof. revert i. induction l as [|x l IH]; intros [|i]; simpl; auto. Qed.

Lemma distinct_roles (artifacts : list Artifact.t) :
  NoDup (List.map Artifact.filePath artifacts) →
  distinct (List.map role_of artifacts ++ [None]).
Proof.
  intros Hnd i j p c f p' c' f' Hi Hj Hij Heq. subst p'. apply Hij.
  assert (∀ k q d g, (List.map role_of artifacts ++ [None]) !! k = Some (Some (q, d, g))
                     → List.map Artifact.filePath artifacts !! k = Some q) as Hpath.
  { intros k q d g Hk. apply lookup_app_Some in Hk as [Hk|[_ Hk]].
    - rewrite lookup_map in Hk. rewrite lookup_map.
      destruct (artifacts !! k) as [a|]; [|done]. simpl in *.
      unfold role_of in Hk. by simplify_eq.
    - destruct (k - _)%nat; simpl in Hk; [done|]. by destruct n. }
  eapply NoDup_lookup; [exact Hnd|by eapply Hpath..].
Qed.

(** A [writeFilesForCache] that gives a [Right] has landed every artifact
    of its batch, when the paths of the artifacts are pairwise distinct. *)
Lemma writeFilesForCache_lands `{Imports} (env : Env) (schedules : Schedules)
    (config : Config) (cache : Cache) (schemaDef : SchemaDef)
    (targetPath : string) (generationOptions : GenerationOptions)
    (isDev : bool) (w : World) :
  let artifacts :=
    artifactsOf env config cache schemaDef targetPath generationOptions isDev in
  let result :=
    writeFilesForCache env schedules config cache schemaDef targetPath
                       generationOptions isDev w in
  NoDup (List.map Artifact.filePath artifacts) →
  fst result = Success (inr tt) →
  Forall (fun a => role_done (snd result) (role_of a) ∧ defined a) artifacts.
Proof.
  intros artifacts result Hnd. subst artifacts result.
  unfold artifactsOf in *. unfold writeFilesForCache, either, andThen, throwing.
  set (typeNameField := typeFieldName (fieldOptions (options generationOptions))) in *.
  destruct ((if CL_DEBUG env then debugSnapshot env schedules targetPath
             else fun w1 => (Success (), w1)) w) as [[[]|e|d0] w1]; try done.
  destruct (dataBarrelFiles env targetPath typeNameField schemaDef cache)
    as [thrown|barrels] eqn:Hb; [done|].
  destruct (individualDataJsonFiles targetPath typeNameField cache)
    as [thrown|individuals] eqn:Hi; [done|].
  cbn [synthesised] in Hnd |- *.
  destruct (par env (mkdirSchedule schedules) _ w1) as [[[]|e|d1] w2]; try done.
  pose proof (barrels_defined _ _ _ _ _ _ Hb) as Hbd.
  pose proof (individuals_defined _ _ _ _ Hi) as Hid.
  pose proof (collections_defined _ _ _ _ _ _ Hb) as Hcd.
  fold typeNameField in Hcd.
  destruct (par_lands env (writeSchedule schedules) _ _ w2
              (writeBatch_roles env config schemaDef targetPath generationOptions
                 isDev _ _ _ Hbd Hid Hcd) (distinct_roles _ Hnd)) as [_ Hdone].
  destruct (par env (writeSchedule schedules) _ w2) as [[[]|e|d2] w3]; try done.
  cbn [fst snd] in *. intros _. specialize (Hdone eq_refl).
  apply Forall_app in Hdone as [Hdone _].
  assert (Forall defined
            (batchArtifacts env config schemaDef targetPath generationOptions isDev
               barrels individuals
               (collectionDataJsonFiles targetPath typeNameField schemaDef cache)))
    as Hdef.
  { unfold batchArtifacts.
    apply Forall_app; split;
      [unfold namedArtifacts; repeat constructor; by eexists|].
    apply Forall_app; split; [done|]. by apply Forall_app. }
  clear -Hdone Hdef.
  induction Hdef as [|a l Ha _ IH]; [constructor|].
  cbn [List.map] in Hdone. apply Forall_cons in Hdone as [H1 H2].
  constructor; [done|by apply IH].
Qed.

(** X12. Whatever the schedules, when [writeFilesForCache] gives a [Right]
    and the paths of its artifacts are pairwise distinct, every artifact is
    on disk: the file at its path holds its content, the manifest, the
    type definitions, the two index files, and every barrel file,
    per-document file and aggregate file alike. *)
Theorem successful_generation_writes_every_artifact `{Imports} (env : Env)
    (schedules : Schedules) (config : Config) (cache : Cache)
    (schemaDef : SchemaDef) (targetPath : string)
    (generationOptions : GenerationOptions) (isDev : bool) (w : World) :
  let artifacts :=
    artifactsOf env config cache schemaDef targetPath generationOptions isDev in
  let '(exit, w') :=
    writeFilesForCache env schedules config cache schemaDef targetPath
                       generationOptions isDev w in
  NoDup (List.map Artifact.filePath artifacts) →
  exit = Success (inr tt) →
  ∀ a, a ∈ artifacts →
    ∃ text, Artifact.content a = Some text
            ∧ files w' !! Artifact.filePath a = Some text.
Proof.
  intros artifacts.
  pose proof (writeFilesForCache_lands env schedules config cache schemaDef
                targetPath generationOptions isDev w) as Hlands.
  cbv zeta in Hlands. fold artifacts in Hlands.
  destruct (writeFilesForCache _ _ _ _ _ _ _ _ w) as [exit w'].
  intros Hnd Hexit a Ha. cbn [fst snd] in Hlands.
  pose proof (proj1 (Forall_forall _ _) (Hlands Hnd Hexit) a Ha) as [[Hfile _] [text Ht]].
  exists text. split; [done|]. unfold role_of in Hfile. by rewrite Ht in Hfile.
Qed.

(** X13. Whatever the schedules, when [writeFilesForCache] gives a [Right]
    and the paths of its artifacts are pairwise distinct, the
    written-files cache has, under the path of every artifact with a
    fingerprint that is not the empty string, that fingerprint. *)
Theorem successful_generation_stores_every_fingerprint `{Imports} (env : Env)
    (schedules : Schedules) (config : Config) (cache : Cache)
    (schemaDef : SchemaDef) (targetPath : string)
    (generationOptions : GenerationOptions) (isDev : bool) (w : World) :
  let artifacts :=
    artifactsOf env config cache schemaDef targetPath generationOptions isDev in
  let '(exit, w') :=
    writeFilesForCache env schedules config cache schemaDef targetPath
                       generationOptions isDev w in
  NoDup (List.map Artifact.filePath artifacts) →
  exit = Success (inr tt) →
  ∀ a fingerprint, a ∈ artifacts →
    Artifact.documentHash a = Some fingerprint → fingerprint ≠ "" →
    writtenFilesCache w' !! Artifact.filePath a = Some fingerprint.
Proof.
  intros artifacts.
  pose proof (writeFilesForCache_lands env schedules config cache schemaDef
                targetPath generationOptions isDev w) as Hlands.
  cbv zeta in Hlands. fold artifacts in Hlands.
  destruct (writeFilesForCache _ _ _ _ _ _ _ _ w) as [exit w'].
  intros Hnd Hexit a h Ha Hh Hne. cbn [fst snd] in Hlands.
  pose proof (proj1 (Forall_forall _ _) (Hlands Hnd Hexit) a Ha) as [[_ Hcache] _].
  unfold role_of in Hcache. rewrite Hh in Hcache. cbn [stored] in Hcache.
  assert (truthy h = true) as Ht
    by (unfold truthy; by destruct (String.eqb_spec h "")).
  by rewrite Ht in Hcache.
Qed.

(** Two generations of one schema and one cache that both give a [Right],
    from disks that agree outside the paths of the artifacts, leave the
    same files. *)
Lemma generations_agree `{Imports} (env : Env) (schedules1 schedules2 : Schedules)
    (config : Config) (cache : Cache) (schemaDef : SchemaDef)
    (targetPath : string) (generationOptions : GenerationOptions)
    (isDev : bool) (w1 w2 : World) :
  let paths :=
    List.map Artifact.filePath
      (artifactsOf env config cache schemaDef targetPath generationOptions isDev) in
  let r1 := writeFilesForCache env schedules1 config cache schemaDef targetPath
                               generationOptions isDev w1 in
  let r2 := writeFilesForCache env schedules2 config cache schemaDef targetPath
                               generationOptions isDev w2 in
  NoDup paths →
  (∀ q, q ∉ paths → files w1 !! q = files w2 !! q) →
  fst r1 = Success (inr tt) → fst r2 = Success (inr tt) →
  files (snd r1) = files (snd r2).
Proof.
  intros paths r1 r2 Hnd Hsame Hok1 Hok2. subst r1 r2. apply map_eq. intros q.
  pose proof (writeFilesForCache_lands env schedules1 config cache schemaDef
                targetPath generationOptions isDev w1 Hnd Hok1) as Hl1.
  pose proof (writeFilesForCache_lands env schedules2 config cache schemaDef
                targetPath generationOptions isDev w2 Hnd Hok2) as Hl2.
  cbv zeta in Hl1, Hl2.
  destruct (decide (q ∈ paths)) as [Hin|Hout].
  - apply list_elem_of_In, in_map_iff in Hin as (a & <- & Ha%list_elem_of_In).
    destruct (proj1 (Forall_forall _ _) Hl1 a Ha) as [[Hf1 _] _].
    destruct (proj1 (Forall_forall _ _) Hl2 a Ha) as [[Hf2 _] _].
    unfold role_of in *. by rewrite Hf1, Hf2.
  - destruct (writeFilesForCache_same_outside env schedules1 config cache schemaDef
                targetPath generationOptions isDev w1 q Hout) as [-> _].
    destruct (writeFilesForCache_same_outside env schedules2 config cache schemaDef
                targetPath generationOptions isDev w2 q Hout) as [-> _].
    by apply Hsame.
Qed.

(** X14. The files a generation leaves do not depend on the turns the
    scheduler gives: two runs of [writeFilesForCache] from one world,
    under any two schedules, that both give a [Right] leave the same
    files, when the paths of the artifacts are pairwise distinct. *)
Theorem files_do_not_depend_on_the_schedule `{Imports} (env : Env)
    (schedules1 schedules2 : Schedules) (config : Config) (cache : Cache)
    (schemaDef : SchemaDef) (targetPath : string)
    (generationOptions : GenerationOptions) (isDev : bool) (w : World) :
  let artifacts :=
    artifactsOf env config cache schemaDef targetPath generationOptions isDev in
  let '(exit1, w1) :=
    writeFilesForCache env schedules1 config cache schemaDef targetPath
                       generationOptions isDev w in
  let '(exit2, w2) :=
    writeFilesForCache env schedules2 config cache schemaDef targetPath
                       generationOptions isDev w in
  NoDup (List.map Artifact.filePath artifacts) →
  exit1 = Success (inr tt) → exit2 = Success (inr tt) →
  files w1 = files w2.
Proof.
  intros artifacts.
  pose proof (generations_agree env schedules1 schedules2 config cache schemaDef
                targetPath generationOptions isDev w w) as Hagree.
  cbv zeta in Hagree.
  destruct (writeFilesForCache env schedules1 _ _ _ _ _ _ w) as [exit1 w1].
  destruct (writeFilesForCache env schedules2 _ _ _ _ _ _ w) as [exit2 w2].
  intros Hnd Hok1 Hok2. by apply Hagree.
Qed.

(** X15. Generating again changes nothing on disk: a second
    [writeFilesForCache] with the same schema and the same cache, run in
    the world the first one has left, under any schedules, leaves the
    files as the first one has left them, when both give a [Right] and
    the paths of the artifacts are pairwise distinct. *)
Theorem regeneration_leaves_the_files_as_they_are `{Imports} (env : Env)
    (schedules1 schedules2 : Schedules) (config : Config) (cache : Cache)
    (schemaDef : SchemaDef) (targetPath : string)
    (generationOptions : GenerationOptions) (isDev : bool) (w : World) :
  let artifacts :=
    artifactsOf env config cache schemaDef targetPath generationOptions isDev in
  let '(exit1, w1) :=
    writeFilesForCache env schedules1 config cache schemaDef targetPath
                       generationOptions isDev w in
  let '(exit2, w2) :=
    writeFilesForCache env schedules2 config cache schemaDef targetPath
                       generationOptions isDev w1 in
  NoDup (List.map Artifact.filePath artifacts) →
  exit1 = Success (inr tt) → exit2 = Success (inr tt) →
  files w2 = files w1.
Proof.
  intros artifacts.
  pose proof (writeFilesForCache_same_outside env schedules1 config cache schemaDef
                targetPath generationOptions isDev w) as Hout.
  pose proof (fun w1 => generations_agree env schedules2 schedules1 config cache
                schemaDef targetPath generationOptions isDev w1 w) as Hagree.
  cbv zeta in Hagree.
  destruct (writeFilesForCache env schedules1 _ _ _ _ _ _ w) as [exit1 w1].
  specialize (Hagree w1).
  destruct (writeFilesForCache env schedules2 _ _ _ _ _ _ w1) as [exit2 w2].
  intros Hnd Hok1 Hok2. cbn [fst snd] in *.
  apply Hagree; [done| |done..]. intros q Hq. by apply Hout.
Qed.

(* ===================================================================== *)
(** * 23. What the written-files cache decides *)
(* ===================================================================== *)

(** Whatever the schedule, a batch of fibers that are blind to the
    written-files cache does the same on two disks that differ in the
    cache only. *)
Section Blind.
Variable env : Env.

Lemma perform_same ev w1 w2 :
  same_disk w1 w2 →
  fst (perform env ev w1) = fst (perform env ev w2)
  ∧ same_disk (snd (perform env ev w1)) (snd (perform env ev w2)).
Proof.
  intros (Hfiles & Htrace & Hfails). unfold perform, same_disk.
  rewrite Hfails, Htrace. destruct (fails w2 _ ev); simpl; [by rewrite Htrace|].
  destruct ev; simpl; rewrite ?Hfiles, ?Htrace; done.
Qed.

Lemma run_sync_blind {A} (e : Eff A) w1 w2 :
  blind e → same_disk w1 w2 →
  fst (run_sync e w1) = fst (run_sync e w2)
  ∧ same_disk (snd (run_sync e w1)) (snd (run_sync e w2))
  ∧ blind (fst (run_sync e w1)).
Proof.
  revert w1 w2. induction e as [a|e|d|p k IH|p h k IH|ev k IH]; intros w1 w2 Hb Hs;
    simpl; auto.
  destruct Hb as [Hsame Hb].
  rewrite (Hsame (writtenFilesCache w2 !! p) (writtenFilesCache w1 !! p)).
  by apply IH.
Qed.

Lemma step_blind {A} (e : Eff A) w1 w2 :
  blind e → same_disk w1 w2 →
  fst (step env e w1) = fst (step env e w2)
  ∧ same_disk (snd (step env e w1)) (snd (step env e w2))
  ∧ blind (fst (step env e w1)).
Proof.
  intros Hb Hs. destruct e as [a|e|d|p k|p h k|ev k];
    try (unfold step; by apply run_sync_blind).
  unfold step. destruct (perform_same ev w1 w2 Hs) as [Hexit Hs'].
  destruct (perform env ev w1) as [x1 w1'], (perform env ev w2) as [x2 w2'].
  cbn [fst snd] in *. subst x2. destruct x1 as [r|err|d]; [|done..].
  by apply run_sync_blind.
Qed.

Lemma run_blind {A} (e : Eff A) : blind e → blind_task (run env e).
Proof.
  induction e as [a|e|d|p k IH|p h k IH|ev k IH]; intros Hb w1 w2 Hs; simpl; auto.
  - destruct Hb as [Hsame Hb].
    rewrite (Hsame (writtenFilesCache w2 !! p) (writtenFilesCache w1 !! p)).
    by apply IH.
  - apply IH; [done|]. destruct Hs as (? & ? & ?). by split.
  - destruct (perform_same ev w1 w2 Hs) as [Hexit Hs'].
    destruct (perform env ev w1) as [x1 w1'], (perform env ev w2) as [x2 w2'].
    cbn [fst snd] in *. subst x2. destruct x1 as [r|err|d]; [|done..].
    by apply IH.
Qed.

Lemma fork_blind fibers w1 w2 :
  Forall blind fibers → same_disk w1 w2 →
  fst (fork fibers w1) = fst (fork fibers w2)
  ∧ same_disk (snd (fork fibers w1)) (snd (fork fibers w2))
  ∧ Forall blind (fst (fork fibers w1)).
Proof.
  revert w1 w2. induction fibers as [|e rest IH]; intros w1 w2 Hall Hs; simpl;
    [done|].
  apply Forall_cons in Hall as [He Hrest].
  destruct (run_sync_blind e w1 w2 He Hs) as (H1 & H2 & H3).
  destruct (run_sync e w1) as [e1 w1'], (run_sync e w2) as [e2 w2'].
  cbn [fst snd] in *. subst e2.
  destruct (IH w1' w2' Hrest H2) as (H4 & H5 & H6).
  destruct (fork rest w1') as [r1 w1''], (fork rest w2') as [r2 w2''].
  cbn [fst snd] in *. subst r2. split; [done|]. split; [done|by constructor].
Qed.

Lemma run_all_blind fibers : Forall blind fibers → blind_task (run_all env fibers).
Proof.
  induction fibers as [|e rest IH]; intros Hall w1 w2 Hs; simpl; [done|].
  apply Forall_cons in Hall as [He Hrest].
  destruct (run_blind e He w1 w2 Hs) as [H1 H2].
  destruct (run env e w1) as [x1 w1'], (run env e w2) as [x2 w2'].
  cbn [fst snd] in *. subst x2. destruct x1 as [[]|err|d]; [|done..].
  by apply IH.
Qed.

Lemma par_loop_blind schedule fibers :
  Forall blind fibers → blind_task (par_loop env schedule fibers).
Proof.
  revert fibers. induction schedule as [|i schedule IH]; intros fibers Hall w1 w2 Hs;
    cbn [par_loop]; [by apply run_all_blind|].
  destruct (fibers !! i) as [e|] eqn:Hi; [|by apply IH].
  assert (blind e) as He by (eapply Forall_lookup_1; eauto).
  destruct (step_blind e w1 w2 He Hs) as (H1 & H2 & H3).
  destruct (step env e w1) as [e1 w1'], (step env e w2) as [e2 w2'].
  cbn [fst snd] in *. subst e2.
  destruct e1; try done; apply IH; try done; by apply Forall_insert.
Qed.

Lemma par_blind schedule fibers :
  Forall blind fibers → blind_task (par env schedule fibers).
Proof.
  intros Hall w1 w2 Hs. unfold par.
  destruct (fork_blind fibers w1 w2 Hall Hs) as (H1 & H2 & H3).
  destruct (fork fibers w1) as [f1 w1'], (fork fibers w2) as [f2 w2'].
  cbn [fst snd] in *. subst f2.
  destruct (first_failed f1); [done|]. by apply par_loop_blind.
Qed.

End Blind.

Lemma andThen_blind {E A B : Type} (m : Task E A) (f : A → Task E B) :
  blind_task m → (∀ a, blind_task (f a)) → blind_task (andThen m f).
Proof.
  intros Hm Hf w1 w2 Hs. unfold andThen. destruct (Hm w1 w2 Hs) as [H1 H2].
  destruct (m w1) as [x1 w1'], (m w2) as [x2 w2']. cbn [fst snd] in *. subst x2.
  destruct x1 as [a|e|d]; [by apply Hf|done..].
Qed.

Lemma either_blind {E A : Type} (m : Task E A) : blind_task m → blind_task (either m).
Proof.
  intros Hm w1 w2 Hs. unfold either. destruct (Hm w1 w2 Hs) as [H1 H2].
  destruct (m w1) as [x1 w1'], (m w2) as [x2 w2']. cbn [fst snd] in *. subst x2.
  by destruct x1.
Qed.

Lemma throwing_blind {A : Type} (r : Defect + A) : blind_task (throwing r).
Proof. intros w1 w2 Hs. unfold throwing. by destruct r. Qed.

Lemma blind_writeFile (args : Args.t) :
  default true (Args.rmBeforeWrite args) = true →
  blind (writeFileWithWrittenFilesCache args).
Proof.
  destruct args as [p c h rm]. unfold writeFileWithWrittenFilesCache.
  cbn [Args.filePath Args.content Args.documentHash Args.rmBeforeWrite].
  intros ->. destruct h as [h|]; simpl; [|done].
  split; [done|]. intros _ _ _. by destruct (truthy h).
Qed.

Lemma blind_writeBatch `{Imports} env config schemaDef targetPath generationOptions
    isDev barrels individuals collections :
  Forall blind
    (writeBatch env config schemaDef targetPath generationOptions isDev
                barrels individuals collections).
Proof.
  assert (∀ l : list Artifact.t, Forall blind (List.map writeArtifact l)) as Hmap.
  { intros l. apply Forall_map_all. intros a. unfold writeArtifact.
    destruct (Artifact.content a); [by apply blind_writeFile|done]. }
  unfold writeBatch.
  apply Forall_app; split.
  { repeat (apply Forall_cons; split; [by apply blind_writeFile|]). constructor. }
  repeat (apply Forall_app; split; [apply Hmap|]).
  apply Forall_singleton. destruct (enableDynamicBuild _); simpl; done.
Qed.

Lemma debugSnapshot_blind env schedules targetPath :
  blind_task (debugSnapshot env schedules targetPath).
Proof.
  unfold debugSnapshot. apply andThen_blind.
  - apply run_blind. simpl. done.
  - intros _. apply par_blind. repeat constructor.
Qed.

Lemma writeFilesForCache_blind `{Imports} (env : Env) (schedules : Schedules)
    (config : Config) (cache : Cache) (schemaDef : SchemaDef)
    (targetPath : string) (generationOptions : GenerationOptions) (isDev : bool) :
  blind_task (writeFilesForCache env schedules config cache schemaDef targetPath
                                 generationOptions isDev).
Proof.
  unfold writeFilesForCache. apply either_blind, andThen_blind.
  { destruct (CL_DEBUG env); [apply debugSnapshot_blind|by intros w1 w2 Hs]. }
  intros _. apply andThen_blind; [apply throwing_blind|].
  intros barrels. apply andThen_blind; [apply throwing_blind|].
  intros individuals. apply andThen_blind.
  - apply par_blind, Forall_map_all. intros dir. simpl. done.
  - intros _. apply par_blind, blind_writeBatch.
Qed.

(** X16. Whatever the schedules, what [writeFilesForCache] does is the same
    whatever the written-files cache holds: the same outcome, the same
    calls in the same order, the same files. Every member of its write
    batch removes before it writes, so that no fingerprint in the cache
    ever spares a write; the cache is written, and what it holds decides
    nothing here. *)
Theorem written_files_cache_decides_nothing `{Imports} (env : Env)
    (schedules : Schedules) (config : Config) (cache : Cache)
    (schemaDef : SchemaDef) (targetPath : string)
    (generationOptions : GenerationOptions) (isDev : bool) (w : World)
    (writtenFilesCache' : gmap string string) :
  let '(exit, w1) :=
    writeFilesForCache env schedules config cache schemaDef targetPath
                       generationOptions isDev w in
  let '(exit', w2) :=
    writeFilesForCache env schedules config cache schemaDef targetPath
                       generationOptions isDev
                       (set_writtenFilesCache writtenFilesCache' w) in
  exit' = exit ∧ trace w2 = trace w1 ∧ files w2 = files w1.
Proof.
  destruct (writeFilesForCache_blind env schedules config cache schemaDef targetPath
              generationOptions isDev w (set_writtenFilesCache writtenFilesCache' w))
    as (Hexit & Hfiles & Htrace & _); [done|].
  destruct (writeFilesForCache _ _ _ _ _ _ _ _ w) as [exit w1].
  destruct (writeFilesForCache _ _ _ _ _ _ _ _ _) as [exit' w2].
  by cbn [fst snd] in *.
Qed.

(* ===================================================================== *)
(** * 24. The bundling step *)
(* ===================================================================== *)

Lemma calls_acts {A : Type} (P : Event → Prop) (e : Eff A) :
  calls P e → acts P (fun _ _ => True) e.
Proof.
  induction e as [a|e|d|p k IH|p h k IH|ev k IH]; simpl; auto.
  intros [Hev Hk]. auto.
Qed.

Lemma writeFile_is_no_bundling (args : Args.t) :
  calls no_bundling (writeFileWithWrittenFilesCache args).
Proof.
  destruct args as [p c h rm]. unfold writeFileWithWrittenFilesCache.
  cbn [Args.filePath Args.content Args.documentHash Args.rmBeforeWrite].
  apply calls_bind.
  - destruct h; simpl; done.
  - intros upToDate. destruct (negb _ && upToDate); [done|].
    apply calls_bind; [destruct (default true rm); simpl; done|]. intros _.
    apply calls_bind; [simpl; done|]. intros _.
    destruct h as [h|]; [destruct (truthy h)|]; simpl; done.
Qed.

(** X17. Whatever the schedules, with the dynamic build switched off a
    [writeFilesForCache] makes no call of the bundling step: neither the
    version of Contentlayer is looked up nor is the bundler run. *)
Theorem no_bundling_without_dynamic_build `{Imports} (env : Env)
    (schedules : Schedules) (config : Config) (cache : Cache)
    (schemaDef : SchemaDef) (targetPath : string)
    (generationOptions : GenerationOptions) (isDev : bool) (w : World) :
  enableDynamicBuild (experimental (Source.options (source config))) = false →
  let '(_, w') :=
    writeFilesForCache env schedules config cache schemaDef targetPath
                       generationOptions isDev w in
  ∃ t, trace w' = trace w ++ t ∧ Forall (fun ev => is_bundling ev = false) t.
Proof.
  intros Hoff.
  enough (grows no_bundling w
            (snd (writeFilesForCache env schedules config cache schemaDef targetPath
                                     generationOptions isDev w))) as Hg
    by (destruct (writeFilesForCache _ _ _ _ _ _ _ _ w); exact Hg).
  apply (writeFilesForCache_preserved env no_bundling (fun _ _ => True)
           (grows no_bundling) (grows_refl no_bundling) (grows_trans no_bundling)
           (perform_grows no_bundling env)).
  - intros p h w0. exists []. by rewrite app_nil_r.
  - by intros [].
  - intros barrels individuals _ _.
    assert (∀ l : list Artifact.t,
              Forall (acts no_bundling (fun _ _ => True)) (List.map writeArtifact l))
      as Hmap.
    { intros l. apply Forall_map_all. intros a. apply calls_acts.
      unfold writeArtifact.
      destruct (Artifact.content a); [apply writeFile_is_no_bundling|done]. }
    unfold writeBatch.
    apply Forall_app; split.
    { repeat (apply Forall_cons; split;
              [apply calls_acts, writeFile_is_no_bundling|]). constructor. }
    repeat (apply Forall_app; split; [apply Hmap|]).
    apply Forall_singleton. by rewrite Hoff.
Qed.

(* ===================================================================== *)
(** * 25. Failures are reported, none is made up and none is lost *)
(* ===================================================================== *)

Lemma none_failed_nil w n : none_failed w n [].
Proof. intros i ev Hi. by rewrite lookup_nil in Hi. Qed.

Lemma none_failed_app w w1 n t1 t2 :
  fails w1 = fails w →
  none_failed w n t1 → none_failed w1 (n + length t1) t2 →
  none_failed w n (t1 ++ t2).
Proof.
  intros Hf H1 H2 i ev Hi. apply lookup_app_Some in Hi as [Hi|[Hle Hi]].
  - by apply H1.
  - specialize (H2 _ _ Hi). rewrite Hf in H2.
    by replace (n + length t1 + (i - length t1))%nat with (n + i)%nat in H2 by lia.
Qed.

Lemma failed_with_app_l w n t1 t2 e :
  failed_with w n t1 e → failed_with w n (t1 ++ t2) e.
Proof.
  intros (i & ev & Hi & Hf & He). exists i, ev.
  split; [by apply lookup_app_l_Some|done].
Qed.

Lemma failed_with_app_r w w1 n t1 t2 e :
  fails w1 = fails w →
  failed_with w1 (n + length t1) t2 e → failed_with w n (t1 ++ t2) e.
Proof.
  intros Hfails (i & ev & Hi & Hf & He). exists (length t1 + i)%nat, ev.
  split; [by rewrite lookup_app_r, Nat.add_comm, Nat.add_sub by lia|].
  split; [|done]. rewrite <- Hfails. by rewrite Nat.add_assoc.
Qed.

(** A task after a task. *)
Lemma reported_then {A B : Type} w (r1 : Exit GenerateDotpkgError A * World)
    (r2 : Exit GenerateDotpkgError B * World) :
  reported w r1 → (∃ a, fst r1 = Success a) → reported (snd r1) r2 →
  reported w r2.
Proof.
  intros (Hf1 & t1 & Ht1 & H1) [a Ha] (Hf2 & t2 & Ht2 & H2). rewrite Ha in H1.
  split; [congruence|]. exists (t1 ++ t2).
  split; [by rewrite Ht2, Ht1, app_assoc|].
  rewrite Ht1, length_app in H2.
  destruct (fst r2) as [b|e|d]; [|by eapply failed_with_app_r|done].
  by eapply none_failed_app.
Qed.

Section Reported.
Variable env : Env.

Lemma perform_reported ev w : reported w (perform env ev w).
Proof.
  unfold perform. destruct (fails w (length (trace w)) ev) eqn:Hf.
  - split; [done|]. exists [ev]. split; [done|]. exists 0%nat, ev.
    rewrite Nat.add_0_r. done.
  - assert (none_failed w (length (trace w)) [ev]) as Hnone.
    { intros [|i] ev' Hi; simpl in Hi; [|by rewrite lookup_nil in Hi].
      injection Hi as <-. by rewrite Nat.add_0_r. }
    destruct ev; (split; [done|]); (eexists; split; [reflexivity|exact Hnone]).
Qed.

Lemma run_sync_honest {A} (e : Eff A) w :
  honest e →
  honest (fst (run_sync e w))
  ∧ trace (snd (run_sync e w)) = trace w ∧ fails (snd (run_sync e w)) = fails w.
Proof.
  revert w. induction e as [a|e|d|p k IH|p h k IH|ev k IH]; intros w Hh; simpl; auto.
  destruct (IH (set_writtenFilesCache (<[p:=h]> (writtenFilesCache w)) w) Hh)
    as (H1 & H2 & H3). done.
Qed.

Lemma run_reported {A} (e : Eff A) w : honest e → reported w (run env e w).
Proof.
  revert w. induction e as [a|e|d|p k IH|p h k IH|ev k IH]; intros w Hh;
    cbn [run]; try done.
  - split; [done|]. exists []. rewrite app_nil_r. split; [done|apply none_failed_nil].
  - split; [done|]. exists []. by rewrite app_nil_r.
  - by apply IH.
  - destruct (IH (set_writtenFilesCache (<[p:=h]> (writtenFilesCache w)) w) Hh)
      as (H1 & t & H2 & H3). split; [done|]. by exists t.
  - pose proof (perform_reported ev w) as Hp.
    destruct (perform env ev w) as [[r|err|d] w1] eqn:Hperf; [|done..].
    eapply (reported_then w (Success r, w1)); [exact Hp|by eexists|].
    by apply IH.
Qed.

Lemma step_honest {A} (e : Eff A) w :
  honest e →
  match fst (step env e w) with
  | Fail _ => True
  | e' => honest e'
  end.
Proof.
  intros Hh.
  assert (∀ (e0 : Eff A) w0, honest e0 →
            match fst (run_sync e0 w0) with
            | Fail _ => True
            | e' => honest e'
            end) as Hsync.
  { intros e0 w0 H0. pose proof (proj1 (run_sync_honest e0 w0 H0)) as H1.
    by destruct (fst (run_sync e0 w0)). }
  destruct e as [a|e|d|p k|p h k|ev k]; try (by apply Hsync).
  unfold step. destruct (perform env ev w) as [[r|err|d] w1]; [|done..].
  apply Hsync, Hh.
Qed.

Lemma step_turn_reported {A} (e : Eff A) w :
  honest e → turn_reported w (step env e w).
Proof.
  intros Hh.
  assert (∀ (e0 : Eff A) w0, honest e0 → turn_reported w0 (run_sync e0 w0)) as Hsync.
  { intros e0 w0 H0. destruct (run_sync_honest e0 w0 H0) as (H1 & H2 & H3).
    split; [done|]. exists []. rewrite app_nil_r. split; [done|].
    destruct (fst (run_sync e0 w0)); try apply none_failed_nil. done. }
  destruct e as [a|e|d|p k|p h k|ev k]; try (by apply Hsync).
  unfold step, turn_reported. destruct (perform_reported ev w) as (Hf & t & Ht & Hm).
  pose proof (perform_alive env ev w) as Halive.
  destruct (perform env ev w) as [[r|err|d] w1]; cbn [fst snd] in *; [| |done].
  - destruct (run_sync_honest (k r) w1 (Hh r)) as (H1 & H2 & H3).
    split; [congruence|]. exists t. split; [congruence|].
    destruct (fst (run_sync (k r) w1)); done.
  - split; [done|]. by exists t.
Qed.

(** A fiber after turns of the batch. *)
Lemma turn_then {A : Type} w (r1 : Eff unit * World)
    (r2 : Exit GenerateDotpkgError A * World) :
  turn_reported w r1 → (∀ err, fst r1 ≠ Fail err) → reported (snd r1) r2 →
  reported w r2.
Proof.
  intros (Hf1 & t1 & Ht1 & H1) Hok (Hf2 & t2 & Ht2 & H2).
  assert (none_failed w (length (trace w)) t1) as Hnone.
  { destruct (fst r1); try done. by destruct (Hok e). }
  split; [congruence|]. exists (t1 ++ t2).
  split; [by rewrite Ht2, Ht1, app_assoc|].
  rewrite Ht1, length_app in H2.
  destruct (fst r2) as [b|e|d]; [|by eapply failed_with_app_r|done].
  by eapply none_failed_app.
Qed.

Lemma fork_honest fibers w :
  Forall honest fibers →
  Forall honest (fst (fork fibers w))
  ∧ trace (snd (fork fibers w)) = trace w ∧ fails (snd (fork fibers w)) = fails w.
Proof.
  revert w. induction fibers as [|e rest IH]; intros w Hall; simpl; [done|].
  apply Forall_cons in Hall as [He Hrest].
  destruct (run_sync_honest e w He) as (H1 & H2 & H3).
  destruct (run_sync e w) as [e' w']. simpl in *.
  destruct (IH w' Hrest) as (H4 & H5 & H6).
  destruct (fork rest w') as [rest' w'']. simpl in *.
  split; [by apply Forall_cons|]. split; congruence.
Qed.

Lemma first_failed_honest fibers :
  Forall honest fibers →
  match first_failed fibers with
  | Some (Failure _) | Some (Success _) => False
  | _ => True
  end.
Proof.
  induction 1 as [|e rest He _ IH]; simpl; [done|]. by destruct e.
Qed.

Lemma run_all_reported fibers w :
  Forall honest fibers → reported w (run_all env fibers w).
Proof.
  revert w. induction fibers as [|e rest IH]; intros w Hall; cbn [run_all].
  { split; [done|]. exists []. rewrite app_nil_r. split; [done|apply none_failed_nil]. }
  apply Forall_cons in Hall as [He Hrest].
  pose proof (run_reported e w He) as Hr.
  destruct (run env e w) as [[[]|err|d] w1] eqn:Hrun; [|done..].
  eapply (reported_then w (Success tt, w1)); [exact Hr|by eexists|by apply IH].
Qed.

Lemma par_loop_reported schedule fibers w :
  Forall honest fibers → reported w (par_loop env schedule fibers w).
Proof.
  revert fibers w. induction schedule as [|i schedule IH]; intros fibers w Hall;
    cbn [par_loop]; [by apply run_all_reported|].
  destruct (fibers !! i) as [e|] eqn:Hi; [|by apply IH].
  assert (honest e) as He by (eapply Forall_lookup_1; eauto).
  pose proof (step_turn_reported e w He) as Hturn.
  pose proof (step_honest e w He) as Hh.
  destruct (step env e w) as [e' w'] eqn:Hstep. cbn [fst snd] in *.
  assert ((∀ err, e' ≠ Fail err) → honest e' →
          reported w (par_loop env schedule (<[i:=e']> fibers) w')) as Hgo.
  { intros Hok Hh'. eapply (turn_then w (e', w')); [exact Hturn|done|].
    apply IH. by apply Forall_insert. }
  destruct e' as [a|err|d|p k|p h k|ev k]; try (by apply Hgo).
  - destruct Hturn as (Hf & t & Ht & Hfail). split; [done|]. by exists t.
  - destruct Hturn as (Hf & t & Ht & Hnone). split; [done|]. by exists t.
Qed.

Lemma par_reported schedule fibers w :
  Forall honest fibers → reported w (par env schedule fibers w).
Proof.
  intros Hall. unfold par.
  destruct (fork_honest fibers w Hall) as (H1 & H2 & H3).
  destruct (fork fibers w) as [forked w1]. cbn [fst snd] in *.
  pose proof (first_failed_honest forked H1) as Hff.
  destruct (first_failed forked) as [[a|err|d]|]; try done.
  - split; [done|]. exists []. by rewrite app_nil_r.
  - destruct (par_loop_reported schedule forked w1 H1) as (Hf & t & Ht & Hm).
    split; [congruence|]. exists t. rewrite Ht, H2. split; [done|].
    rewrite <- H2. destruct (fst (par_loop env schedule forked w1)); try done.
    + intros i ev Hi. rewrite <- H3. by apply Hm.
    + destruct Hm as (i & ev & Hi & Hfl & He). exists i, ev. by rewrite <- H3.
Qed.

Lemma andThen_reported {A B : Type} (m : Task GenerateDotpkgError A)
    (f : A → Task GenerateDotpkgError B) w :
  reported w (m w) → (∀ a w1, reported w1 (f a w1)) → reported w (andThen m f w).
Proof.
  intros Hm Hf. unfold andThen. destruct (m w) as [[a|e|d] w1] eqn:Hmw; try done.
  eapply (reported_then w (Success a, w1)); [exact Hm|by eexists|apply Hf].
Qed.

Lemma throwing_reported {A : Type} (r : Defect + A) w : reported w (throwing r w).
Proof.
  unfold throwing. destruct r; (split; [done|]); exists []; rewrite app_nil_r;
    (split; [done|]); [done|apply none_failed_nil].
Qed.

End Reported.

Lemma honest_bind {A B} (m : Eff A) (f : A → Eff B) :
  honest m → (∀ a, honest (f a)) → honest (m ≫= f).
Proof.
  intros Hm Hf. change (honest (bind m f)).
  induction m as [a|e|d|p k IH|p h k IH|ev k IH]; cbn [bind honest] in *; auto.
Qed.

Lemma honest_writeFile (args : Args.t) : honest (writeFileWithWrittenFilesCache args).
Proof.
  destruct args as [p c h rm]. unfold writeFileWithWrittenFilesCache.
  cbn [Args.filePath Args.content Args.documentHash Args.rmBeforeWrite].
  apply honest_bind.
  - destruct h; simpl; done.
  - intros upToDate. destruct (negb _ && upToDate); [done|].
    apply honest_bind; [destruct (default true rm); simpl; done|]. intros _.
    apply honest_bind; [simpl; done|]. intros _.
    destruct h as [h|]; [destruct (truthy h)|]; simpl; done.
Qed.

Lemma honest_writeBatch `{Imports} env config schemaDef targetPath generationOptions
    isDev barrels individuals collections :
  Forall honest
    (writeBatch env config schemaDef targetPath generationOptions isDev
                barrels individuals collections).
Proof.
  assert (∀ l : list Artifact.t, Forall honest (List.map writeArtifact l)) as Hmap.
  { intros l. apply Forall_map_all. intros a. unfold writeArtifact.
    destruct (Artifact.content a); [apply honest_writeFile|done]. }
  unfold writeBatch.
  apply Forall_app; split.
  { repeat (apply Forall_cons; split; [apply honest_writeFile|]). constructor. }
  repeat (apply Forall_app; split; [apply Hmap|]).
  apply Forall_singleton. destruct (enableDynamicBuild _); simpl; done.
Qed.

Lemma debugSnapshot_reported env schedules targetPath w :
  reported w (debugSnapshot env schedules targetPath w).
Proof.
  unfold debugSnapshot. apply andThen_reported.
  - apply run_reported. simpl. done.
  - intros _ w1. apply par_reported. repeat constructor.
Qed.

Lemma reported_refl w : reported w (Success tt, w).
Proof.
  split; [done|]. exists []. rewrite app_nil_r. split; [done|apply none_failed_nil].
Qed.

(** The task [writeFilesForCache] hands to [T.either]. *)
Lemma writeFilesForCache_reported `{Imports} (env : Env) (schedules : Schedules)
    (config : Config) (cache : Cache) (schemaDef : SchemaDef)
    (targetPath : string) (generationOptions : GenerationOptions)
    (isDev : bool) (w : World) :
  let r := writeFilesForCache env schedules config cache schemaDef targetPath
                              generationOptions isDev w in
  fails (snd r) = fails w
  ∧ ∃ t, trace (snd r) = trace w ++ t
         ∧ match fst r with
           | Success (inr _) => none_failed w (length (trace w)) t
           | Success (inl e) => failed_with w (length (trace w)) t e
           | _ => True
           end.
Proof.
  cbv zeta. unfold writeFilesForCache, either.
  match goal with
  | |- fails (snd (let (e0, w') := ?m w in _)) = _ ∧ _ =>
      assert (reported w (m w)) as Hm; [|destruct Hm as (Hf & t & Ht & Hm);
        destruct (m w) as [[a|e|d] w']]
  end.
  { apply andThen_reported.
    { destruct (CL_DEBUG env); [apply debugSnapshot_reported|apply reported_refl]. }
    intros _ w1. apply andThen_reported; [apply throwing_reported|].
    intros barrels w2. apply andThen_reported; [apply throwing_reported|].
    intros individuals w3. apply andThen_reported.
    - apply par_reported, Forall_map_all. intros dir. simpl. done.
    - intros _ w4. apply par_reported, honest_writeBatch. }
  all: cbn [fst snd] in *; (split; [done|]); exists t; (split; [done|]).
  - by destruct a.
  - done.
  - done.
Qed.

(** X18. Whatever the schedules, [writeFilesForCache] tells what its calls
    did: when it gives a [Right], none of the calls it made has failed;
    when it gives a [Left], the failure is the failure of a call it made,
    and that call is in the trace. No failure is made up, and none of a
    call that counts is lost. *)
Theorem writeFilesForCache_reports_failures_as_they_are `{Imports} (env : Env)
    (schedules : Schedules) (config : Config) (cache : Cache)
    (schemaDef : SchemaDef) (targetPath : string)
    (generationOptions : GenerationOptions) (isDev : bool) (w : World) :
  let '(exit, w') :=
    writeFilesForCache env schedules config cache schemaDef targetPath
                       generationOptions isDev w in
  ∃ t, trace w' = trace w ++ t
       ∧ match exit with
         | Success (inr _) => none_failed w (length (trace w)) t
         | Success (inl e) => failed_with w (length (trace w)) t e
         | _ => True
         end.
Proof.
  pose proof (writeFilesForCache_reported env schedules config cache schemaDef
                targetPath generationOptions isDev w) as Hr.
  cbv zeta in Hr. destruct (writeFilesForCache _ _ _ _ _ _ _ _ w) as [exit w'].
  exact (proj2 Hr).
Qed.

Lemma batch_after_setup_stage {A B : Type} (m : Task GenerateDotpkgError A)
    (f : A → Task GenerateDotpkgError B) (w : World) :
  grows setup_event w (snd (m w)) → reported w (m w) →
  (∀ a w1, batch_after_setup w1 (snd (f a w1))) →
  batch_after_setup w (snd (andThen m f w)).
Proof.
  intros (t & Ht & Hsetup) (Hf & t' & Ht' & Hm) Hnext. unfold andThen.
  assert (t' = t) as -> by (eapply app_inv_head; by rewrite <- Ht, <- Ht').
  destruct (m w) as [[a|e|d] w1]; cbn [fst snd] in *.
  2,3: split; [done|]; exists t, []; rewrite app_nil_r; by auto.
  destruct (Hnext a w1) as (Hf2 & setup & batch & Ht2 & Hs2 & Hb2 & Hor).
  split; [congruence|]. exists (t ++ setup), batch.
  split; [by rewrite Ht2, Ht, <- !app_assoc|].
  split; [by apply Forall_app|]. split; [done|].
  destruct Hor as [->|Hnone]; [by left|]. right.
  eapply none_failed_app; [exact Hf|exact Hm|].
  by rewrite Ht, length_app in Hnone.
Qed.

(** X19. Whatever the schedules, the write batch of a
    [writeFilesForCache] starts only after a set-up without a failure:
    when a directory cannot be made, or the debug snapshot cannot be
    written, no artifact is removed or written and the bundler is not
    run. *)
Theorem failed_setup_stops_the_generation `{Imports} (env : Env)
    (schedules : Schedules) (config : Config) (cache : Cache)
    (schemaDef : SchemaDef) (targetPath : string)
    (generationOptions : GenerationOptions) (isDev : bool) (w : World) :
  let '(_, w') :=
    writeFilesForCache env schedules config cache schemaDef targetPath
                       generationOptions isDev w in
  ∃ setup batch,
    trace w' = trace w ++ setup ++ batch
    ∧ Forall setup_event setup ∧ Forall batch_event batch
    ∧ (batch = [] ∨ none_failed w (length (trace w)) setup).
Proof.
  enough (batch_after_setup w
            (snd (writeFilesForCache env schedules config cache schemaDef targetPath
                                     generationOptions isDev w))) as [_ Hb]
    by (destruct (writeFilesForCache _ _ _ _ _ _ _ _ w); exact Hb).
  unfold writeFilesForCache, either.
  match goal with
  | |- batch_after_setup _ (snd (let (e0, w') := ?m w in _)) =>
      enough (batch_after_setup w (snd (m w))) as Hm
        by (destruct (m w) as [[a|e|d] w']; exact Hm)
  end.
  apply batch_after_setup_stage.
  { destruct (CL_DEBUG env); [apply debugSnapshot_grows|apply grows_refl]. }
  { destruct (CL_DEBUG env); [apply debugSnapshot_reported|apply reported_refl]. }
  intros _ w1.
  apply batch_after_setup_stage; [apply throwing_setup|apply throwing_reported|].
  intros barrels w2.
  apply batch_after_setup_stage; [apply throwing_setup|apply throwing_reported|].
  intros individuals w3.
  apply batch_after_setup_stage.
  { apply par_grows, Forall_map_all. intros dir. simpl. done. }
  { apply par_reported, Forall_map_all. intros dir. simpl. done. }
  intros _ w4.
  destruct (par_grows batch_event env (writeSchedule schedules) _ w4
              (calls_writeBatch env config schemaDef targetPath generationOptions
                 isDev barrels individuals
                 (collectionDataJsonFiles targetPath
                    (typeFieldName (fieldOptions (options generationOptions)))
                    schemaDef cache))) as (t & Ht & Hbatch).
  destruct (par_reported env (writeSchedule schedules) _ w4
              (honest_writeBatch env config schemaDef targetPath generationOptions
                 isDev barrels individuals
                 (collectionDataJsonFiles targetPath
                    (typeFieldName (fieldOptions (options generationOptions)))
                    schemaDef cache))) as (Hf & _).
  split; [exact Hf|]. exists [], t. split; [exact Ht|].
  split; [constructor|]. split; [exact Hbatch|]. right. apply none_failed_nil.
Qed.

(* ===================================================================== *)
(** * 26. The success callback, the stream and the one-shot entry point *)
(* ===================================================================== *)

(** X20. With a success callback configured whose promise rejects, every
    cycle that does not die emits the rejection, wrapped as a
    [SuccessCallbackError], whatever the cycle had come to before: the
    count of a cache that was written and the failure of an emission or of
    a write are both replaced by it. The callback is the last call of the
    cycle, and the module it is handed is [generated/index.mjs] under the
    artifacts directory. *)
Theorem rejecting_callback_replaces_the_outcome `{Imports} (env : Env)
    (schedules : Schedules) (config : Config) (isDev : bool)
    (schemaDef : SchemaDef) (targetPath : string)
    (callback : SuccessCallback) (error : JsVal)
    (emission : GenerationErrorOr Cache) (w : World) :
  let modulePath := filePathJoin [getDirPath (cwd env); "generated"; "index.mjs"] in
  onSuccess (Source.options (source config)) = Some callback →
  callback modulePath = Rejects error →
  let '(exit, w') :=
    cycle env schedules config isDev schemaDef targetPath emission w in
  alive exit →
  exit = Success (inl (SuccessCallbackError error))
  ∧ last (trace w') = Some (OnSuccess modulePath).
Proof.
  intros modulePath Hcb Hreject.
  unfold cycle, eitherRight, writeStage, callbackStage, andThen, successCallback.
  rewrite Hcb. fold modulePath. rewrite Hreject.
  destruct emission as [failure|cache].
  - simpl. intros _. split; [done|]. by rewrite last_snoc.
  - destruct (writeFilesForCache _ _ _ _ _ _ _ _ w) as [[written|[]|d] w1];
      simpl; [|done].
    intros _. split; [done|]. by rewrite last_snoc.
Qed.

(** ** The two stages, element by element *)

(** The second stage: the files are left alone, the callback is invoked
    once when there is one, and the element is handed on or replaced by
    the rejection. *)
Lemma callbackStage_spec `{Imports} (env : Env) (config : Config)
    (generateInfo : GenerationErrorOr GenerateInfo) (w : World) :
  let '(exit, w') := callbackStage env config generateInfo w in
  files w' = files w
  ∧ (∃ t, trace w' = trace w ++ t
          ∧ invocations t
            = match onSuccess (Source.options (source config)) with
              | Some _ => 1
              | None => 0
              end)
  ∧ match exit with
    | Success outcome =>
        outcome = generateInfo
        ∨ ∃ error, outcome = inl (SuccessCallbackError error)
    | Failure impossible => False
    | Died d => ¬ settles (onSuccess (Source.options (source config)))
    end.
Proof.
  unfold callbackStage, successCallback.
  destruct (onSuccess _) as [callback|] eqn:Hcb.
  - destruct (callback _) eqn:Hc; cbn [files record trace];
      (split; [done|]); (split; [by eexists|]); eauto.
    intros Hs. by eapply Hs.
  - split; [done|]. split; [exists []; by rewrite app_nil_r|]. by left.
Qed.

Lemma writeFilesForCache_alive `{Imports} (env : Env)
    (schedules : Schedules) (config : Config) (cache : Cache)
    (schemaDef : SchemaDef) (targetPath : string)
    (generationOptions : GenerationOptions) (isDev : bool) (w : World) :
  well_formed (typeFieldName (fieldOptions (options generationOptions)))
              schemaDef cache →
  alive (fst (writeFilesForCache env schedules config cache schemaDef targetPath
                                 generationOptions isDev w)).
Proof.
  intros Hwf.
  destruct (well_formed_synthesis env targetPath _ schemaDef cache Hwf)
    as [[barrels Hb] [individuals Hi]].
  pose proof (writeFilesForCache_dies_by_throw env schedules config cache schemaDef
                targetPath generationOptions isDev w) as Hdies.
  destruct (writeFilesForCache _ _ _ _ _ _ _ _ w) as [[result|[]|d] w']; [done|].
  destruct (Hdies w' d eq_refl) as [Hd|Hd]; congruence.
Qed.

(** The first stage: no callback is invoked; a failure is handed on, a
    cache gives its count or a failure; and it dies only of a cache that
    is not well formed. *)
Lemma writeStage_spec `{Imports} (env : Env) (schedules : World → Schedules)
    (config : Config) (isDev : bool) (schemaDef : SchemaDef)
    (targetPath : string) (emission : GenerationErrorOr Cache) (w : World) :
  let typeNameField := typeFieldName (fieldOptions (Source.options (source config))) in
  let '(exit, w') :=
    eitherRight (fun cache w =>
      writeStage env (schedules w) config isDev schemaDef targetPath cache w)
      emission w in
  (∃ t, trace w' = trace w ++ t ∧ invocations t = 0)
  ∧ match exit with
    | Success written =>
        match emission with
        | inl failure => written = inl failure
        | inr cache =>
            written = inr {| documentCount := length (cacheItemsMap cache) |}
            ∨ ∃ error, written = inl error
        end
    | Failure impossible => False
    | Died d =>
        ∃ cache, emission = inr cache ∧ ¬ well_formed typeNameField schemaDef cache
    end.
Proof.
  intros typeNameField. unfold eitherRight, writeStage, andThen.
  destruct emission as [failure|cache].
  - split; [exists []; by rewrite app_nil_r|done].
  - pose proof (writeFilesForCache_invokes_nothing env (schedules w) config cache
                  schemaDef targetPath
                  {| sourcePluginType := Source.type (source config);
                     options := Source.options (source config) |} isDev w) as Hn.
    pose proof (fun Hwf => writeFilesForCache_alive env (schedules w) config cache
                  schemaDef targetPath
                  {| sourcePluginType := Source.type (source config);
                     options := Source.options (source config) |} isDev w Hwf)
      as Halive.
    destruct (writeFilesForCache _ _ _ _ _ _ _ _ w) as [[written|[]|d] w1];
      cbn [fst snd] in *; (split; [exact Hn|]).
    + destruct written; eauto.
    + exists cache. split; [done|]. intros Hwf. by apply Halive.
Qed.

(** ** The two stages, chunk by chunk *)

Lemma forEach_length {A B : Type} (f : A → Task Empty_set B) (chunk : list A)
    (mapped : list B) (w w' : World) :
  forEach f chunk w = (Success mapped, w') → length mapped = length chunk.
Proof.
  revert mapped w w'. induction chunk as [|a chunk IH]; intros mapped w w'; simpl.
  - by intros [= <- _].
  - unfold andThen at 1 2. destruct (f a w) as [[b|[]|d] w1]; [|done].
    destruct (forEach f chunk w1) as [[mapped'|[]|d] w2] eqn:Hrest; [|done].
    intros [= <- _]. simpl. by rewrite (IH _ _ _ Hrest).
Qed.

Lemma forEach_Forall2 {A B : Type} (f : A → Task Empty_set B) (Q : A → B → Prop)
    (chunk : list A) (mapped : list B) (w w' : World) :
  (∀ a w, match fst (f a w) with Success b => Q a b | _ => True end) →
  forEach f chunk w = (Success mapped, w') → Forall2 Q chunk mapped.
Proof.
  intros Hf. revert mapped w w'.
  induction chunk as [|a chunk IH]; intros mapped w w'; simpl.
  - intros [= <- _]. constructor.
  - unfold andThen at 1 2. specialize (Hf a w).
    destruct (f a w) as [[b|[]|d] w1]; [|done].
    destruct (forEach f chunk w1) as [[mapped'|[]|d] w2] eqn:Hrest; [|done].
    intros [= <- _]. constructor; [exact Hf|]. by eapply IH.
Qed.

Lemma forEach_alive {A B : Type} (f : A → Task Empty_set B) (P : A → Prop)
    (chunk : list A) (w : World) :
  (∀ a w, P a → alive (fst (f a w))) → Forall P chunk →
  alive (fst (forEach f chunk w)).
Proof.
  intros Hf Hall. revert w. induction Hall as [|a chunk Ha _ IH]; intros w; simpl.
  - done.
  - unfold andThen at 1 2. specialize (Hf a w Ha).
    destruct (f a w) as [[b|[]|d] w1]; [|done].
    specialize (IH w1). by destruct (forEach f chunk w1) as [[mapped'|[]|d] w2].
Qed.

Lemma forEach_files {A B : Type} (f : A → Task Empty_set B) (chunk : list A)
    (w : World) :
  (∀ a w, files (snd (f a w)) = files w) →
  files (snd (forEach f chunk w)) = files w.
Proof.
  intros Hf. revert w. induction chunk as [|a chunk IH]; intros w; simpl; [done|].
  unfold andThen at 1 2. specialize (Hf a w).
  destruct (f a w) as [[b|[]|d] w1]; cbn [snd] in *; [|done].
  specialize (IH w1).
  destruct (forEach f chunk w1) as [[mapped'|[]|d] w2]; cbn [snd] in *; congruence.
Qed.


Lemma take_none {A : Type} (s : S.t A) : S.take 0 s = S.Done.
Proof. by destruct s. Qed.

Lemma run_take_stages_cons `{Imports} (env : Env) (schedules : World → Schedules)
    (config : Config) (isDev : bool) (schemaDef : SchemaDef)
    (targetPath : string) (chunk : list (GenerationErrorOr Cache))
    (chunks : list (list (GenerationErrorOr Cache))) (n : nat) (w : World) :
  let first :=
    eitherRight (fun cache w =>
      writeStage env (schedules w) config isDev schemaDef targetPath cache w) in
  let rest := S.map element (stages env schedules config isDev schemaDef targetPath chunks) in
  S.run (S.take (S n)
           (S.map element
              (stages env schedules config isDev schemaDef targetPath
                      (chunk :: chunks)))) w
  = match forEach first chunk w with
    | (Success written, w1) =>
        match forEach (callbackStage env config) written w1 with
        | (Success outcomes, w2) =>
            emit (firstn (S n) (List.map element outcomes))
                 (S.run (S.take (S n - length (List.map element outcomes)) rest) w2)
        | (Failure impossible, _) => match impossible with end
        | (Died d, w2) => ({| emitted := []; died := Some d |}, w2)
        end
    | (Failure impossible, _) => match impossible with end
    | (Died d, w1) => ({| emitted := []; died := Some d |}, w1)
    end.
Proof.
  intros first rest. unfold stages, S.mapEffectEitherRight. cbn [S.fromChunks foldr
    S.mapEffect S.map S.take S.run]. fold first.
  destruct (forEach first chunk w) as [[written|[]|d] w1]; [|done].
  by destruct (forEach (callbackStage env config) written w1) as [[outcomes|[]|d] w2].
Qed.

(** The one-shot consumer takes one element and pulls no more: of the
    chunks of [fetchData] the first one that has an element goes through
    the two stages, as a whole, and no other. *)
Lemma run_take_1_stages `{Imports} (env : Env) (schedules : World → Schedules)
    (config : Config) (isDev : bool) (schemaDef : SchemaDef)
    (targetPath : string) (chunks : list (list (GenerationErrorOr Cache)))
    (w : World) :
  let first :=
    eitherRight (fun cache w =>
      writeStage env (schedules w) config isDev schemaDef targetPath cache w) in
  S.run (S.take 1 (S.map element
                     (stages env schedules config isDev schemaDef targetPath chunks))) w
  = match forEach first (firstChunk chunks) w with
    | (Success written, w1) =>
        match forEach (callbackStage env config) written w1 with
        | (Success outcomes, w2) =>
            ({| emitted := firstn 1 (List.map element outcomes); died := None |}, w2)
        | (Failure impossible, _) => match impossible with end
        | (Died d, w2) => ({| emitted := []; died := Some d |}, w2)
        end
    | (Failure impossible, _) => match impossible with end
    | (Died d, w1) => ({| emitted := []; died := Some d |}, w1)
    end.
Proof.
  intros first. induction chunks as [|chunk chunks IH]; [done|].
  rewrite run_take_stages_cons. cbv zeta. fold first.
  destruct chunk as [|emission chunk].
  - cbn [forEach firstChunk List.map firstn length Nat.sub]. rewrite IH.
    destruct (forEach first (firstChunk chunks) w) as [[written|[]|d] w1]; [|done].
    by destruct (forEach (callbackStage env config) written w1)
      as [[outcomes|[]|d] w2].
  - cbn [firstChunk].
    destruct (forEach first (emission :: chunk) w) as [[written|[]|d] w1] eqn:Hw;
      [|done].
    destruct (forEach (callbackStage env config) written w1)
      as [[outcomes|[]|d] w2] eqn:Ho; [|done].
    apply forEach_length in Hw. apply forEach_length in Ho.
    destruct outcomes as [|outcome outcomes]; [by destruct written|].
    cbn [List.map length]. rewrite Nat.sub_succ, Nat.sub_0_l.
    rewrite take_none. unfold emit. cbn. by rewrite app_nil_r.
Qed.

(** A chunk of one emission goes through the two stages as [cycle] has
    it. *)
Lemma chunk_of_one `{Imports} (env : Env) (schedules : World → Schedules)
    (config : Config) (isDev : bool) (schemaDef : SchemaDef)
    (targetPath : string) (emission : GenerationErrorOr Cache) (w : World) :
  let first :=
    eitherRight (fun cache w =>
      writeStage env (schedules w) config isDev schemaDef targetPath cache w) in
  match forEach first [emission] w with
  | (Success written, w1) => forEach (callbackStage env config) written w1
  | (Failure impossible, _) => match impossible with end
  | (Died d, w1) => (Died d, w1)
  end
  = match cycle env (schedules w) config isDev schemaDef targetPath emission w with
    | (Success outcome, w') => (Success [outcome], w')
    | (Failure impossible, _) => match impossible with end
    | (Died d, w') => (Died d, w')
    end.
Proof.
  intros first. subst first. unfold cycle, eitherRight. cbn [forEach].
  unfold andThen.
  destruct emission as [failure|cache].
  - cbn [forEach]. unfold andThen.
    by destruct (callbackStage env config (inl failure) w) as [[outcome|[]|d] w2].
  - destruct (writeStage _ _ _ _ _ _ cache w) as [[written|[]|d] w1]; [|done].
    cbn [forEach]. unfold andThen.
    by destruct (callbackStage env config written w1) as [[outcome|[]|d] w2].
Qed.

(** ** The stream without a defect *)

Lemma Forall2_compose {A B C : Type} (P : A → B → Prop) (Q : B → C → Prop)
    (R : A → C → Prop) (xs : list A) (ys : list B) (zs : list C) :
  (∀ x y z, P x y → Q y z → R x z) →
  Forall2 P xs ys → Forall2 Q ys zs → Forall2 R xs zs.
Proof.
  intros HR HP. revert zs. induction HP as [|x y xs ys Hxy _ IH]; intros zs HQ.
  - inversion HQ. constructor.
  - inversion HQ as [|y' z ys' zs' Hyz Hrest]; subst. constructor; eauto.
Qed.

(** Without a defect the stream has an outcome for every emission, in
    their order, and comes to its end. *)
Lemma stages_report `{Imports} (env : Env) (schedules : World → Schedules)
    (config : Config) (isDev : bool) (schemaDef : SchemaDef)
    (targetPath : string) (chunks : list (list (GenerationErrorOr Cache)))
    (w : World) :
  let typeNameField := typeFieldName (fieldOptions (Source.options (source config))) in
  Forall (Forall (fun emission =>
            ∀ cache, emission = inr cache →
                     well_formed typeNameField schemaDef cache)) chunks →
  settles (onSuccess (Source.options (source config))) →
  let '(stream, _) :=
    S.run (S.map element
             (stages env schedules config isDev schemaDef targetPath chunks)) w in
  died stream = None
  ∧ ∃ outcomes, emitted stream = List.map element outcomes
                ∧ Forall2 outcome_of (concat chunks) outcomes.
Proof.
  intros typeNameField Hwf Hsettles. revert w.
  induction Hwf as [|chunk chunks Hchunk _ IH]; intros w.
  - simpl. split; [done|]. exists []. split; [done|constructor].
  - rewrite run_stages_cons. cbv zeta.
    set (first := eitherRight _).
    assert (alive (fst (forEach first chunk w))) as Halive.
    { eapply forEach_alive; [|exact Hchunk]. intros emission w0 Hgood.
      pose proof (writeStage_spec env schedules config isDev schemaDef targetPath
                    emission w0) as Hspec.
      cbv zeta in Hspec. fold first in Hspec.
      destruct (first emission w0) as [[written|[]|d] w1]; [done|].
      destruct Hspec as [_ (cache & -> & Hbad)]. by apply Hbad, Hgood. }
    destruct (forEach first chunk w) as [[written|[]|d] w1] eqn:Hfirst; [|done].
    assert (alive (fst (forEach (callbackStage env config) written w1))) as Halive'.
    { eapply (forEach_alive _ (fun _ => True)); [|by apply Forall_true].
      intros generateInfo w0 _.
      pose proof (callbackStage_spec env config generateInfo w0) as Hspec.
      destruct (callbackStage env config generateInfo w0) as [[outcome|[]|d] w2];
        [done|]. by destruct Hspec as (_ & _ & Hthrows). }
    destruct (forEach (callbackStage env config) written w1)
      as [[outcomes|[]|d] w2] eqn:Hsecond; [|done].
    specialize (IH w2).
    destruct (S.run _ w2) as [stream w3]. destruct IH as (Hdied & rest & Hrest & Hall).
    unfold emit. cbn [fst snd emitted died]. split; [exact Hdied|].
    exists (outcomes ++ rest). rewrite Hrest, List.map_app. split; [done|].
    cbn [concat]. apply Forall2_app; [|exact Hall].
    eapply (Forall2_compose
              (fun emission written =>
                 match emission with
                 | inl failure => written = inl failure
                 | inr cache =>
                     written = inr {| documentCount := length (cacheItemsMap cache) |}
                     ∨ ∃ error, written = inl error
                 end)
              (fun written outcome =>
                 outcome = written
                 ∨ ∃ error, outcome = inl (SuccessCallbackError error))).
    + intros [failure|cache] x y Hx [->|[error ->]]; simpl in *;
        [by left|right; by eexists|exact Hx|right; by eexists].
    + eapply forEach_Forall2; [|exact Hfirst]. intros emission w0.
      pose proof (writeStage_spec env schedules config isDev schemaDef targetPath
                    emission w0) as Hspec.
      cbv zeta in Hspec. fold first in Hspec.
      destruct (first emission w0) as [[?|[]|?] ?]; cbn [fst]; [|done].
      by destruct Hspec.
    + eapply forEach_Forall2; [|exact Hsecond]. intros generateInfo w0.
      pose proof (callbackStage_spec env config generateInfo w0) as Hspec.
      destruct (callbackStage env config generateInfo w0) as [[?|[]|?] ?];
        cbn [fst]; [|done].
      by destruct Hspec as (_ & _ & ?).
Qed.

(** X23. What the stream does when nothing throws. With the schema and
    the target directory resolved, every cache of [fetchData] well formed
    (every singleton type has a document, the type of every document is a
    string) and a success callback, if there is one, that does not throw,
    the stream does not die and comes to the end of its input: it has
    emitted one outcome for every emission of [fetchData], in their order,
    a [Right] with the number of documents of the cache or a [Left]. A
    failure of [fetchData], of a write or of the callback is such a [Left]
    and does not end the stream. *)
Theorem stream_reports_every_cycle `{Imports} (env : Env)
    (schedules : World → Schedules) (races : World → Race) (config : Config)
    (verbose isDev : bool) (schemaDef : SchemaDef) (w : World) :
  let typeNameField := typeFieldName (fieldOptions (Source.options (source config))) in
  let emissions := concat (Source.fetchData (source config) schemaDef verbose) in
  Source.provideSchema (source config) (esbuildHash config) = inr schemaDef →
  fails w (length (trace w)) (Mkdirp (getDirPath (cwd env))) = false →
  (∀ cache, inr cache ∈ emissions → well_formed typeNameField schemaDef cache) →
  settles (onSuccess (Source.options (source config))) →
  let '(stream, _) :=
    S.run (generateDotpkgStream env schedules races config verbose isDev) w in
  died stream = None
  ∧ ∃ outcomes, emitted stream = List.map element outcomes
                ∧ Forall2 outcome_of emissions outcomes.
Proof.
  intros typeNameField emissions Hschema Hmade Hwf Hsettles.
  rewrite (proj1 (generateDotpkgStream_resolved env schedules races config verbose
                    isDev schemaDef w Hschema Hmade)).
  apply stages_report; [|exact Hsettles].
  apply Forall_forall. intros chunk Hchunk. apply Forall_forall.
  intros emission Hin cache ->. apply Hwf. subst emissions.
  apply list_elem_of_In, in_concat. exists chunk.
  split; by apply list_elem_of_In.
Qed.

(** ** The one-shot entry point *)

(** A stream whose parameters are not resolved at the first go resolves
    them once more and emits what it gets. *)
Lemma generateDotpkgStream_unresolved `{Imports} (env : Env)
    (schedules : World → Schedules) (races : World → Race) (config : Config)
    (verbose isDev : bool) (error : GenerateDotpkgError) (n : nat)
    (w w1 : World) :
  let w0 := set_writtenFilesCache ∅ w in
  resolveParams env (races w0) config w0 = (Success (inl error), w1) →
  S.run (S.take (S n)
           (generateDotpkgStream env schedules races config verbose isDev)) w
  = match resolveParams env (races w1) config w1 with
    | (Success again, w2) =>
        ({| emitted := [sum_map id inl again]; died := None |}, w2)
    | (Failure impossible, _) => match impossible with end
    | (Died d, w2) => ({| emitted := []; died := Some d |}, w2)
    end.
Proof.
  intros w0 Hr.
  unfold generateDotpkgStream, S.chainMapEitherRight, S.fromEffect.
  cbn [S.run S.take S.chain]. fold w0. rewrite Hr.
  cbn [foldr S.chain S.map S.append S.take S.run].
  destruct (resolveParams env (races w1) config w1) as [[again|[]|d] w2]; [|done].
  cbn. by destruct n.
Qed.

Lemma one_shot_unresolved `{Imports} (env : Env)
    (schedules : World → Schedules) (races : World → Race) (config : Config)
    (verbose : bool) (error : GenerateDotpkgError) (w w1 : World) :
  let w0 := set_writtenFilesCache ∅ w in
  resolveParams env (races w0) config w0 = (Success (inl error), w1) →
  let '(exit, w') := generateDotpkg env schedules races config verbose w in
  invocations (events_since w w') = 0
  ∧ ∀ info, exit ≠ Success (inr info).
Proof.
  intros w0 Hr. unfold generateDotpkg, S.runCollect.
  rewrite (generateDotpkgStream_unresolved env schedules races config verbose false
             error 0 w w1 Hr).
  pose proof (resolveParams_invokes_nothing env (races w0) config w0) as H1.
  rewrite Hr in H1. destruct H1 as (_ & _ & t1 & Ht1 & Hz1).
  pose proof (resolveParams_invokes_nothing env (races w1) config w1) as H2.
  destruct (resolveParams env (races w1) config w1) as [[again|[]|d] w2];
    destruct H2 as (Halive & _ & t2 & Ht2 & Hz2); [|done].
  assert (invocations (events_since w w2) = 0) as Hzero.
  { unfold events_since. rewrite Ht2, Ht1. change (trace w0) with (trace w).
    by rewrite <- app_assoc, drop_app_length, invocations_app, Hz1, Hz2. }
  destruct again as [error'|params]; cbn; (split; [exact Hzero|]); done.
Qed.

(** What a one-shot generation whose parameters are resolved does: the
    first chunk through the two stages, and the first outcome. *)
Lemma one_shot_resolved `{Imports} (env : Env)
    (schedules : World → Schedules) (races : World → Race) (config : Config)
    (verbose : bool) (schemaDef : SchemaDef) (w : World) :
  let dirPath := getDirPath (cwd env) in
  let w1 := record (Mkdirp dirPath) (set_writtenFilesCache ∅ w) in
  let first :=
    eitherRight (fun cache w =>
      writeStage env (schedules w) config false schemaDef dirPath cache w) in
  let chunk := firstChunk (Source.fetchData (source config) schemaDef verbose) in
  Source.provideSchema (source config) (esbuildHash config) = inr schemaDef →
  fails w (length (trace w)) (Mkdirp dirPath) = false →
  generateDotpkg env schedules races config verbose w
  = match forEach first chunk w1 with
    | (Success written, w2) =>
        match forEach (callbackStage env config) written w2 with
        | (Success outcomes, w3) =>
            match outcomes with
            | inr info :: _ => (Success (inr info), w3)
            | inl error :: _ => (Failure error, w3)
            | [] => (Died (TypeError "Chunk.unsafeHead: empty chunk"), w3)
            end
        | (Failure impossible, _) => match impossible with end
        | (Died d, w3) => (Died d, w3)
        end
    | (Failure impossible, _) => match impossible with end
    | (Died d, w2) => (Died d, w2)
    end.
Proof.
  intros dirPath w1 first chunk Hschema Hmade. unfold generateDotpkg, S.runCollect.
  rewrite (proj2 (generateDotpkgStream_resolved env schedules races config verbose
                    false schemaDef w Hschema Hmade) 0).
  fold dirPath w1. rewrite run_take_1_stages. fold first chunk.
  destruct (forEach first chunk w1) as [[written|[]|d] w2]; [|done].
  destruct (forEach (callbackStage env config) written w2)
    as [[outcomes|[]|d] w3]; [|done].
  by destruct outcomes as [|[error|info] outcomes].
Qed.


(** A cycle that emits a count has landed every artifact of its cache. *)
Lemma cycle_lands `{Imports} (env : Env) (schedules : Schedules)
    (config : Config) (isDev : bool) (schemaDef : SchemaDef)
    (targetPath : string) (cache : Cache) (w : World) :
  let generationOptions :=
    {| sourcePluginType := Source.type (source config);
       options := Source.options (source config) |} in
  let artifacts :=
    artifactsOf env config cache schemaDef targetPath generationOptions isDev in
  let result := cycle env schedules config isDev schemaDef targetPath (inr cache) w in
  NoDup (List.map Artifact.filePath artifacts) →
  (∃ info, fst result = Success (inr info)) →
  Forall (fun a => role_done (snd result) (role_of a) ∧ defined a) artifacts.
Proof.
  intros generationOptions artifacts result Hnd [info Hok]. subst result.
  pose proof (writeFilesForCache_lands env schedules config cache schemaDef
                targetPath generationOptions isDev w Hnd) as Hlands.
  cbv zeta in Hlands. fold artifacts in Hlands.
  unfold cycle, eitherRight, writeStage, callbackStage, andThen, successCallback in *.
  fold generationOptions in Hok |- *.
  destruct (writeFilesForCache _ _ _ _ _ _ _ _ w) as [[written|[]|d] w1];
    [|done]. cbn [fst snd] in Hlands.
  destruct written as [failure|[]].
  { destruct (onSuccess _) as [callback|]; [destruct (callback _)|]; done. }
  specialize (Hlands eq_refl).
  destruct (onSuccess _) as [callback|]; [destruct (callback _)|]; done.
Qed.

(** X22. What the one-shot entry point leaves when it succeeds with a
    count and the first chunk of the data source that has an emission has
    one emission, a cache: every artifact of the schema and that cache,
    made for a production build, is on disk under the artifacts directory,
    the file at its path holding its content, when the paths of the
    artifacts are pairwise distinct. *)
Theorem one_shot_generation_writes_the_package `{Imports} (env : Env)
    (schedules : World → Schedules) (races : World → Race) (config : Config)
    (verbose : bool) (schemaDef : SchemaDef) (cache : Cache) (w : World) :
  let generationOptions :=
    {| sourcePluginType := Source.type (source config);
       options := Source.options (source config) |} in
  let artifacts :=
    artifactsOf env config cache schemaDef (getDirPath (cwd env))
                generationOptions false in
  let '(exit, w') := generateDotpkg env schedules races config verbose w in
  Source.provideSchema (source config) (esbuildHash config) = inr schemaDef →
  firstChunk (Source.fetchData (source config) schemaDef verbose) = [inr cache] →
  NoDup (List.map Artifact.filePath artifacts) →
  (∃ info, exit = Success (inr info)) →
  ∀ a, a ∈ artifacts →
    ∃ text, Artifact.content a = Some text
            ∧ files w' !! Artifact.filePath a = Some text.
Proof.
  intros generationOptions artifacts.
  set (dirPath := getDirPath (cwd env)) in *.
  set (w0 := set_writtenFilesCache ∅ w).
  destruct (generateDotpkg _ _ _ _ _ w) as [exit w'] eqn:Hrun.
  intros Hschema Hchunk Hnd [info ->] a Ha.
  destruct (fails w (length (trace w)) (Mkdirp dirPath)) eqn:Hmade.
  { exfalso.
    assert (resolveParams env (races w0) config w0
            = (Success (inl (MkdirError dirPath)), record (Mkdirp dirPath) w0))
      as Hr.
    { unfold resolveParams, perform. fold dirPath. rewrite Hschema.
      change (fails w0) with (fails w). change (trace w0) with (trace w).
      rewrite Hmade. by destruct (races w0). }
    pose proof (one_shot_unresolved env schedules races config verbose
                  (MkdirError dirPath) w (record (Mkdirp dirPath) w0) Hr) as Hone.
    rewrite Hrun in Hone. destruct Hone as [_ Hno]. by apply (Hno info). }
  rewrite (one_shot_resolved env schedules races config verbose schemaDef w
             Hschema Hmade) in Hrun.
  fold dirPath w0 in Hrun. rewrite Hchunk in Hrun.
  set (w1 := record (Mkdirp dirPath) w0) in Hrun.
  pose proof (chunk_of_one env schedules config false schemaDef dirPath
                (inr cache) w1) as Hone.
  cbv zeta in Hone.
  pose proof (cycle_lands env (schedules w1) config false schemaDef dirPath cache w1)
    as Hlands.
  cbv zeta in Hlands. fold generationOptions artifacts in Hlands.
  unfold GenerationErrorOr in *.
  destruct (forEach _ [inr cache] w1) as [[written|[]|d] w2]; [|done].
  rewrite Hone in Hrun.
  destruct (cycle env (schedules w1) config false schemaDef dirPath (inr cache) w1)
    as [[outcome|[]|d] w3]; [|done].
  destruct outcome as [error|info']; [done|]. injection Hrun as <- <-.
  cbn [fst snd] in Hlands.
  pose proof (proj1 (Forall_forall _ _) (Hlands Hnd ltac:(by eexists)) a Ha)
    as [Hdone [text Ht]].
  exists text. split; [done|]. unfold role_of in Hdone. rewrite Ht in Hdone.
  by destruct Hdone.
Qed.

(* ===================================================================== *)
(** * 27. The small project, run *)
(* ===================================================================== *)

#[local] Existing Instance Fixture.imports.

(** The schema hash ["abc123"] gives the version ["0.0.0-abc123"]. *)
Lemma makePackageJson_version_abc123 :
  plain "abc123" = true
  ∧ version_of (packageJson "abc123") = Some (JStr "0.0.0-abc123")
  ∧ makePackageJson "abc123"
    = manifest_prefix +:+ Json.dquote +:+ "0.0.0-abc123" +:+ Json.dquote
      +:+ manifest_suffix.
Proof.
  destruct (makePackageJson_version "abc123") as (Hv & Ht & Hq).
  split; [reflexivity|]. split; [exact Hv|].
  rewrite Ht, (Hq eq_refl). reflexivity.
Defined.

(** The two posts of the project. *)
Lemma individual_json_paths_of_Post_witness :
  artifact_paths
    (individualDataJsonFiles Fixture.targetPath "type" Fixture.cache_without_home)
  = inr [ "/app/.contentlayer/generated/Post/_1-a.json";
          "/app/.contentlayer/generated/Post/_2-b.json" ].
Proof.
  exact (individual_json_paths_of_Post Fixture.targetPath "type"
           (Fixture.doc "1-a" "Post") (Fixture.doc "2-b" "Post")
           "1-a" "2-b" "h2" "h3" eq_refl eq_refl eq_refl eq_refl).
Defined.

(** C6 as it is stated does not hold: the files of the two posts are not
    [_1_a.json] and [_2_b.json]. *)
Lemma individual_json_paths_not_underscored :
  artifact_paths
    (individualDataJsonFiles Fixture.targetPath "type" Fixture.cache_without_home)
  ≠ inr [ "/app/.contentlayer/generated/Post/_1_a.json";
          "/app/.contentlayer/generated/Post/_2_b.json" ].
Proof. vm_compute. discriminate. Qed.

(** C7, where the code leaves it. For the type [post] and the ids
    ["post1"] and ["!"] both import names are [post1]: the first id
    camel-cases to [post1], the second to the empty string, which is no
    identifier, and its fall-back name, [post] and the index [1], is not
    checked against the names in use. The barrel file imports [post1]
    twice. *)
Theorem import_names_collide :
  let post := {| name := "post"; isSingleton := false |} in
  makeVariableName post ∅ "post1" 0 = "post1"
  ∧ CamelCase.camelCase (idToFileName "!") = ""
  ∧ makeVariableName post {[ "post1" ]} "!" 1 = "post1"
  ∧ importNames post ["post1"; "!"] = ["post1"; "post1"]
  ∧ ¬ NoDup (importNames post ["post1"; "!"])
  ∧ makeDataExportFile post ["post1"; "!"] ""
    = inr ("// NOTE This file is auto-generated by Contentlayer" +:+ nl
           +:+ nl
           +:+ "import post1 from './post1.json'" +:+ nl
           +:+ "import post1 from './!.json'" +:+ nl
           +:+ nl
           +:+ "export const allpost = [post1, post1]" +:+ nl).
Proof.
  assert (importNames {| name := "post"; isSingleton := false |} ["post1"; "!"]
          = ["post1"; "post1"]) as Hn by (vm_compute; reflexivity).
  cbv zeta. rewrite Hn.
  split; [vm_compute; reflexivity|].
  split; [vm_compute; reflexivity|].
  split; [vm_compute; reflexivity|].
  split; [reflexivity|].
  split; [|vm_compute; reflexivity].
  intros Hnd. apply NoDup_cons in Hnd as [Hnotin _].
  apply Hnotin. left.
Qed.

(** A write that is skipped and a write that is made. *)
Lemma cached_write_skips_or_writes_witness :
  let w := set_writtenFilesCache {[ "/out/a.json" := "h1" ]} Fixture.world in
  run Fixture.env
    (writeFileWithWrittenFilesCache
       (args_of "/out/a.json" "{}" (Some "h1") (Some false))) w
  = (Success tt, w)
  ∧ let '(exit, w') :=
      run Fixture.env
        (writeFileWithWrittenFilesCache
           (args_of "/out/a.json" "{}" (Some "h2") (Some false))) w in
    events_since w w' = [WriteFile "/out/a.json" "{}"]
    ∧ exit = Success tt
    ∧ files w' = <[ "/out/a.json" := "{}" ]> (files w).
Proof.
  intros w. split.
  - pose proof (cached_write_skips_or_writes Fixture.env
                  (args_of "/out/a.json" "{}" (Some "h1") (Some false)) w) as Hspec.
    cbv zeta in Hspec.
    destruct (run _ _ w) as [exit w'].
    destruct Hspec as [Hskip _].
    destruct Hskip as [-> ->]; [|reflexivity].
    split; [|reflexivity]. exists "h1". split; reflexivity.
  - pose proof (cached_write_skips_or_writes Fixture.env
                  (args_of "/out/a.json" "{}" (Some "h2") (Some false)) w) as Hspec.
    cbv zeta in Hspec.
    destruct (run _ _ w) as [exit w'].
    destruct Hspec as [_ Hwrite].
    destruct Hwrite as [_ Hwrite].
    + intros [(fingerprint & [= <-] & Hcached) _]. vm_compute in Hcached.
      discriminate Hcached.
    + destruct (Hwrite eq_refl) as (Hev & Hexit & Hfiles). done.
Defined.

(** The aggregate of a type without documents has the empty string as its
    fingerprint, and the written-files cache does not take it. *)
Lemma empty_fingerprint_is_not_stored_witness :
  let posts := {| name := "Note"; isSingleton := false |} in
  let artifact :=
    collectionDataJsonFile Fixture.targetPath "type" Fixture.cache posts in
  let filePath := "/app/.contentlayer/generated/Note/_index.json" in
  Artifact.filePath artifact = filePath
  ∧ Artifact.content artifact = Some "[]"
  ∧ Artifact.documentHash artifact = Some ""
  ∧ let '(exit, w') := run Fixture.env (writeArtifact artifact) Fixture.world in
    exit = Success tt
    ∧ files w' !! filePath = Some "[]"
    ∧ writtenFilesCache w' !! filePath ≠ Some "".
Proof.
  cbv zeta. split; [reflexivity|]. split; [reflexivity|]. split; [reflexivity|].
  pose proof (empty_fingerprint_is_not_stored Fixture.env
                "/app/.contentlayer/generated/Note/_index.json" "[]" None
                Fixture.world) as Hspec.
  cbv zeta in Hspec.
  change (writeArtifact _) with
    (writeFileWithWrittenFilesCache
       (args_of "/app/.contentlayer/generated/Note/_index.json" "[]" (Some "") None)).
  destruct (run _ _ _) as [exit w'].
  apply Hspec; done.
Defined.

(** The project before its page is written: the singleton [Page] has no
    document. *)
Lemma singleton_without_document_throws_witness :
  makeDataExportFile Fixture.Page [] (assertStatement Fixture.env)
  = inl undefined_replace
  ∧ Artifact.content
      (collectionDataJsonFile Fixture.targetPath "type" Fixture.cache_without_home
                              Fixture.Page) = None
  ∧ writeFilesForCache Fixture.env sequential (Fixture.config false None [])
      Fixture.cache_without_home Fixture.schemaDef Fixture.targetPath
      (Fixture.generationOptions false) true Fixture.world
    = (Died undefined_replace, Fixture.world).
Proof.
  apply (singleton_without_document_throws Fixture.env sequential
           (Fixture.config false None []) Fixture.cache_without_home
           Fixture.schemaDef Fixture.targetPath (Fixture.generationOptions false)
           true Fixture.Page Fixture.world).
  - reflexivity.
  - vm_compute. left.
  - reflexivity.
  - reflexivity.
Defined.

(** A failed emission of [fetchData], and a write batch on a disk that
    takes no writes: the callback is invoked in both cycles. *)
Lemma success_callback_runs_in_failed_cycle_witness :
  let config := Fixture.config false (Some Fixture.resolves) [] in
  (let '(exit, w') :=
     cycle Fixture.env sequential config true Fixture.schemaDef Fixture.targetPath
           (inl Fixture.boom) Fixture.world in
   (∃ error', exit = Success (inl error'))
   ∧ invocations (events_since Fixture.world w') = 1)
  ∧ (let '(exit, w') :=
       cycle Fixture.env sequential config true Fixture.schemaDef
             Fixture.targetPath (inr Fixture.cache)
             (Fixture.read_only Fixture.world) in
     (∃ error', exit = Success (inl error'))
     ∧ invocations (events_since (Fixture.read_only Fixture.world) w') = 1).
Proof.
  intros config. split.
  - exact (proj1 (success_callback_runs_in_failed_cycle Fixture.env sequential config
                    true Fixture.schemaDef Fixture.targetPath Fixture.resolves
                    Fixture.world eq_refl) Fixture.boom).
  - refine (proj2 (success_callback_runs_in_failed_cycle Fixture.env sequential config
                     true Fixture.schemaDef Fixture.targetPath Fixture.resolves
                     (Fixture.read_only Fixture.world) eq_refl) Fixture.cache
                  (WriteFileError "/app/.contentlayer/package.json") _ _).
    vm_compute. reflexivity.
Defined.

(** A callback that throws when it is invoked in a cycle that has failed:
    the cycle dies of what was thrown, the failure is not emitted. *)
Example throwing_callback_ends_the_cycle :
  let config := Fixture.config false (Some Fixture.throws) [] in
  let '(exit, w') :=
    cycle Fixture.env sequential config true Fixture.schemaDef Fixture.targetPath
          (inl Fixture.boom) Fixture.world in
  exit = Died (Thrown (JStr "thrown"))
  ∧ trace w' = [OnSuccess "/app/.contentlayer/generated/index.mjs"].
Proof. vm_compute. by split. Qed.

(** C5 as it is stated does not hold: when the bundling step gets the first
    turn of the batch, its first call is made before any artifact is
    written. The first five calls are the three [mkdirp], the version
    lookup of the bundling step, and the first removal of the writes. *)
Lemma bundling_starts_before_the_writes_settle :
  let t := events_since Fixture.world (Fixture.batch_run Fixture.bundler_first) in
  writes_settle_before_bundling t = false
  ∧ List.map is_bundling (take 5 t) = [false; false; false; true; false]
  ∧ List.map is_write (take 5 t) = [false; false; false; false; true].
Proof. vm_compute. repeat split. Qed.

(** C1, where the code leaves it. The project is generated twice with the
    same schema and the same cache. After the first run the written-files
    cache has the fingerprint of every per-document JSON file; the second
    run removes and writes these files all the same, and the two
    aggregate files with them. *)
Theorem second_run_rewrites_fingerprinted_artifacts :
  let '(w1, w2) := Fixture.second_run in
  writtenFilesCache w1 !! "/app/.contentlayer/generated/Page/home.json" = Some "h1"
  ∧ writtenFilesCache w1 !! "/app/.contentlayer/generated/Post/_1-a.json" = Some "h2"
  ∧ writtenFilesCache w1 !! "/app/.contentlayer/generated/Post/_2-b.json" = Some "h3"
  ∧ writtenFilesCache w2 !! "/app/.contentlayer/generated/Post/_1-a.json" = Some "h2"
  ∧ written_paths (events_since w1 w2)
    = [ "/app/.contentlayer/package.json";
        "/app/.contentlayer/generated/types.d.ts";
        "/app/.contentlayer/generated/index.d.ts";
        "/app/.contentlayer/generated/index.mjs";
        "/app/.contentlayer/generated/Page/_index.mjs";
        "/app/.contentlayer/generated/Post/_index.mjs";
        "/app/.contentlayer/generated/Page/home.json";
        "/app/.contentlayer/generated/Post/_1-a.json";
        "/app/.contentlayer/generated/Post/_2-b.json";
        "/app/.contentlayer/generated/Page/_index.json";
        "/app/.contentlayer/generated/Post/_index.json" ].
Proof. vm_compute. repeat split. Qed.

(** A stream of three emissions, each a chunk of its own, the second one a
    failure: three outcomes, and the third cycle is worked off like the
    first. *)
Lemma stream_goes_on_after_a_failed_cycle :
  let config :=
    Fixture.config false None
      [[inr Fixture.cache]; [inl Fixture.boom]; [inr Fixture.cache]] in
  let '(stream, w') :=
    S.run (generateDotpkgStream Fixture.env Fixture.in_order Fixture.at_once config
                                false true)
          Fixture.world in
  emitted stream
  = [ inr (inr {| documentCount := 3 |}); inl Fixture.boom;
      inr (inr {| documentCount := 3 |}) ]
  ∧ died stream = None
  ∧ length (written_paths (trace w')) = 22.
Proof. vm_compute. repeat split. Qed.

(** C8 on the project. The data source emits the project and, in the same
    chunk, the project before its page was written, and then the project
    once more. The eleven files of the first cache are written; the
    synthesis for the second one throws; the stream has died without an
    outcome, of the first cache as little as of the second, the success
    callback was never invoked, and the third emission is not worked
    on. *)
Lemma defect_of_a_cycle_ends_the_stream_witness :
  let config :=
    Fixture.config false (Some Fixture.resolves)
      [[inr Fixture.cache; inr Fixture.cache_without_home]; [inr Fixture.cache]] in
  let '(stream, w') :=
    S.run (generateDotpkgStream Fixture.env Fixture.in_order Fixture.at_once config
                                false true)
          Fixture.world in
  emitted stream = [] ∧ died stream = Some undefined_replace
  ∧ length (written_paths (trace w')) = 11
  ∧ invocations (trace w') = 0.
Proof.
  intros config.
  set (w1 := record (Mkdirp "/app/.contentlayer")
                    (set_writtenFilesCache ∅ Fixture.world)).
  set (w2 := snd (writeStage Fixture.env sequential config true Fixture.schemaDef
                    "/app/.contentlayer" Fixture.cache w1)).
  rewrite (defect_of_a_cycle_ends_the_stream Fixture.env Fixture.in_order
             Fixture.at_once config false true Fixture.schemaDef
             [inr Fixture.cache] [] Fixture.cache_without_home [[inr Fixture.cache]]
             [inr {| documentCount := 3 |}] undefined_replace Fixture.world w2 w2
             eq_refl eq_refl eq_refl);
    [|vm_compute; reflexivity..].
  vm_compute. repeat split.
Defined.

(** A callback that throws ends the stream like any defect. *)
Example throwing_callback_ends_the_stream :
  let config :=
    Fixture.config false (Some Fixture.throws)
      [[inr Fixture.cache]; [inr Fixture.cache]] in
  let '(stream, w') :=
    S.run (generateDotpkgStream Fixture.env Fixture.in_order Fixture.at_once config
                                false true)
          Fixture.world in
  emitted stream = [] ∧ died stream = Some (Thrown (JStr "thrown"))
  ∧ length (written_paths (trace w')) = 11
  ∧ invocations (trace w') = 1.
Proof. vm_compute. repeat split. Qed.

(** A schema that fails at once: the stream emits its failure, and the
    directory is not asked for, neither at the first go nor at the second.
    When the schema fails later, the directory is asked for both times. *)
Example failed_schema_makes_no_directory :
  let config :=
    {| source :=
         {| Source.type := "local";
            Source.options := Fixture.pluginOptions false None;
            Source.provideSchema := fun _ => inl (SourceProvideSchemaError "no schema");
            Source.fetchData := fun _ _ => [[inr Fixture.cache]] |};
       esbuildHash := "e5b";
       filePath := "/app/contentlayer.config.ts" |} in
  let run races :=
    S.run (generateDotpkgStream Fixture.env Fixture.in_order races config false true)
          Fixture.world in
  emitted (fst (run Fixture.at_once)) = [inl (SourceProvideSchemaError "no schema")]
  ∧ trace (snd (run Fixture.at_once)) = []
  ∧ emitted (fst (run (fun _ => SchemaFirst)))
    = [inl (SourceProvideSchemaError "no schema")]
  ∧ trace (snd (run (fun _ => SchemaFirst)))
    = [Mkdirp "/app/.contentlayer"; Mkdirp "/app/.contentlayer"].
Proof. vm_compute. repeat split. Qed.

(** A directory that cannot be made is asked for twice, and the stream
    emits the failure of the second go. *)
Example failed_directory_is_tried_again :
  let config := Fixture.config false None [[inr Fixture.cache]] in
  let '(stream, w') :=
    S.run (generateDotpkgStream Fixture.env Fixture.in_order Fixture.at_once config
                                false true)
          (Fixture.no_directories Fixture.world) in
  emitted stream = [inl (MkdirError "/app/.contentlayer")]
  ∧ died stream = None
  ∧ trace w' = [Mkdirp "/app/.contentlayer"; Mkdirp "/app/.contentlayer"].
Proof. vm_compute. repeat split. Qed.

(* ===================================================================== *)
(** * 28. The small project, run again *)
(* ===================================================================== *)


(** A slash and a hyphen at the same place. *)
Lemma idToFileName_distinct_without_underscore_witness :
  idToFileName "posts/a.md" ≠ idToFileName "posts-a.md".
Proof.
  apply idToFileName_distinct_without_underscore;
    [reflexivity|reflexivity|discriminate].
Defined.

(** The names of three posts. *)
Lemma import_names_are_identifiers_witness :
  Forall (fun n => isValidJsVarName n = true)
         (importNames Fixture.Post ["1-a"; "2-b"; "notes/c.md"]).
Proof.
  exact (proj1 (import_names_are_identifiers Fixture.Post
                  ["1-a"; "2-b"; "notes/c.md"] eq_refl)).
Defined.

Lemma import_names_distinct_for_capitalised_type_witness :
  NoDup (importNames Fixture.Post ["1-a"; "2-b"; "notes/c.md"]).
Proof.
  apply import_names_distinct_for_capitalised_type; [reflexivity|].
  apply (bool_decide_unpack _). vm_compute. exact I.
Defined.

(** The two posts of the project have no property [documentHash]; their
    cache items have the fingerprints [h2] and [h3]. *)
Lemma aggregate_fingerprint_without_document_property_witness :
  List.map documentHash (allCacheItems Fixture.cache_without_home) = ["h2"; "h3"]
  ∧ Artifact.documentHash
      (collectionDataJsonFile Fixture.targetPath "type" Fixture.cache_without_home
                              Fixture.Post) = Some "".
Proof.
  split; [reflexivity|].
  apply aggregate_fingerprint_without_document_property.
  intros d Hd. apply list_elem_of_In in Hd. simpl in Hd.
  destruct Hd as [<-|[<-|[]]]; reflexivity.
Defined.

Lemma fixture_well_formed : well_formed "type" Fixture.schemaDef Fixture.cache.
Proof.
  split.
  - intros docDef Hin _. apply list_elem_of_In in Hin. simpl in Hin.
    destruct Hin as [<-|[<-|[]]]; vm_compute; discriminate.
  - intros item Hin. apply list_elem_of_In in Hin. simpl in Hin.
    destruct Hin as [<-|[<-|[<-|[]]]]; by eexists.
Defined.

(** The project on a disk that takes no writes: a [Left], no crash. *)
Lemma well_formed_cache_never_crashes_witness :
  ∃ result,
    fst (writeFilesForCache Fixture.env sequential (Fixture.config false None [])
           Fixture.cache Fixture.schemaDef Fixture.targetPath
           (Fixture.generationOptions false) true
           (Fixture.read_only Fixture.world))
    = Success result.
Proof.
  pose proof (well_formed_cache_never_crashes Fixture.env sequential
                (Fixture.config false None []) Fixture.cache Fixture.schemaDef
                Fixture.targetPath (Fixture.generationOptions false) true
                (Fixture.read_only Fixture.world) fixture_well_formed) as Hspec.
  destruct (writeFilesForCache _ _ _ _ _ _ _ _ _) as [exit w']. exact Hspec.
Defined.

(** A write to [a.json] leaves [b.json] and its fingerprint alone, and
    stores its own. *)
Lemma cached_write_touches_only_its_path_witness :
  let w :=
    {| files := {[ "/out/b.json" := "{}" ]};
       writtenFilesCache := {[ "/out/b.json" := "h0" ]};
       trace := []; fails := fun _ _ => false |} in
  let '(exit, w') :=
    run Fixture.env
      (writeFileWithWrittenFilesCache (args_of "/out/a.json" "[]" (Some "h1") None))
      w in
  files w' !! "/out/b.json" = Some "{}"
  ∧ writtenFilesCache w' !! "/out/b.json" = Some "h0"
  ∧ writtenFilesCache w' !! "/out/a.json" = Some "h1".
Proof.
  intros w.
  pose proof (cached_write_touches_only_its_path Fixture.env
                (args_of "/out/a.json" "[]" (Some "h1") None) w) as Hspec.
  cbv zeta in Hspec.
  destruct (run _ _ w) as [exit w'] eqn:Hrun.
  destruct Hspec as (Hother & Hstored & _).
  destruct (Hother "/out/b.json") as [-> ->]; [discriminate|].
  split; [reflexivity|]. split; [reflexivity|].
  rewrite (Hstored "h1"); [apply lookup_insert_eq| |reflexivity|discriminate].
  apply (f_equal fst) in Hrun. vm_compute in Hrun. congruence.
Defined.

Lemma fixture_paths_distinct :
  NoDup (List.map Artifact.filePath
           (artifactsOf Fixture.env (Fixture.config true None []) Fixture.cache
              Fixture.schemaDef Fixture.targetPath (Fixture.generationOptions true)
              true)).
Proof. apply (bool_decide_unpack _). vm_compute. exact I. Defined.

(** The project with the bundling step at the first turn of the batch:
    the manifest and the file of the first post are on disk. *)
Lemma successful_generation_writes_every_artifact_witness :
  let w' := snd (Fixture.generated Fixture.bundler_first Fixture.world) in
  files w' !! "/app/.contentlayer/package.json" = Some (makePackageJson "abc123")
  ∧ files w' !! "/app/.contentlayer/generated/Post/_1-a.json"
    = Some (Json.serialize 0 (JObj (fields (Fixture.doc "1-a" "Post")))).
Proof.
  intros w'. subst w'. unfold Fixture.generated.
  pose proof (successful_generation_writes_every_artifact Fixture.env
                Fixture.bundler_first (Fixture.config true None []) Fixture.cache
                Fixture.schemaDef Fixture.targetPath (Fixture.generationOptions true)
                true Fixture.world) as Hspec.
  cbv zeta in Hspec.
  destruct (writeFilesForCache _ _ _ _ _ _ _ _ _) as [exit w'] eqn:Hrun.
  assert (exit = Success (inr tt)) as Hexit.
  { apply (f_equal fst) in Hrun. vm_compute in Hrun. congruence. }
  specialize (Hspec fixture_paths_distinct Hexit). cbn [snd]. split.
  - destruct (Hspec {| Artifact.content := Some (makePackageJson "abc123");
                       Artifact.filePath := "/app/.contentlayer/package.json";
                       Artifact.documentHash := None |})
      as (text & Htext & Hfile); [apply list_elem_of_In; vm_compute; tauto|].
    cbn in Htext, Hfile. by rewrite Hfile, <- Htext.
  - destruct (Hspec
                {| Artifact.content :=
                     Some (Json.serialize 0 (JObj (fields (Fixture.doc "1-a" "Post"))));
                   Artifact.filePath := "/app/.contentlayer/generated/Post/_1-a.json";
                   Artifact.documentHash := Some "h2" |})
      as (text & Htext & Hfile); [apply list_elem_of_In; vm_compute; tauto|].
    cbn in Htext, Hfile. by rewrite Hfile, <- Htext.
Defined.

(** The same run: the fingerprint of the first post is in the cache. *)
Lemma successful_generation_stores_every_fingerprint_witness :
  let w' := snd (Fixture.generated Fixture.bundler_first Fixture.world) in
  writtenFilesCache w' !! "/app/.contentlayer/generated/Post/_1-a.json" = Some "h2".
Proof.
  intros w'. subst w'. unfold Fixture.generated.
  pose proof (successful_generation_stores_every_fingerprint Fixture.env
                Fixture.bundler_first (Fixture.config true None []) Fixture.cache
                Fixture.schemaDef Fixture.targetPath (Fixture.generationOptions true)
                true Fixture.world) as Hspec.
  cbv zeta in Hspec.
  destruct (writeFilesForCache _ _ _ _ _ _ _ _ _) as [exit w'] eqn:Hrun.
  assert (exit = Success (inr tt)) as Hexit.
  { apply (f_equal fst) in Hrun. vm_compute in Hrun. congruence. }
  specialize (Hspec fixture_paths_distinct Hexit). cbn [snd].
  apply (Hspec
           {| Artifact.content :=
                Some (Json.serialize 0 (JObj (fields (Fixture.doc "1-a" "Post"))));
              Artifact.filePath := "/app/.contentlayer/generated/Post/_1-a.json";
              Artifact.documentHash := Some "h2" |} "h2");
    [apply list_elem_of_In; vm_compute; tauto|reflexivity|discriminate].
Defined.

(** The file of a post that is no longer in the cache stays on disk. *)
Lemma generation_touches_only_its_artifacts_witness :
  let w' := snd (Fixture.generated sequential Fixture.stale) in
  files w' !! "/app/.contentlayer/generated/Post/old.json" = Some "{}".
Proof.
  intros w'. subst w'. unfold Fixture.generated.
  pose proof (generation_touches_only_its_artifacts Fixture.env sequential
                (Fixture.config true None []) Fixture.cache Fixture.schemaDef
                Fixture.targetPath (Fixture.generationOptions true) true
                Fixture.stale) as Hspec.
  cbv zeta in Hspec.
  destruct (writeFilesForCache _ _ _ _ _ _ _ _ _) as [exit w']. cbn [snd].
  destruct (Hspec "/app/.contentlayer/generated/Post/old.json") as [-> _];
    [|reflexivity].
  intros Hin. apply list_elem_of_In in Hin. vm_compute in Hin.
  repeat (destruct Hin as [Hin|Hin]; [discriminate Hin|]). exact Hin.
Defined.

(** The file of a post whose id has a slash lies directly in the directory
    of [Post]. *)
Lemma type_artifacts_lie_in_the_made_directories_witness :
  let nested :=
    {| cacheItemsMap :=
         [("notes/c.md",
           {| document := Fixture.doc "notes/c.md" "Post"; documentHash := "h4" |})] |} in
  ∃ dir file,
    dir ∈ dataDirPaths Fixture.targetPath Fixture.schemaDef
    ∧ "/app/.contentlayer/generated/Post/notes__c.md.json" = dir +:+ "/" +:+ file
    ∧ free_of "/" file = true.
Proof.
  intros nested.
  refine (type_artifacts_lie_in_the_made_directories Fixture.env Fixture.targetPath
           "type" Fixture.schemaDef nested _
           {| Artifact.content :=
                Some (Json.serialize 0 (JObj (fields (Fixture.doc "notes/c.md" "Post"))));
              Artifact.filePath := "/app/.contentlayer/generated/Post/notes__c.md.json";
              Artifact.documentHash := Some "h4" |} _).
  - intros item Hin. apply list_elem_of_In in Hin. simpl in Hin.
    destruct Hin as [<-|[]]. exists Fixture.Post.
    split; [apply list_elem_of_In; simpl; tauto|reflexivity].
  - apply list_elem_of_In. vm_compute. tauto.
Defined.

(** A written cache and a failed emission, with a callback that rejects. *)
Lemma rejecting_callback_replaces_the_outcome_witness :
  let config := Fixture.config false (Some Fixture.rejects) [] in
  fst (cycle Fixture.env sequential config true Fixture.schemaDef Fixture.targetPath
             (inr Fixture.cache) Fixture.world)
  = Success (inl (SuccessCallbackError (JStr "rejected")))
  ∧ fst (cycle Fixture.env sequential config true Fixture.schemaDef
               Fixture.targetPath (inl Fixture.boom) Fixture.world)
    = Success (inl (SuccessCallbackError (JStr "rejected"))).
Proof.
  intros config. split.
  - pose proof (rejecting_callback_replaces_the_outcome Fixture.env sequential config
                  true Fixture.schemaDef Fixture.targetPath Fixture.rejects
                  (JStr "rejected") (inr Fixture.cache) Fixture.world
                  eq_refl eq_refl) as Hspec.
    destruct (cycle _ _ _ _ _ _ _ _) as [exit w'] eqn:Hrun.
    apply Hspec. apply (f_equal fst) in Hrun. vm_compute in Hrun. by subst exit.
  - pose proof (rejecting_callback_replaces_the_outcome Fixture.env sequential config
                  true Fixture.schemaDef Fixture.targetPath Fixture.rejects
                  (JStr "rejected") (inl Fixture.boom) Fixture.world
                  eq_refl eq_refl) as Hspec.
    destruct (cycle _ _ _ _ _ _ _ _) as [exit w'] eqn:Hrun.
    apply Hspec. apply (f_equal fst) in Hrun. vm_compute in Hrun. by subst exit.
Defined.


(** What the one-shot entry point has done with that chunk of two caches:
    both are written, the second over the first, so that the file of the
    post of the second cache is on disk. *)
Example one_shot_generation_works_off_the_whole_chunk :
  let config :=
    Fixture.config false (Some Fixture.resolves)
      [[]; [inr Fixture.cache; inr Fixture.cache_with_draft];
       [inr Fixture.cache_without_home]] in
  let '(exit, w') :=
    generateDotpkg Fixture.env Fixture.in_order Fixture.at_once config false
                   Fixture.world in
  exit = Success (inr {| documentCount := 3 |})
  ∧ length (written_paths (trace w')) = 23%nat
  ∧ is_Some (files w' !! "/app/.contentlayer/generated/Post/_3-c.json").
Proof. vm_compute. repeat split. by eexists. Qed.

(** When the second cache of the chunk is one the synthesis throws for,
    the one-shot entry point dies, the files of the first cache
    written. *)
Example one_shot_generation_dies_with_its_chunk :
  let config :=
    Fixture.config false (Some Fixture.resolves)
      [[inr Fixture.cache; inr Fixture.cache_without_home]] in
  let '(exit, w') :=
    generateDotpkg Fixture.env Fixture.in_order Fixture.at_once config false
                   Fixture.world in
  exit = Died undefined_replace
  ∧ length (written_paths (trace w')) = 11%nat
  ∧ invocations (trace w') = 0%nat.
Proof. vm_compute. repeat split. Qed.

(** On a disk where no directory can be made, the first [mkdirp] is the
    one call. *)
Lemma failed_setup_stops_the_generation_witness :
  let '(exit, w') :=
    Fixture.generated sequential (Fixture.no_directories Fixture.world) in
  exit = Success (inl (MkdirError "/app/.contentlayer/generated"))
  ∧ trace w' = [Mkdirp "/app/.contentlayer/generated"]
  ∧ ∃ setup batch,
      trace w' = setup ++ batch
      ∧ Forall setup_event setup ∧ Forall batch_event batch
      ∧ (batch = []
         ∨ none_failed (Fixture.no_directories Fixture.world) 0 setup).
Proof.
  unfold Fixture.generated.
  pose proof (failed_setup_stops_the_generation Fixture.env sequential
                (Fixture.config true None []) Fixture.cache Fixture.schemaDef
                Fixture.targetPath (Fixture.generationOptions true) true
                (Fixture.no_directories Fixture.world)) as Hspec.
  destruct (writeFilesForCache _ _ _ _ _ _ _ _ _) as [exit w'] eqn:Hrun.
  split; [apply (f_equal fst) in Hrun; vm_compute in Hrun; congruence|].
  split; [apply (f_equal snd) in Hrun; cbn [snd] in Hrun; subst w'; reflexivity|].
  exact Hspec.
Defined.

(** On a disk that takes no writes the [Left] is the failure of the first
    write. *)
Lemma writeFilesForCache_reports_failures_as_they_are_witness :
  let '(exit, w') :=
    Fixture.generated sequential (Fixture.read_only Fixture.world) in
  exit = Success (inl (WriteFileError "/app/.contentlayer/package.json"))
  ∧ ∃ t, trace w' = t
         ∧ failed_with (Fixture.read_only Fixture.world) 0 t
             (WriteFileError "/app/.contentlayer/package.json").
Proof.
  unfold Fixture.generated.
  pose proof (writeFilesForCache_reports_failures_as_they_are Fixture.env sequential
                (Fixture.config true None []) Fixture.cache Fixture.schemaDef
                Fixture.targetPath (Fixture.generationOptions true) true
                (Fixture.read_only Fixture.world)) as Hspec.
  destruct (writeFilesForCache _ _ _ _ _ _ _ _ _) as [exit w'] eqn:Hrun.
  assert (exit = Success (inl (WriteFileError "/app/.contentlayer/package.json")))
    as Hexit.
  { apply (f_equal fst) in Hrun. vm_compute in Hrun. congruence. }
  split; [exact Hexit|]. subst exit. exact Hspec.
Defined.

(** Two hashes that differ in a quote. *)
Lemma makePackageJson_tells_schemas_apart_witness :
  makePackageJson "abc123" ≠ makePackageJson "abc124".
Proof. apply makePackageJson_tells_schemas_apart. discriminate. Defined.

(** The project without the dynamic build: eleven files are written and
    no call is one of the bundling step. *)
Lemma no_bundling_without_dynamic_build_witness :
  let w' :=
    snd (writeFilesForCache Fixture.env sequential (Fixture.config false None [])
           Fixture.cache Fixture.schemaDef Fixture.targetPath
           (Fixture.generationOptions false) true Fixture.world) in
  length (written_paths (trace w')) = 11%nat
  ∧ ∃ t, trace w' = t ∧ Forall (fun ev => is_bundling ev = false) t.
Proof.
  intros w'. split; [reflexivity|]. subst w'.
  pose proof (no_bundling_without_dynamic_build Fixture.env sequential
                (Fixture.config false None []) Fixture.cache Fixture.schemaDef
                Fixture.targetPath (Fixture.generationOptions false) true
                Fixture.world eq_refl) as Hspec.
  destruct (writeFilesForCache _ _ _ _ _ _ _ _ _) as [exit w']. exact Hspec.
Defined.

(** The project with the bundling step first and with the members of the
    batch in their order: the same files. *)
Lemma files_do_not_depend_on_the_schedule_witness :
  files (snd (Fixture.generated Fixture.bundler_first Fixture.world))
  = files (snd (Fixture.generated sequential Fixture.world)).
Proof.
  unfold Fixture.generated.
  pose proof (files_do_not_depend_on_the_schedule Fixture.env
                Fixture.bundler_first sequential (Fixture.config true None [])
                Fixture.cache Fixture.schemaDef Fixture.targetPath
                (Fixture.generationOptions true) true Fixture.world) as Hspec.
  cbv zeta in Hspec.
  destruct (writeFilesForCache Fixture.env Fixture.bundler_first _ _ _ _ _ _ _)
    as [exit1 w1] eqn:Hrun1.
  destruct (writeFilesForCache Fixture.env sequential _ _ _ _ _ _ _)
    as [exit2 w2] eqn:Hrun2.
  apply Hspec; [exact fixture_paths_distinct| |].
  - apply (f_equal fst) in Hrun1. vm_compute in Hrun1. congruence.
  - apply (f_equal fst) in Hrun2. vm_compute in Hrun2. congruence.
Defined.

(** The project generated twice. *)
Lemma regeneration_leaves_the_files_as_they_are_witness :
  let w1 := snd (Fixture.generated sequential Fixture.world) in
  files (snd (Fixture.generated Fixture.bundler_first w1)) = files w1.
Proof.
  intros w1. subst w1. unfold Fixture.generated.
  pose proof (regeneration_leaves_the_files_as_they_are Fixture.env
                sequential Fixture.bundler_first (Fixture.config true None [])
                Fixture.cache Fixture.schemaDef Fixture.targetPath
                (Fixture.generationOptions true) true Fixture.world) as Hspec.
  cbv zeta in Hspec.
  destruct (writeFilesForCache Fixture.env sequential _ _ _ _ _ _ Fixture.world)
    as [exit1 w1] eqn:Hrun1.
  cbn [snd].
  destruct (writeFilesForCache Fixture.env Fixture.bundler_first _ _ _ _ _ _ w1)
    as [exit2 w2] eqn:Hrun2.
  apply Hspec; [exact fixture_paths_distinct| |].
  - apply (f_equal fst) in Hrun1. vm_compute in Hrun1. congruence.
  - apply (f_equal snd) in Hrun1. cbn [snd] in Hrun1. subst w1.
    apply (f_equal fst) in Hrun2. vm_compute in Hrun2. congruence.
Defined.

(** Why the paths of the artifacts have to be pairwise distinct: with a
    post whose id is [_index] two members of the batch write one path, and
    what the file holds in the end is up to the scheduler. *)
Example colliding_paths_depend_on_the_schedule :
  let run schedules :=
    writeFilesForCache Fixture.env schedules (Fixture.config false None [])
      Fixture.cache_with_index Fixture.schemaDef Fixture.targetPath
      (Fixture.generationOptions false) true Fixture.world in
  let path := "/app/.contentlayer/generated/Post/_index.json" in
  fst (run sequential) = Success (inr tt)
  ∧ fst (run Fixture.aggregate_first) = Success (inr tt)
  ∧ files (snd (run sequential)) !! path
    ≠ files (snd (run Fixture.aggregate_first)) !! path.
Proof. vm_compute. repeat split. discriminate. Qed.

(** The project built in one shot: the manifest is on disk. *)
Lemma one_shot_generation_writes_the_package_witness :
  let config := Fixture.config true None [[]; [inr Fixture.cache]] in
  let '(exit, w') :=
    generateDotpkg Fixture.env (fun _ => Fixture.bundler_first) Fixture.at_once
                   config false Fixture.world in
  exit = Success (inr {| documentCount := 3 |})
  ∧ files w' !! "/app/.contentlayer/package.json" = Some (makePackageJson "abc123").
Proof.
  intros config.
  pose proof (one_shot_generation_writes_the_package Fixture.env
                (fun _ => Fixture.bundler_first) Fixture.at_once config false
                Fixture.schemaDef Fixture.cache Fixture.world) as Hspec.
  cbv zeta in Hspec.
  destruct (generateDotpkg _ _ _ _ _ _) as [exit w'] eqn:Hrun.
  assert (exit = Success (inr {| documentCount := 3 |})) as Hexit.
  { apply (f_equal fst) in Hrun. vm_compute in Hrun. congruence. }
  split; [exact Hexit|].
  destruct (Hspec eq_refl eq_refl
              ltac:(apply (bool_decide_unpack _); vm_compute; exact I)
              ltac:(by eexists)
              {| Artifact.content := Some (makePackageJson "abc123");
                 Artifact.filePath := "/app/.contentlayer/package.json";
                 Artifact.documentHash := None |})
    as (text & Htext & Hfile); [apply list_elem_of_In; vm_compute; tauto|].
  cbn in Htext, Hfile. by rewrite Hfile, <- Htext.
Defined.

(** The stream of the project with a failed emission between two caches
    and a callback that resolves. *)
Lemma stream_reports_every_cycle_witness :
  let config :=
    Fixture.config false (Some Fixture.resolves)
      [[inr Fixture.cache; inl Fixture.boom]; []; [inr Fixture.cache]] in
  let '(stream, _) :=
    S.run (generateDotpkgStream Fixture.env Fixture.in_order Fixture.at_once config
                                false true)
          Fixture.world in
  died stream = None
  ∧ ∃ outcomes,
      emitted stream = List.map element outcomes
      ∧ Forall2 outcome_of [inr Fixture.cache; inl Fixture.boom; inr Fixture.cache]
                outcomes.
Proof.
  intros config.
  apply (stream_reports_every_cycle Fixture.env Fixture.in_order Fixture.at_once
           config false true Fixture.schemaDef Fixture.world eq_refl eq_refl).
  - intros cache Hin. apply list_elem_of_In in Hin. simpl in Hin.
    destruct Hin as [[= <-]|[[=]|[[= <-]|[]]]]; exact fixture_well_formed.
  - intros callback path thrown [= <-]. discriminate.
Defined.
